(** * vs-ord: service orchestration and recovery

    A shallow embedding of the TypeScript sources of the extension
    (services/ord.ts, services/bitcoind.ts, utils/config.ts, utils/rpc.ts,
    utils/platform.ts, commands/wallet.ts, commands/inscribe.ts) and the
    properties of the orchestration core proved about it.

    Layout: JavaScript values and strings; the world the extension runs in
    (an environment that answers every external interaction, and the mutable
    module state); the promise monad; the embedded functions, one module per
    source file; then the facts. *)

From Stdlib Require Import ZArith Ascii String List Lia Bool.
From Stdlib Require Import Numbers.DecimalString.
From stdpp Require Import base tactics option list strings.

Open Scope string_scope.
Open Scope list_scope.
Open Scope Z_scope.

(** ** JavaScript strings and numbers

    A JavaScript string is a sequence of UTF-16 code units.  It is embedded as
    a [string] whose characters are the code units below 256, which covers
    every literal of the sources.  A JavaScript number that holds an integer
    is embedded as the integer itself ([Z]); [NaN] is the missing value of an
    [option Z].  The double nearest to an integer has the sign of the integer
    and is [NaN] for none, so the tests [isNaN] and [>= 0] of the sources read
    the same on both sides, also above 2^53 where doubles start to round. *)
Module JS.

(** [String.prototype.includes]: some position of [s] starts a copy of
    [search]. *)
Fixpoint includes (s search : string) : bool :=
  if String.prefix search s then true
  else match s with
       | EmptyString => false
       | String _ rest => includes rest search
       end.

(** WhiteSpace and LineTerminator code units below 256: TAB, LF, VT, FF, CR,
    SP and NBSP. *)
Definition isWhiteSpace (c : ascii) : bool :=
  let n := N_of_ascii c in
  ((9 <=? n) && (n <=? 13) || (n =? 32) || (n =? 160))%N.

Fixpoint trimStart (s : string) : string :=
  match s with
  | String c rest => if isWhiteSpace c then trimStart rest else s
  | EmptyString => EmptyString
  end.

(** [trimEnd] drops the white space that nothing but white space follows. *)
Fixpoint trimEnd (s : string) : string :=
  match s with
  | EmptyString => EmptyString
  | String c rest =>
      match trimEnd rest with
      | EmptyString => if isWhiteSpace c then EmptyString else String c EmptyString
      | kept => String c kept
      end
  end.

Definition trim (s : string) : string := trimEnd (trimStart s).

Definition digitValue (c : ascii) : option Z :=
  let n := N_of_ascii c in
  if ((48 <=? n) && (n <=? 57))%N then Some (Z.of_N n - 48) else None.

(** The value of the longest prefix of decimal digits of [s], read after the
    digits of value [acc]; [seen] tells whether a digit was read at all. *)
Fixpoint parseDigits (s : string) (seen : bool) (acc : Z) : option Z :=
  match s with
  | String c rest =>
      match digitValue c with
      | Some d => parseDigits rest true (10 * acc + d)
      | None => if seen then Some acc else None
      end
  | EmptyString => if seen then Some acc else None
  end.

(** [parseInt(s, 10)]: leading white space is skipped, one sign is read,
    then the longest prefix of digits; no digit gives [NaN]. *)
Definition parseInt (s : string) : option Z :=
  match trimStart s with
  | String c rest =>
      if (c =? "-")%char then Z.opp <$> parseDigits rest false 0
      else if (c =? "+")%char then parseDigits rest false 0
      else parseDigits (String c rest) false 0
  | EmptyString => None
  end.

(** [Number.prototype.toString] on an integer. *)
Definition toString (n : Z) : string :=
  NilZero.string_of_int (Z.to_int n).

(** The text of a number in a template; [None] is [NaN]. *)
Definition numberToString (n : option Z) : string :=
  match n with
  | Some z => toString z
  | None => "NaN"
  end.

(** [a || b] on strings: the empty string is falsy. *)
Definition orElse (a b : string) : string :=
  match a with EmptyString => b | _ => a end.

(** [String.prototype.substring(0, n)]. *)
Definition substring0 (n : nat) (s : string) : string := String.substring 0 n s.

End JS.

(** ** The world

    Everything outside the extension (the operating system, the two child
    processes, the editor, the user) is an environment that answers each
    interaction.  Answers are indexed by the number of the suspension at which
    they are read, so that an environment is a complete script of one run and
    any run can be replayed. *)

Inductive Network := regtest | testnet | signet | mainnet.

Definition networkName (n : Network) : string :=
  match n with
  | regtest => "regtest"
  | testnet => "testnet"
  | signet => "signet"
  | mainnet => "mainnet"
  end.

Definition Network_eqb (a b : Network) : bool :=
  match a, b with
  | regtest, regtest | testnet, testnet | signet, signet | mainnet, mainnet => true
  | _, _ => false
  end.

Inductive Platform := windows | macos | linux.

Definition Platform_eqb (a b : Platform) : bool :=
  match a, b with
  | windows, windows | macos, macos | linux, linux => true
  | _, _ => false
  end.

(** [OrdConfig] of utils/config.ts. *)
Record OrdConfig := {
  network : Network;
  dataDirectory : string;
  autoStart : bool;
  autoDownload : bool;
  autoUpdate : bool;
  updateCheckInterval : Z;
  bitcoindRpcPort : Z;
  ordServerPort : Z
}.

(** What a child process emits on its event emitters. *)
Inductive ProcEvent :=
| StdoutData (text : string)
| StderrData (text : string)
| ProcError (message : string)
| ProcExit (code : option Z).

(** How an [http.request] ends: the response was read to its end, the request
    failed, or its timeout fired. *)
Inductive HttpOutcome :=
| HttpResponse (statusCode : Z) (body : string)
| HttpError (message : string)
| HttpTimeout.

(** The arguments of the callback of [child_process.exec]; [exec_error] is
    the message of [error], which is set when the exit status is not zero. *)
Record ExecOutcome := {
  exec_error : option string;
  exec_stdout : string;
  exec_stderr : string
}.

(** A promise is fulfilled or rejected with an [Error] (its message).
    [Pending] marks a computation cut off by its recursion budget. *)
Inductive Settled (A : Type) :=
| Fulfilled (value : A)
| Rejected (message : string)
| Pending.
Arguments Fulfilled {A} value.
Arguments Rejected {A} message.
Arguments Pending {A}.

(** What the environment answers where the sources expect a value or an
    [Error]. *)
Inductive Answer (A : Type) :=
| Ok (value : A)
| Err (message : string).
Arguments Ok {A} value.
Arguments Err {A} message.

Definition settle {A} (a : Answer A) : Settled A :=
  match a with
  | Ok v => Fulfilled v
  | Err e => Rejected e
  end.

(** Result types of the JSON-RPC calls the sources issue ([rpcCall<T>]). *)
Inductive RpcType := TObject | TNumber | TString | TStringArray.

Definition rpcT (T : RpcType) : Type :=
  match T with
  | TObject => unit
  | TNumber => Z
  | TString => string
  | TStringArray => list string
  end.

(** A result of a JSON-RPC call as it is recorded among the effects. *)
Inductive RpcValue :=
| VObject
| VNumber (n : Z)
| VString (s : string)
| VStringArray (l : list string).

Definition rpcValue (T : RpcType) : rpcT T -> RpcValue :=
  match T with
  | TObject => fun _ => VObject
  | TNumber => VNumber
  | TString => VString
  | TStringArray => VStringArray
  end.

(** A parameter of a JSON-RPC call; [PNaN] is the number [NaN]. *)
Inductive RpcParam := PNum (n : Z) | PNaN | PStr (s : string) | PBool (b : bool).

Definition numParam (n : option Z) : RpcParam :=
  match n with
  | Some z => PNum z
  | None => PNaN
  end.

Record InscriptionResult := {
  inscriptionId : string;
  revealTxid : string;
  totalFees : Z
}.

Record Balance := { cardinal : Z; ordinal : Z; total : Z }.

Inductive LogLevel := INFO | WARN | ERROR.

(** The effects a run leaves behind, in the order they happen: what the
    extension does to the world and, for the interactions it waits for, what
    the world answers.  The [Enter] markers record that a function was entered
    and with which arguments; they have no effect of their own. *)
Inductive Effect :=
| AppendLine (level : LogLevel) (message : string)
| LogSection (title : string)
| LogProcessOutput (process : string) (data : string)
| ShowInformationMessage (message : string) (items : list string)
| ShowWarningMessage (message : string) (items : list string)
| ShowErrorMessage (message : string) (items : list string)
| ShowInputBox (prompt : string)
| UiAnswered (choice : option string)
| WithProgress (title : string)
| ProgressReport (message : string)
| ShowOutput
| ExecuteCommand (command : string)
| RefreshTree (which : string)
| UpdateStatusBar
| AddInscription (id fileName : string)
| OpenExternal (url : string)
| ClipboardWrite (text : string)
| MkdirSync (path : string)
| RmSync (path : string)
| Spawn (pid : nat) (command : string) (args : list string)
| Exec (command : string)
| ExecDone (outcome : ExecOutcome)
| HttpGet (port : Z) (path : string)
| HttpGot (outcome : HttpOutcome)
| RpcRequest (port : Z) (method : string) (params : list RpcParam) (wallet : option string)
| RpcAnswered (method : string) (answer : Answer RpcValue)
| SetTimeout (ms : Z)
| EnterStartOrdServer (retryAfterIndexClear : bool)
| EnterClearAllOrdData (net : Network)
| EnterInscribeFile (filePath : string).

Record Env := {
  (* the Node.js process and its libraries *)
  process_platform : string;
  os_homedir : string;
  process_env_APPDATA : string;
  path_join : list string -> string;
  path_basename : string -> string;
  regexp_test : string -> string -> bool;
  (* the editor *)
  configuration : OrdConfig;
  globalStorage_fsPath : string;
  installedVersions : nat -> string * string;
  ui_answer : nat -> option string;
  (* the operating system *)
  fs_existsSync : nat -> string -> bool;
  elapsed : nat -> nat;
  proc_events : nat -> list (nat * ProcEvent);
  exec_answer : nat -> string -> ExecOutcome;
  http_answer : nat -> Z -> string -> HttpOutcome;
  rpc_answer : nat -> forall T : RpcType, string -> list RpcParam -> option string -> Answer (rpcT T);
  (* decoding of what the ord binary prints (JSON first, then patterns) *)
  decode_inscription : string -> Answer InscriptionResult;
  decode_address : string -> Answer string;
  decode_balance : string -> Balance
}.

Inductive Service := Bitcoind | OrdServer.

(** A spawned child process with the variables its listeners close over:
    the [ChildProcess] object ([exitCode]) and, for an indexer, the
    [stderrOutput] and [indexVersionError] of the [startOrdServer] call that
    spawned it. *)
Record Spawned := {
  service : Service;
  exitCode : option Z;
  stderrOutput : string;
  indexVersionError : bool
}.

(** The mutable state: module-level variables of the sources, the spawned
    processes (a process id is a position in [spawned]), the clock and the
    effects so far. *)
Record State := {
  clock : nat;
  now : Z;
  ordProcess : option nat;
  bitcoindProcess : option nat;
  spawned : list Spawned;
  requestId : Z;
  currentWallet : option string;
  trace : list Effect
}.

Definition set_trace (f : list Effect -> list Effect) (s : State) : State :=
  {| clock := clock s; now := now s; ordProcess := ordProcess s;
     bitcoindProcess := bitcoindProcess s; spawned := spawned s;
     requestId := requestId s; currentWallet := currentWallet s;
     trace := f (trace s) |}.

Definition set_time (c : nat) (n : Z) (s : State) : State :=
  {| clock := c; now := n; ordProcess := ordProcess s;
     bitcoindProcess := bitcoindProcess s; spawned := spawned s;
     requestId := requestId s; currentWallet := currentWallet s;
     trace := trace s |}.

Definition set_ordProcess (p : option nat) (s : State) : State :=
  {| clock := clock s; now := now s; ordProcess := p;
     bitcoindProcess := bitcoindProcess s; spawned := spawned s;
     requestId := requestId s; currentWallet := currentWallet s;
     trace := trace s |}.

Definition set_bitcoindProcess (p : option nat) (s : State) : State :=
  {| clock := clock s; now := now s; ordProcess := ordProcess s;
     bitcoindProcess := p; spawned := spawned s;
     requestId := requestId s; currentWallet := currentWallet s;
     trace := trace s |}.

Definition set_spawned (f : list Spawned -> list Spawned) (s : State) : State :=
  {| clock := clock s; now := now s; ordProcess := ordProcess s;
     bitcoindProcess := bitcoindProcess s; spawned := f (spawned s);
     requestId := requestId s; currentWallet := currentWallet s;
     trace := trace s |}.

Definition set_requestId (r : Z) (s : State) : State :=
  {| clock := clock s; now := now s; ordProcess := ordProcess s;
     bitcoindProcess := bitcoindProcess s; spawned := spawned s;
     requestId := r; currentWallet := currentWallet s;
     trace := trace s |}.

Definition set_stderr (out : string) (flag : bool) (p : Spawned) : Spawned :=
  {| service := service p; exitCode := exitCode p;
     stderrOutput := out; indexVersionError := flag |}.

Definition set_exitCode (code : option Z) (p : Spawned) : Spawned :=
  {| service := service p; exitCode := code;
     stderrOutput := stderrOutput p; indexVersionError := indexVersionError p |}.

(** ** The promise monad

    An [async] function is a function of the environment and the state that
    returns how its promise settles and the state it leaves. *)
Definition M (A : Type) : Type := Env -> State -> Settled A * State.

Definition ret {A} (a : A) : M A := fun _ s => (Fulfilled a, s).

Definition bind {A B} (m : M A) (k : A -> M B) : M B :=
  fun env s =>
    match m env s with
    | (Fulfilled a, s') => k a env s'
    | (Rejected e, s') => (Rejected e, s')
    | (Pending, s') => (Pending, s')
    end.

Definition throw {A} (message : string) : M A := fun _ s => (Rejected message, s).

Definition pending {A} : M A := fun _ s => (Pending, s).

(** [try { m } catch (e) { handler e }]. *)
Definition tryCatch {A} (m : M A) (handler : string -> M A) : M A :=
  fun env s =>
    match m env s with
    | (Rejected e, s') => handler e env s'
    | r => r
    end.

(** A value or an [Error] that the environment has produced. *)
Definition liftAnswer {A} (a : Answer A) : M A := fun _ s => (settle a, s).

Definition ask : M Env := fun env s => (Fulfilled env, s).
Definition get : M State := fun _ s => (Fulfilled s, s).
Definition modify (f : State -> State) : M unit := fun _ s => (Fulfilled tt, f s).

Declare Scope promise_scope.
Delimit Scope promise_scope with promise.
Bind Scope promise_scope with M.
Notation "'let*' x ':=' m 'in' k" := (bind m (fun x => k))
  (at level 10, x name, m at level 100, k at level 200) : promise_scope.
Notation "m '>>' k" := (bind m (fun _ => k))
  (at level 100, k at level 200, right associativity) : promise_scope.
Open Scope promise_scope.

Definition when (b : bool) (m : M unit) : M unit := if b then m else ret tt.

Fixpoint forEach {A} (l : list A) (f : A -> M unit) : M unit :=
  match l with
  | [] => ret tt
  | x :: rest => f x >> forEach rest f
  end.

Definition emit (e : Effect) : M unit := modify (set_trace (fun t => t ++ [e])).

(** ui/outputChannel.ts (the time stamp of a line is left out). *)
Module OutputChannel.

Definition log (message : string) : M unit := emit (AppendLine INFO message).
Definition logWarn (message : string) : M unit := emit (AppendLine WARN message).
Definition logError (message : string) : M unit := emit (AppendLine ERROR message).
Definition logSection (title : string) : M unit := emit (LogSection title).
Definition logProcessOutput (process data : string) : M unit :=
  emit (LogProcessOutput process data).
Definition showOutput : M unit := emit ShowOutput.

End OutputChannel.

(** ** Listeners and suspension

    The listeners that [startOrdServer] and [startBitcoind] attach to the
    process they spawn.  They run while an [async] function is suspended, so
    they are given before the suspension primitive that calls them. *)
Module OrdListeners.

(** [log] of services/ord.ts. *)
Definition log (message : string) : M unit :=
  OutputChannel.log ("[ord] " +:+ message).

Definition onStdoutData (data : string) : M unit :=
  OutputChannel.logProcessOutput "ord" data.

(** [pid] names the process whose [stderrOutput] and [indexVersionError]
    the listener closes over. *)
Definition onStderrData (pid : nat) (text : string) : M unit :=
  modify (set_spawned (alter (fun p => set_stderr (stderrOutput p +:+ text) (indexVersionError p) p) pid)) >>
  OutputChannel.logProcessOutput "ord:err" text >>
  when (JS.includes text "Manual upgrade required" ||
        JS.includes text "Expected file format version" ||
        JS.includes text "failed to open index" ||
        JS.includes text "failed to open wallet database")
    (modify (set_spawned (alter (fun p => set_stderr (stderrOutput p) true p) pid))).

Definition onError (message : string) : M unit :=
  OutputChannel.logError ("[ord] Failed to start: " +:+ message) >>
  modify (set_ordProcess None).

Definition onExit (code : option Z) : M unit :=
  match code with
  | Some c =>
      if negb (c =? 0) then OutputChannel.logWarn ("[ord] Exited with code " +:+ JS.toString c)
      else log "Exited"
  | None => log "Exited"
  end >>
  modify (set_ordProcess None).

End OrdListeners.

Module BitcoindListeners.

(** [log] of services/bitcoind.ts. *)
Definition log (message : string) : M unit :=
  OutputChannel.log ("[bitcoind] " +:+ message).

Definition onStdoutData (data : string) : M unit :=
  OutputChannel.logProcessOutput "bitcoind" data.

Definition onStderrData (data : string) : M unit :=
  OutputChannel.logProcessOutput "bitcoind:err" data.

Definition onError (message : string) : M unit :=
  OutputChannel.logError ("[bitcoind] Failed to start: " +:+ message) >>
  modify (set_bitcoindProcess None).

Definition onExit (code : option Z) : M unit :=
  match code with
  | Some c =>
      if negb (c =? 0) then OutputChannel.logWarn ("[bitcoind] Exited with code " +:+ JS.toString c)
      else log "Exited"
  | None => log "Exited"
  end >>
  modify (set_bitcoindProcess None).

End BitcoindListeners.

(** One event of a child process reaches the listeners attached to it.  Node
    stores the exit status in the [ChildProcess] before it emits [exit]. *)
Definition deliver (ev : nat * ProcEvent) : M unit :=
  let* s := get in
  match spawned s !! ev.1 with
  | None => ret tt
  | Some p =>
      match service p, ev.2 with
      | OrdServer, StdoutData data => OrdListeners.onStdoutData data
      | OrdServer, StderrData text => OrdListeners.onStderrData ev.1 text
      | OrdServer, ProcError message => OrdListeners.onError message
      | OrdServer, ProcExit code =>
          modify (set_spawned (alter (set_exitCode code) ev.1)) >>
          OrdListeners.onExit code
      | Bitcoind, StdoutData data => BitcoindListeners.onStdoutData data
      | Bitcoind, StderrData data => BitcoindListeners.onStderrData data
      | Bitcoind, ProcError message => BitcoindListeners.onError message
      | Bitcoind, ProcExit code =>
          modify (set_spawned (alter (set_exitCode code) ev.1)) >>
          BitcoindListeners.onExit code
      end
  end.

(** An [await] on something that is not settled yet: control returns to the
    event loop, time passes and the pending events of the child processes are
    delivered.  The result is the index at which the environment is read. *)
Definition suspend : M nat :=
  let* env := ask in
  let* s := get in
  let t := clock s in
  modify (set_time (S t) (now s + Z.of_nat (elapsed env t))) >>
  forEach (proc_events env t) deliver >>
  ret t.

(** [await new Promise((resolve) => setTimeout(resolve, ms))]. *)
Definition sleep (ms : Z) : M unit :=
  emit (SetTimeout ms) >>
  let* _ := suspend in
  modify (fun s => set_time (clock s) (now s + ms) s).

(** [Date.now()]. *)
Definition Date_now : M Z := let* s := get in ret (now s).

Definition existsSync (path : string) : M bool :=
  let* env := ask in
  let* s := get in
  ret (fs_existsSync env (clock s) path).

Definition mkdirSync (path : string) : M unit := emit (MkdirSync path).
Definition rmSync (path : string) : M unit := emit (RmSync path).

(** [spawn(command, args, ...)]: the new process is appended to [spawned]. *)
Definition spawn (svc : Service) (command : string) (args : list string) : M nat :=
  let* s := get in
  let pid := length (spawned s) in
  modify (set_spawned (fun l => l ++ [ {| service := svc; exitCode := None;
                                         stderrOutput := EmptyString;
                                         indexVersionError := false |} ])) >>
  emit (Spawn pid command args) >>
  ret pid.

(** [exec(command, callback)] awaited through a promise. *)
Definition exec (command : string) : M ExecOutcome :=
  emit (Exec command) >>
  let* t := suspend in
  let* env := ask in
  let o := exec_answer env t command in
  emit (ExecDone o) >>
  ret o.

(** An [http.request] with method GET, awaited through a promise. *)
Definition httpGet (port : Z) (path : string) : M HttpOutcome :=
  emit (HttpGet port path) >>
  let* t := suspend in
  let* env := ask in
  let o := http_answer env t port path in
  emit (HttpGot o) >>
  ret o.

(** The [vscode.window] calls that are awaited return what the user picks. *)
Definition uiAnswer : M (option string) :=
  let* t := suspend in
  let* env := ask in
  emit (UiAnswered (ui_answer env t)) >>
  ret (ui_answer env t).

Definition showInformationMessage (message : string) (items : list string) : M (option string) :=
  emit (ShowInformationMessage message items) >> uiAnswer.

Definition showWarningMessage (message : string) (items : list string) : M (option string) :=
  emit (ShowWarningMessage message items) >> uiAnswer.

Definition showErrorMessage (message : string) (items : list string) : M (option string) :=
  emit (ShowErrorMessage message items) >> uiAnswer.

(** [showInputBox]: a value is accepted only when [validateInput] returns
    null for it; anything else leaves the box with no value. *)
Definition showInputBox (prompt : string) (validateInput : string -> option string) : M (option string) :=
  emit (ShowInputBox prompt) >>
  let* answer := uiAnswer in
  ret (match answer with
       | Some v => match validateInput v with None => Some v | Some _ => None end
       | None => None
       end).

(** ** The sources *)

(** utils/platform.ts *)
Module PlatformUtils.

Definition getPlatform : M Platform :=
  let* env := ask in
  ret (if (process_platform env =? "win32")%string then windows
       else if (process_platform env =? "darwin")%string then macos
       else linux).

Definition pathJoin (parts : list string) : M string :=
  let* env := ask in ret (path_join env parts).

Definition getBinariesDirectory : M string :=
  let* env := ask in
  pathJoin [globalStorage_fsPath env; "binaries"].

Definition getBitcoindPath : M string :=
  let* binDir := getBinariesDirectory in
  let* platform := getPlatform in
  let exe := if Platform_eqb platform windows then "bitcoind.exe" else "bitcoind" in
  pathJoin [binDir; "bitcoin"; "bin"; exe].

Definition getOrdPath : M string :=
  let* binDir := getBinariesDirectory in
  let* platform := getPlatform in
  let exe := if Platform_eqb platform windows then "ord.exe" else "ord" in
  pathJoin [binDir; "ord"; exe].

Definition getDefaultDataDirectory : M string :=
  let* platform := getPlatform in
  let* env := ask in
  let home := os_homedir env in
  match platform with
  | windows => pathJoin [JS.orElse (process_env_APPDATA env) home; "Bitcoin"]
  | macos => pathJoin [home; "Library"; "Application Support"; "Bitcoin"]
  | linux => pathJoin [home; ".bitcoin"]
  end.

Definition getOrdDataDirectory : M string :=
  let* platform := getPlatform in
  let* env := ask in
  let home := os_homedir env in
  match platform with
  | windows => pathJoin [JS.orElse (process_env_APPDATA env) home; "ord"]
  | macos => pathJoin [home; "Library"; "Application Support"; "ord"]
  | linux => pathJoin [home; ".ord"]
  end.

End PlatformUtils.

(** utils/config.ts *)
Module Config.

(** [getConfig] reads the settings of the editor; the environment holds
    them with the defaults already filled in. *)
Definition getConfig : M OrdConfig :=
  let* env := ask in ret (configuration env).

Definition getNetworkFlag (net : Network) : string :=
  match net with
  | mainnet => EmptyString
  | testnet => "-testnet"
  | signet => "-signet"
  | regtest => "-regtest"
  end.

Definition getOrdNetworkFlag (net : Network) : string :=
  match net with
  | mainnet => EmptyString
  | testnet => "--testnet"
  | signet => "--signet"
  | regtest => "--regtest"
  end.

Definition getRpcPort (net : Network) : M Z :=
  let* config := getConfig in
  if negb (bitcoindRpcPort config =? 18443) then
    ret (bitcoindRpcPort config)
  else
    match net with
    | mainnet => ret 8332
    | testnet => ret 18332
    | signet => ret 38332
    | regtest => ret 18443
    end.

End Config.

(** utils/walletState.ts *)
Module WalletState.

Definition DEFAULT_WALLET_NAME : string := "ord".

(** [currentWallet] is [None] both before [initWalletState] and when the
    key was never stored; either way the default name is returned. *)
Definition getCurrentWallet : M string :=
  let* s := get in
  ret (match currentWallet s with
       | Some name => name
       | None => DEFAULT_WALLET_NAME
       end).

End WalletState.

(** utils/rpc.ts *)
Module Rpc.

Definition getCookieFilePath (net : Network) : M string :=
  let* config := Config.getConfig in
  let* bitcoinDataDir :=
    match dataDirectory config with
    | EmptyString => PlatformUtils.getDefaultDataDirectory
    | dir => ret dir
    end in
  match net with
  | regtest => PlatformUtils.pathJoin [bitcoinDataDir; "regtest"; ".cookie"]
  | testnet => PlatformUtils.pathJoin [bitcoinDataDir; "testnet3"; ".cookie"]
  | signet => PlatformUtils.pathJoin [bitcoinDataDir; "signet"; ".cookie"]
  | mainnet => PlatformUtils.pathJoin [bitcoinDataDir; ".cookie"]
  end.

(** [getCookieAuth]: only whether the cookie can be read is kept, the
    header it produces is part of the request. *)
Definition getCookieAuth (net : Network) : M unit :=
  let* cookiePath := getCookieFilePath net in
  let* found := existsSync cookiePath in
  if negb found then
    throw ("Bitcoin cookie file not found at " +:+ cookiePath +:+ ". Is bitcoind running?")
  else ret tt.

(** [rpcCall<T>(method, params, wallet)]: the request goes out once the
    cookie was read; the answer is [result] or an [Error] built from
    [error] or from a body that is not JSON. *)
Definition rpcCall (T : RpcType) (method : string) (params : list RpcParam)
    (wallet : option string) : M (rpcT T) :=
  let* config := Config.getConfig in
  let* port := Config.getRpcPort (network config) in
  let* s := get in
  modify (set_requestId (requestId s + 1)) >>
  getCookieAuth (network config) >>
  emit (RpcRequest port method params wallet) >>
  let* t := suspend in
  let* env := ask in
  match rpc_answer env t T method params wallet with
  | Ok result => emit (RpcAnswered method (Ok (rpcValue T result))) >> ret result
  | Err message => emit (RpcAnswered method (Err message)) >> throw message
  end.

Definition getBlockchainInfo : M unit := rpcCall TObject "getblockchaininfo" [] None.

Definition createWallet (name : string) : M unit :=
  rpcCall TObject "createwallet"
    [PStr name; PBool false; PBool false; PStr EmptyString; PBool false; PBool true] None.

Definition loadWallet (name : string) : M unit :=
  rpcCall TObject "loadwallet" [PStr name] None.

Definition listWallets : M (list string) := rpcCall TStringArray "listwallets" [] None.

Definition getNewAddress (wallet : string) : M string :=
  rpcCall TString "getnewaddress" [] (Some wallet).

Definition generateToAddress (numBlocks : option Z) (address : string) : M (list string) :=
  rpcCall TStringArray "generatetoaddress" [numParam numBlocks; PStr address] None.

Definition isBitcoindReady : M bool :=
  tryCatch (getBlockchainInfo >> ret true) (fun _ => ret false).

End Rpc.

(** [OrdHealthCheck] of services/ord.ts. *)
Record OrdHealthCheck := {
  healthy : bool;
  blockcount : option Z;
  error : option string
}.

(** What [killProcessOnPort] reads off the listing of [netstat]. *)
Module Netstat.

Fixpoint allDigits (s : string) : bool :=
  match s with
  | EmptyString => true
  | String c rest => bool_decide (is_Some (JS.digitValue c)) && allDigits rest
  end.

(** [split(sep)] for a separator of one character. *)
Fixpoint split (sep : ascii) (s : string) : list string :=
  match s with
  | EmptyString => [EmptyString]
  | String c rest =>
      if Ascii.eqb c sep then EmptyString :: split sep rest
      else match split sep rest with
           | first :: others => String c first :: others
           | [] => [String c EmptyString]
           end
  end.

(** The last field of [line.trim().split(/\s+/)]. *)
Fixpoint lastField (s : string) (current : string) : string :=
  match s with
  | EmptyString => current
  | String c rest =>
      if JS.isWhiteSpace c then lastField rest EmptyString
      else lastField rest (current +:+ String c EmptyString)
  end.

(** The set of process ids of the listing, in the order they are met. *)
Fixpoint pidsOf (lines : list string) (pids : list string) : list string :=
  match lines with
  | [] => pids
  | line :: rest =>
      let pid := lastField (JS.trim line) EmptyString in
      if negb (pid =? EmptyString)%string && allDigits pid && negb (pid =? "0")%string
         && negb (bool_decide (pid ∈ pids))
      then pidsOf rest (pids ++ [pid])
      else pidsOf rest pids
  end.

End Netstat.

(** services/ord.ts *)
Module Ord.

Definition log := OrdListeners.log.

Definition getCookieFilePath (net : Network) : M string :=
  let* config := Config.getConfig in
  let* bitcoinDataDir :=
    match dataDirectory config with
    | EmptyString => PlatformUtils.getDefaultDataDirectory
    | dir => ret dir
    end in
  match net with
  | regtest => PlatformUtils.pathJoin [bitcoinDataDir; "regtest"; ".cookie"]
  | testnet => PlatformUtils.pathJoin [bitcoinDataDir; "testnet3"; ".cookie"]
  | signet => PlatformUtils.pathJoin [bitcoinDataDir; "signet"; ".cookie"]
  | mainnet => PlatformUtils.pathJoin [bitcoinDataDir; ".cookie"]
  end.

Definition getNetworkDir (dataDir : string) (net : Network) : M string :=
  match net with
  | regtest => PlatformUtils.pathJoin [dataDir; "regtest"]
  | testnet => PlatformUtils.pathJoin [dataDir; "testnet3"]
  | signet => PlatformUtils.pathJoin [dataDir; "signet"]
  | mainnet => ret dataDir
  end.

Definition clearOrdIndex (net : Network) : M unit :=
  let* dataDir := PlatformUtils.getOrdDataDirectory in
  let* networkDir := getNetworkDir dataDir net in
  let* indexPath := PlatformUtils.pathJoin [networkDir; "index.redb"] in
  let* found := existsSync indexPath in
  when found
    (log ("Deleting outdated index file: " +:+ indexPath) >>
     rmSync indexPath) >>
  let* rootIndexPath := PlatformUtils.pathJoin [dataDir; "index.redb"] in
  let* foundRoot := existsSync rootIndexPath in
  when foundRoot
    (log ("Deleting outdated index file: " +:+ rootIndexPath) >>
     rmSync rootIndexPath).

Definition clearOrdWallet (net : Network) : M unit :=
  let* dataDir := PlatformUtils.getOrdDataDirectory in
  let* networkDir := getNetworkDir dataDir net in
  let* env := ask in
  let walletPaths :=
    [ path_join env [networkDir; "wallets"];
      path_join env [networkDir; "wallets"; "ord.redb"];
      path_join env [dataDir; "wallets"];
      path_join env [dataDir; "wallets"; "ord.redb"];
      path_join env [networkDir; "wallet.redb"];
      path_join env [networkDir; "wallet"];
      path_join env [dataDir; "wallet.redb"];
      path_join env [dataDir; "wallet"] ] in
  forEach walletPaths (fun walletPath =>
    let* found := existsSync walletPath in
    when found
      (log ("Deleting outdated wallet database: " +:+ walletPath) >>
       rmSync walletPath)).

Definition clearAllOrdData (net : Network) : M unit :=
  emit (EnterClearAllOrdData net) >>
  log ("Clearing all ord data for network: " +:+ networkName net) >>
  clearOrdIndex net >>
  clearOrdWallet net.

Definition isVersionMismatchError (errorMessage : string) : bool :=
  JS.includes errorMessage "Manual upgrade required" ||
  JS.includes errorMessage "Expected file format version" ||
  JS.includes errorMessage "failed to open index" ||
  JS.includes errorMessage "failed to open wallet database".

(** [exitCode] of the process a handle refers to. *)
Definition exitCodeOf (s : State) (pid : nat) : option Z :=
  p ← spawned s !! pid; exitCode p.

Definition running (handle : option nat) (s : State) : bool :=
  match handle with
  | None => false
  | Some pid => bool_decide (exitCodeOf s pid = None)
  end.

Definition isOrdRunning : M bool :=
  let* s := get in ret (running (ordProcess s) s).

(** The three ways the request of [isOrdServerReady] resolves. *)
Definition readyOn (o : HttpOutcome) : bool :=
  match o with
  | HttpResponse statusCode body =>
      if statusCode =? 200 then
        match JS.parseInt (JS.trim body) with
        | Some parsed => 0 <=? parsed
        | None => false
        end
      else false
  | HttpError _ => false
  | HttpTimeout => false
  end.

Definition isOrdServerReady (port : Z) : M bool :=
  let* o := httpGet port "/blockcount" in
  ret (readyOn o).

Definition getOrdBlockCount (port : Z) : M Z :=
  let* o := httpGet port "/blockcount" in
  match o with
  | HttpResponse statusCode body =>
      if statusCode =? 200 then
        match JS.parseInt (JS.trim body) with
        | Some parsed => ret parsed
        | None => throw ("Invalid blockcount: " +:+ body)
        end
      else throw ("HTTP " +:+ JS.toString statusCode +:+ ": " +:+ body)
  | HttpError message => throw message
  | HttpTimeout => throw "Timeout"
  end.

(** The [while] loop of [waitForOrdSync]; [budget] bounds its iterations. *)
Fixpoint waitForOrdSync_from (budget : nat) (startTime : Z) (port expectedBlocks maxWaitMs : Z)
    : M bool :=
  match budget with
  | O => pending
  | S budget' =>
      let* t := Date_now in
      if t - startTime <? maxWaitMs then
        let* synced :=
          tryCatch
            (let* ordBlocks := getOrdBlockCount port in
             if expectedBlocks <=? ordBlocks then ret true
             else
               log ("Waiting for ord to sync... (" +:+ JS.toString ordBlocks +:+ "/"
                    +:+ JS.toString expectedBlocks +:+ " blocks)") >>
               ret false)
            (fun _ => ret false) in
        if synced : bool then ret true
        else
          sleep 500 >>
          waitForOrdSync_from budget' startTime port expectedBlocks maxWaitMs
      else ret false
  end.

Definition waitForOrdSync (budget : nat) (port expectedBlocks maxWaitMs : Z) : M bool :=
  let* startTime := Date_now in
  waitForOrdSync_from budget startTime port expectedBlocks maxWaitMs.

(** The ways the request of [verifyOrdBitcoindConnection] resolves. *)
Definition healthOn (o : HttpOutcome) : OrdHealthCheck :=
  match o with
  | HttpResponse statusCode body =>
      if statusCode =? 200 then
        match JS.parseInt (JS.trim body) with
        | Some parsed =>
            if 0 <=? parsed then
              {| healthy := true; blockcount := Some parsed; error := None |}
            else
              {| healthy := false; blockcount := None;
                 error := Some ("Invalid blockcount response: " +:+ body) |}
        | None =>
            {| healthy := false; blockcount := None;
               error := Some ("Invalid blockcount response: " +:+ body) |}
        end
      else if statusCode =? 500 then
        {| healthy := false; blockcount := None;
           error := Some ("Server error (likely auth failure): " +:+ body) |}
      else
        {| healthy := false; blockcount := None;
           error := Some ("HTTP " +:+ JS.toString statusCode +:+ ": " +:+ body) |}
  | HttpError message =>
      {| healthy := false; blockcount := None;
         error := Some ("Connection error: " +:+ message) |}
  | HttpTimeout =>
      {| healthy := false; blockcount := None; error := Some "Request timeout" |}
  end.

Definition verifyOrdBitcoindConnection (port : Z) : M OrdHealthCheck :=
  let* o := httpGet port "/blockcount" in
  ret (healthOn o).

(** Only on Windows: the processes that listen on [port] are killed. *)
Definition killProcessOnPort (port : Z) : M unit :=
  let* platform := PlatformUtils.getPlatform in
  if negb (Platform_eqb platform windows) then ret tt
  else
    let* o := exec ("netstat -ano | findstr :" +:+ JS.toString port +:+ " | findstr LISTENING") in
    if bool_decide (is_Some (exec_error o)) || (JS.trim (exec_stdout o) =? EmptyString)%string
    then ret tt
    else
      let lines := Netstat.split "010"%char (JS.trim (exec_stdout o)) in
      let pids := Netstat.pidsOf lines [] in
      match pids with
      | [] => ret tt
      | _ =>
          log ("Found orphan processes on port " +:+ JS.toString port +:+ ": "
               +:+ String.concat ", " pids) >>
          forEach pids (fun pid =>
            let* k := exec ("taskkill /F /PID " +:+ pid) in
            when (negb (bool_decide (is_Some (exec_error k))))
              (log ("Killed orphan process " +:+ pid))) >>
          sleep 500
      end.

(** [startOrdServer] up to the readiness loop: the checks, the command line
    and the spawn.  [None] is the early return of an indexer that runs. *)
Definition launchOrdServer : M (option (nat * OrdConfig)) :=
  let* alreadyRunning := isOrdRunning in
  if alreadyRunning : bool then
    log "ord server is already running" >> ret None
  else
    let* ordPath := PlatformUtils.getOrdPath in
    let* found := existsSync ordPath in
    if negb found then throw "ord not found. Please download binaries first."
    else
      let* config := Config.getConfig in
      let networkFlag := Config.getOrdNetworkFlag (network config) in
      let* dataDir := PlatformUtils.getOrdDataDirectory in
      let* cookieFile := getCookieFilePath (network config) in
      killProcessOnPort (ordServerPort config) >>
      mkdirSync dataDir >>
      let* cookieFound := existsSync cookieFile in
      if negb cookieFound then
        throw ("Bitcoin cookie file not found at " +:+ cookieFile
               +:+ ". Ensure bitcoind is running.")
      else
        let args :=
          match networkFlag with EmptyString => [] | flag => [flag] end ++
          [ "--cookie-file=" +:+ cookieFile;
            "--data-dir=" +:+ dataDir;
            "server";
            "--http-port=" +:+ JS.toString (ordServerPort config) ] in
        OutputChannel.logSection "Starting Ord Server" >>
        log ("Command: " +:+ String.concat " " args) >>
        let* pid := spawn OrdServer ordPath args in
        modify (set_ordProcess (Some pid)) >>
        log "Waiting for ord server to be ready..." >>
        ret (Some (pid, config)).

(** The variables of the call that the listeners of [pid] write. *)
Definition indexVersionErrorOf (s : State) (pid : nat) : bool :=
  match spawned s !! pid with Some p => indexVersionError p | None => false end.

Definition stderrOutputOf (s : State) (pid : nat) : string :=
  match spawned s !! pid with Some p => stderrOutput p | None => EmptyString end.

(** The readiness loop; [attempts] is [maxAttempts - i], [self] the
    function itself for the retry after the wipe. *)
Fixpoint awaitOrdReady (self : bool -> M unit) (retryAfterIndexClear : bool)
    (config : OrdConfig) (pid : nat) (attempts : nat) : M unit :=
  match attempts with
  | O => throw "ord server failed to become ready in time"
  | S attempts' =>
      sleep 1000 >>
      let* ready := isOrdServerReady (ordServerPort config) in
      if ready : bool then log "ord server is ready!"
      else
        let* stillRunning := isOrdRunning in
        if negb stillRunning then
          let* s := get in
          if indexVersionErrorOf s pid && retryAfterIndexClear then
            log "Detected database version mismatch. Clearing old data and retrying..." >>
            emit (ShowInformationMessage
                    "Ord database is outdated. Clearing and rebuilding (this may take a moment)..." []) >>
            clearAllOrdData (network config) >>
            self false
          else
            throw ("ord server failed to start" +:+
                   match stderrOutputOf s pid with
                   | EmptyString => EmptyString
                   | out => ": " +:+ JS.substring0 200 out
                   end)
        else awaitOrdReady self retryAfterIndexClear config pid attempts'
  end.

Definition maxAttempts : nat := 60.

Definition startOrdServer_body (self : bool -> M unit) (retryAfterIndexClear : bool) : M unit :=
  emit (EnterStartOrdServer retryAfterIndexClear) >>
  let* launched := launchOrdServer in
  match launched with
  | None => ret tt
  | Some (pid, config) => awaitOrdReady self retryAfterIndexClear config pid maxAttempts
  end.

(** [depth] bounds the nesting of the calls of [startOrdServer] in itself. *)
Fixpoint startOrdServer (depth : nat) (retryAfterIndexClear : bool) : M unit :=
  match depth with
  | O => pending
  | S depth' => startOrdServer_body (startOrdServer depth') retryAfterIndexClear
  end.

Definition quoted (s : string) : string :=
  String "034"%char EmptyString +:+ s +:+ String "034"%char EmptyString.

(** The command line shared by the wallet functions:
    [ord <flags> wallet --name=<wallet> --server-url=... <rest>]. *)
Definition walletCommand (walletName : option string) (rest : list string)
    : M (string * list string * string * OrdConfig) :=
  let* ordPath := PlatformUtils.getOrdPath in
  let* config := Config.getConfig in
  let networkFlag := Config.getOrdNetworkFlag (network config) in
  let* dataDir := PlatformUtils.getOrdDataDirectory in
  let* cookieFile := getCookieFilePath (network config) in
  let* wallet :=
    match walletName with
    | Some (String c name) => ret (String c name)
    | _ => WalletState.getCurrentWallet
    end in
  let args :=
    match networkFlag with EmptyString => [] | flag => [flag] end ++
    [ "--cookie-file=" +:+ cookieFile;
      "--data-dir=" +:+ dataDir;
      "wallet";
      "--name=" +:+ wallet;
      "--server-url=http://127.0.0.1:" +:+ JS.toString (ordServerPort config) ] ++ rest in
  ret (quoted ordPath +:+ " " +:+ String.concat " " (map quoted args), args, wallet, config).

Definition createOrdWallet_body (self : option string -> bool -> M unit)
    (walletName : option string) (retryAfterClear : bool) : M unit :=
  let* cmd := walletCommand walletName ["create"] in
  let '(command, args, wallet, config) := cmd in
  log ("Creating ord wallet " +:+ quoted wallet +:+ "...") >>
  let* o := exec command in
  match exec_error o with
  | Some message =>
      if JS.includes (exec_stderr o) "already exists" || JS.includes (exec_stdout o) "already exists"
      then log "Wallet already exists"
      else if isVersionMismatchError (exec_stderr o) && retryAfterClear then
        log "Detected wallet database version mismatch. Clearing and retrying..." >>
        emit (ShowInformationMessage "Ord wallet database is outdated. Clearing and recreating..." []) >>
        clearAllOrdData (network config) >>
        tryCatch (self (Some wallet) false) (fun retryError => throw retryError)
      else
        log ("Failed to create wallet: " +:+ message) >>
        throw ("Failed to create wallet: " +:+ JS.orElse (exec_stderr o) message)
  | None => log ("Wallet created: " +:+ exec_stdout o)
  end.

Fixpoint createOrdWallet (depth : nat) (walletName : option string) (retryAfterClear : bool)
    : M unit :=
  match depth with
  | O => pending
  | S depth' => createOrdWallet_body (createOrdWallet depth') walletName retryAfterClear
  end.

Definition getOrdReceiveAddress_body (self : option string -> bool -> M string)
    (depth : nat) (walletName : option string) (retryAfterClear : bool) : M string :=
  let* cmd := walletCommand walletName ["receive"] in
  let '(command, args, wallet, config) := cmd in
  let* o := exec command in
  match exec_error o with
  | Some message =>
      if isVersionMismatchError (exec_stderr o) && retryAfterClear then
        log "Detected wallet database version mismatch. Clearing and retrying..." >>
        emit (ShowInformationMessage "Ord wallet database is outdated. Clearing and recreating..." []) >>
        clearAllOrdData (network config) >>
        tryCatch
          (createOrdWallet depth (Some wallet) false >>
           self (Some wallet) false)
          (fun retryError => throw retryError)
      else
        throw ("Failed to get receive address: " +:+ JS.orElse (exec_stderr o) message)
  | None =>
      let* env := ask in
      liftAnswer (decode_address env (exec_stdout o))
  end.

Fixpoint getOrdReceiveAddress (depth : nat) (walletName : option string)
    (retryAfterClear : bool) : M string :=
  match depth with
  | O => pending
  | S depth' =>
      getOrdReceiveAddress_body (getOrdReceiveAddress depth') depth' walletName retryAfterClear
  end.

Definition getOrdBalance_body (self : option string -> bool -> M Balance)
    (depth : nat) (walletName : option string) (retryAfterClear : bool) : M Balance :=
  let* cmd := walletCommand walletName ["balance"] in
  let '(command, args, wallet, config) := cmd in
  let* o := exec command in
  match exec_error o with
  | Some message =>
      if isVersionMismatchError (exec_stderr o) && retryAfterClear then
        log "Detected wallet database version mismatch. Clearing and retrying..." >>
        emit (ShowInformationMessage "Ord wallet database is outdated. Clearing and recreating..." []) >>
        clearAllOrdData (network config) >>
        tryCatch
          (createOrdWallet depth (Some wallet) false >>
           self (Some wallet) false)
          (fun retryError => throw retryError)
      else
        throw ("Failed to get balance: " +:+ JS.orElse (exec_stderr o) message)
  | None =>
      let* env := ask in
      ret (decode_balance env (exec_stdout o))
  end.

Fixpoint getOrdBalance (depth : nat) (walletName : option string)
    (retryAfterClear : bool) : M Balance :=
  match depth with
  | O => pending
  | S depth' => getOrdBalance_body (getOrdBalance depth') depth' walletName retryAfterClear
  end.

Definition inscribeFile_body (self : option string -> bool -> M InscriptionResult)
    (depth : nat) (filePath : string) (feeRate : Z) (walletName : option string)
    (retryAfterClear : bool) : M InscriptionResult :=
  emit (EnterInscribeFile filePath) >>
  let* cmd := walletCommand walletName
                ["inscribe"; "--fee-rate"; JS.toString feeRate; "--file"; filePath] in
  let '(command, args, wallet, config) := cmd in
  log ("Inscribing file: " +:+ filePath) >>
  log ("Command: ord " +:+ String.concat " " args) >>
  let* o := exec command in
  match exec_error o with
  | Some message =>
      log ("Inscription failed: " +:+ message) >>
      log ("stderr: " +:+ exec_stderr o) >>
      if isVersionMismatchError (exec_stderr o) && retryAfterClear then
        log "Detected database version mismatch. Clearing and retrying..." >>
        emit (ShowInformationMessage "Ord database is outdated. Clearing and recreating..." []) >>
        clearAllOrdData (network config) >>
        tryCatch
          (createOrdWallet depth None false >>
           self None false)
          (fun retryError => throw retryError)
      else
        throw ("Inscription failed: " +:+ JS.orElse (exec_stderr o) message)
  | None =>
      log ("Inscription output: " +:+ exec_stdout o) >>
      let* env := ask in
      liftAnswer (decode_inscription env (exec_stdout o))
  end.

Fixpoint inscribeFile (depth : nat) (filePath : string) (feeRate : Z)
    (walletName : option string) (retryAfterClear : bool) : M InscriptionResult :=
  match depth with
  | O => pending
  | S depth' =>
      inscribeFile_body (inscribeFile depth' filePath feeRate) depth' filePath feeRate
        walletName retryAfterClear
  end.

End Ord.

(** services/bitcoind.ts *)
Module BitcoindService.

Definition log := BitcoindListeners.log.

Definition isBitcoindRunning : M bool :=
  let* s := get in ret (Ord.running (bitcoindProcess s) s).

(** Only on Windows is the port looked up. *)
Definition checkPortInUse (port : Z) : M bool :=
  let* platform := PlatformUtils.getPlatform in
  if negb (Platform_eqb platform windows) then ret false
  else
    let* o := exec ("netstat -ano | findstr :" +:+ JS.toString port +:+ " | findstr LISTENING") in
    if bool_decide (is_Some (exec_error o)) || (JS.trim (exec_stdout o) =? EmptyString)%string
    then ret false
    else ret true.

(** The readiness loop of [startBitcoind]; [attempts] is [maxAttempts - i]. *)
Fixpoint awaitBitcoindReady (attempts : nat) : M unit :=
  match attempts with
  | O => throw "bitcoind failed to become ready in time"
  | S attempts' =>
      sleep 1000 >>
      let* ready := Rpc.isBitcoindReady in
      if ready : bool then log "bitcoind is ready!"
      else
        let* stillRunning := isBitcoindRunning in
        if negb stillRunning then throw "bitcoind failed to start"
        else awaitBitcoindReady attempts'
  end.

Definition maxAttempts : nat := 30.

Definition startBitcoind : M unit :=
  let* alreadyRunning := isBitcoindRunning in
  if alreadyRunning : bool then log "bitcoind is already running"
  else
    let* bitcoindPath := PlatformUtils.getBitcoindPath in
    let* found := existsSync bitcoindPath in
    if negb found then throw "bitcoind not found. Please download binaries first."
    else
      let* config := Config.getConfig in
      let* dataDir :=
        match dataDirectory config with
        | EmptyString => PlatformUtils.getDefaultDataDirectory
        | dir => ret dir
        end in
      let networkFlag := Config.getNetworkFlag (network config) in
      let* rpcPort := Config.getRpcPort (network config) in
      let* inUse := checkPortInUse rpcPort in
      if inUse : bool then
        let* ready := Rpc.isBitcoindReady in
        if ready : bool then
          log ("Found existing bitcoind on port " +:+ JS.toString rpcPort +:+ ", reusing it")
        else
          throw ("Port " +:+ JS.toString rpcPort
                 +:+ " is in use but bitcoind is not responding. Another process may be using this port.")
      else
        mkdirSync dataDir >>
        let args :=
          match networkFlag with EmptyString => [] | flag => [flag] end ++
          [ "-server";
            "-rpcport=" +:+ JS.toString rpcPort;
            "-datadir=" +:+ dataDir;
            "-fallbackfee=0.00001";
            "-txindex=1" ] ++
          (if Network_eqb (network config) regtest
           then ["-rpcallowip=127.0.0.1"; "-rpcbind=127.0.0.1"] else []) in
        OutputChannel.logSection "Starting Bitcoin Core" >>
        log ("Command: " +:+ String.concat " " args) >>
        log ("Data directory: " +:+ dataDir) >>
        let* pid := spawn Bitcoind bitcoindPath args in
        modify (set_bitcoindProcess (Some pid)) >>
        log "Waiting for bitcoind to be ready..." >>
        awaitBitcoindReady maxAttempts.

End BitcoindService.

(** utils/errorHelper.ts *)
Module ErrorHelper.

Record ErrorSuggestion := {
  pattern : string;
  message : string;
  suggestion : string;
  actions : list (string * string)
}.

(** The patterns are kept as the text between the slashes; all of them
    carry the flag [i]. *)
Definition ERROR_PATTERNS : list ErrorSuggestion :=
  [ {| pattern := "cookie file.*not found|No .cookie file";
       message := "Bitcoin Core authentication failed";
       suggestion := "The cookie file is missing. Services may not be running or data directory is incorrect.";
       actions := [("Start Services", "ord.start");
                   ("Check Settings", "workbench.action.openSettings")] |};
    {| pattern := "output in wallet but not in ord server";
       message := "Wallet sync issue detected";
       suggestion := "The ord index is out of sync with the wallet. A full reset will fix this.";
       actions := [("Reset Wallet", "ord.resetWallet"); ("View Logs", "ord.showOutput")] |};
    {| pattern := "address.*already in use|EADDRINUSE";
       message := "Port is already in use";
       suggestion := "Another instance may be running, or another application is using the port. Try stopping services or change the port in settings.";
       actions := [("Stop Services", "ord.stop");
                   ("Change Settings", "workbench.action.openSettings")] |};
    {| pattern := "wallet.*not.*found|no wallet|wallet does not exist";
       message := "No wallet found";
       suggestion := "A wallet needs to be created before this operation.";
       actions := [("Create Wallet", "ord.createWallet")] |};
    {| pattern := "insufficient funds|not enough funds|balance.*insufficient";
       message := "Insufficient funds";
       suggestion := "The wallet needs more Bitcoin. In regtest mode, mine some blocks to fund it.";
       actions := [("Mine Blocks", "ord.mineBlocks"); ("Check Balance", "ord.getBalance")] |};
    {| pattern := "bitcoind.*not running|bitcoin core.*not running";
       message := "Bitcoin Core is not running";
       suggestion := "Start the services to use this feature.";
       actions := [("Start Services", "ord.start")] |};
    {| pattern := "ord.*not running|ord server.*not running";
       message := "Ord server is not running";
       suggestion := "Start the services to use this feature.";
       actions := [("Start Services", "ord.start")] |};
    {| pattern := "connection refused|ECONNREFUSED";
       message := "Connection refused";
       suggestion := "The service is not responding. It may have crashed or failed to start.";
       actions := [("Restart Services", "ord.start"); ("View Logs", "ord.showOutput")] |};
    {| pattern := "timeout|timed out";
       message := "Operation timed out";
       suggestion := "The operation took too long. Check the logs for more details.";
       actions := [("View Logs", "ord.showOutput")] |};
    {| pattern := "failed to download|download.*failed";
       message := "Download failed";
       suggestion := "Check your internet connection and firewall settings. Binaries are downloaded from bitcoincore.org and GitHub.";
       actions := [("Retry Download", "ord.downloadBinaries")] |} ].

Definition findSuggestion (errorMessage : string) : M (option ErrorSuggestion) :=
  let* env := ask in
  ret (List.find (fun sg => regexp_test env (pattern sg) errorMessage) ERROR_PATTERNS).

(** [vscode.commands.executeCommand] that is not awaited. *)
Definition executeCommand (command : string) : M unit := emit (ExecuteCommand command).

Definition showErrorWithSuggestion (context errorMessage : string) : M unit :=
  let* found := findSuggestion errorMessage in
  OutputChannel.log ("Error in " +:+ context +:+ ": " +:+ errorMessage) >>
  match found with
  | Some sg =>
      let labels := map fst (actions sg) ++ ["View Logs"] in
      let* result := showErrorMessage (message sg +:+ ": " +:+ suggestion sg) labels in
      match result with
      | None | Some EmptyString => ret tt
      | Some label =>
          if (label =? "View Logs")%string then OutputChannel.showOutput
          else
            match List.find (fun a => (fst a =? label)%string) (actions sg) with
            | Some action => executeCommand (snd action)
            | None => ret tt
            end
      end
  | None =>
      let* result := showErrorMessage (context +:+ ": " +:+ errorMessage) ["View Logs"] in
      match result with
      | Some label => when (label =? "View Logs")%string OutputChannel.showOutput
      | None => ret tt
      end
  end.

Definition showWarningWithAction (message actionLabel command : string) : M unit :=
  let* result := showWarningMessage message [actionLabel; "Dismiss"] in
  match result with
  | Some label => when (label =? actionLabel)%string (executeCommand command)
  | None => ret tt
  end.

End ErrorHelper.

(** services/download.ts, the part the workflows call. *)
Module Download.

Definition ensureBinariesInstalled : M bool :=
  let* env := ask in
  let* s := get in
  let versions := installedVersions env (clock s) in
  ret (negb (fst versions =? EmptyString)%string && negb (snd versions =? EmptyString)%string).

End Download.

(** commands/wallet.ts *)
Module Wallet.

Definition COINBASE_MATURITY : Z := 100.

Definition refreshWalletTree : M unit := emit (RefreshTree "wallet").

(** [validateInput] of the input box of [mineBlocks]. *)
Definition validateBlockCount (value : string) : option string :=
  match JS.parseInt value with
  | Some num =>
      if (num <? 1) || (1000 <? num) then Some "Please enter a number between 1 and 1000"
      else None
  | None => Some "Please enter a number between 1 and 1000"
  end.

Definition mineBlocks (depth : nat) : M unit :=
  let* config := Config.getConfig in
  if negb (Network_eqb (network config) regtest) then
    emit (ShowWarningMessage
            ("Mining is only available in regtest mode (current: "
             +:+ networkName (network config) +:+ ").") [])
  else
    let* bitcoindRunning := BitcoindService.isBitcoindRunning in
    if negb bitcoindRunning then
      ErrorHelper.showWarningWithAction
        "Bitcoin Core is not running. Start services to mine blocks." "Start Services" "ord.start"
    else
      let* input := showInputBox "How many blocks to mine?" validateBlockCount in
      match input with
      | None | Some EmptyString => ret tt
      | Some text =>
          let numBlocks := JS.parseInt text in
          emit (WithProgress ("Mining " +:+ JS.numberToString numBlocks +:+ " block(s)...")) >>
          tryCatch
            (let* address :=
               tryCatch
                 (Ord.getOrdReceiveAddress depth None true)
                 (fun _ =>
                    let* wallets := Rpc.listWallets in
                    when (negb (bool_decide ("mining" ∈ wallets))) (Rpc.createWallet "mining") >>
                    Rpc.getNewAddress "mining") in
             let* blocks := Rpc.generateToAddress numBlocks address in
             OutputChannel.log ("Mined " +:+ JS.toString (Z.of_nat (length blocks)) +:+ " blocks") >>
             emit (ShowInformationMessage
                     ("Mined " +:+ JS.toString (Z.of_nat (length blocks)) +:+ " block(s)!") []) >>
             refreshWalletTree)
            (fun failure => ErrorHelper.showErrorWithSuggestion "Failed to mine blocks" failure)
      end.

(** The funding step of [ensureWalletFunded]: what the function does with
    the balance it has read. *)
Definition fundingStep (depth : nat) (config : OrdConfig) (currentWallet : string)
    (balance : Balance) : M bool :=
  if (cardinal balance <? 10000) && Network_eqb (network config) regtest then
    OutputChannel.log "Wallet needs funding, mining blocks..." >>
    let* address := Ord.getOrdReceiveAddress depth None true in
    OutputChannel.log ("Mining to ord address: " +:+ address) >>
    let blocksToMine := COINBASE_MATURITY + 1 in
    OutputChannel.log ("Mining " +:+ JS.toString blocksToMine +:+ " blocks to fund wallet "
                       +:+ Ord.quoted currentWallet +:+ "...") >>
    let* _ := Rpc.generateToAddress (Some blocksToMine) address in
    OutputChannel.log ("Mined " +:+ JS.toString blocksToMine +:+ " blocks for funding") >>
    ret true
  else ret (10000 <=? cardinal balance).

Definition ensureWalletFunded (depth : nat) : M bool :=
  let* config := Config.getConfig in
  let* currentWallet := WalletState.getCurrentWallet in
  tryCatch
    (OutputChannel.log ("Ensuring ord wallet " +:+ Ord.quoted currentWallet +:+ " exists...") >>
     tryCatch
       (Ord.createOrdWallet depth None true >>
        OutputChannel.log "Ord wallet created/verified")
       (fun msg =>
          if negb (JS.includes msg "already exists") then
            OutputChannel.log ("Error creating ord wallet: " +:+ msg) >>
            throw msg
          else OutputChannel.log "Ord wallet already exists") >>
     let* wallets := Rpc.listWallets in
     when (negb (bool_decide ("mining" ∈ wallets)))
       (OutputChannel.log ("Creating Bitcoin wallet " +:+ Ord.quoted "mining"
                           +:+ " for coinbase rewards...") >>
        tryCatch (Rpc.createWallet "mining")
          (fun _ => tryCatch (Rpc.loadWallet "mining") (fun _ => ret tt))) >>
     let* balance := Ord.getOrdBalance depth None true in
     OutputChannel.log ("Current ord wallet " +:+ Ord.quoted currentWallet +:+ " balance: "
                        +:+ JS.toString (cardinal balance) +:+ " sats") >>
     fundingStep depth config currentWallet balance)
    (fun failure =>
       OutputChannel.log ("Error ensuring wallet funded: Error: " +:+ failure) >>
       ret false).

End Wallet.

(** commands/inscribe.ts *)
Module Inscribe.

Definition updateStatusBar : M unit := emit UpdateStatusBar.

Fixpoint ensureServicesRunning (depth : nat) : M bool :=
  match depth with
  | O => pending
  | S depth' =>
      let* installed := Download.ensureBinariesInstalled in
      if negb installed then
        let* result := showWarningMessage "Bitcoin Core and ord binaries are not installed."
                         ["Download"; "Cancel"] in
        if bool_decide (result = Some "Download") then
          emit (ExecuteCommand "ord.downloadBinaries") >>
          let* _ := suspend in
          ensureServicesRunning depth'
        else ret false
      else
        let* bitcoindRunning := BitcoindService.isBitcoindRunning in
        when (negb bitcoindRunning)
          (OutputChannel.log "Starting bitcoind for inscription..." >>
           BitcoindService.startBitcoind >>
           updateStatusBar) >>
        let* ordRunning := Ord.isOrdRunning in
        when (negb ordRunning)
          (OutputChannel.log "Starting ord server for inscription..." >>
           Ord.startOrdServer depth' true >>
           updateStatusBar) >>
        ret true
  end.

Record InscribeResult := {
  resultId : string;
  localUrl : string;
  failure : option string
}.

(** The task that [doInscribe] runs under the progress notification. *)
Definition inscribeTask (depth : nat) (config : OrdConfig) (filePath fileName : string)
    : M (option InscribeResult) :=
  tryCatch
    (emit (ProgressReport "Starting services...") >>
     let* servicesUp := ensureServicesRunning depth in
     if negb servicesUp then ret None
     else
       emit (ProgressReport "Checking wallet (may mine blocks if empty)...") >>
       let* funded := Wallet.ensureWalletFunded depth in
       if negb funded && negb (Network_eqb (network config) regtest) then
         emit (ShowErrorMessage
                 "Wallet does not have enough funds. Please fund your wallet first." []) >>
         ret None
       else
         emit (ProgressReport "Syncing ord index...") >>
         let* bitcoindBlocks := Rpc.rpcCall TNumber "getblockcount" [] None in
         let* synced := Ord.waitForOrdSync depth (ordServerPort config) bitcoindBlocks 30000 in
         if negb synced then throw "Ord server failed to sync with bitcoind"
         else
           emit (ProgressReport "Creating inscription...") >>
           let* result := Ord.inscribeFile depth filePath 1 None true in
           OutputChannel.log ("Inscription created: " +:+ inscriptionId result) >>
           emit (AddInscription (inscriptionId result) fileName) >>
           when (Network_eqb (network config) regtest)
             (emit (ProgressReport "Mining confirmation block...") >>
              tryCatch
                (let* address := Ord.getOrdReceiveAddress depth None true in
                 let* _ := Rpc.generateToAddress (Some 1) address in
                 OutputChannel.log "Mined confirmation block")
                (fun e =>
                   OutputChannel.log ("Warning: Could not mine confirmation block: Error: " +:+ e))) >>
           ret (Some {| resultId := inscriptionId result;
                        localUrl := "http://127.0.0.1:" +:+ JS.toString (ordServerPort config)
                                    +:+ "/inscription/" +:+ inscriptionId result;
                        failure := None |}))
    (fun e => ret (Some {| resultId := EmptyString; localUrl := EmptyString; failure := Some e |})).

Definition doInscribe (depth : nat) (filePath : string) : M unit :=
  let* config := Config.getConfig in
  let* env := ask in
  let fileName := path_basename env filePath in
  let* proceed :=
    if Network_eqb (network config) mainnet then
      let* result := showWarningMessage
                       "You are about to inscribe on MAINNET. This will cost real Bitcoin!"
                       ["Continue"; "Cancel"] in
      ret (bool_decide (result = Some "Continue"))
    else ret true in
  if negb proceed then ret tt
  else
    emit (WithProgress ("Inscribing " +:+ fileName +:+ "...")) >>
    let* inscribeResult := inscribeTask depth config filePath fileName in
    match inscribeResult with
    | None => ret tt
    | Some r =>
        match failure r with
        | Some e => ErrorHelper.showErrorWithSuggestion "Inscription failed" e
        | None =>
            match resultId r with
            | EmptyString => ret tt
            | id =>
                emit (RefreshTree "inscriptions") >>
                emit (RefreshTree "wallet") >>
                let* action := showInformationMessage
                                 ("Inscription created!" +:+ String "010"%char id)
                                 ["Open in Browser"; "Copy ID"] in
                if bool_decide (action = Some "Open in Browser") then
                  emit (OpenExternal (localUrl r))
                else if bool_decide (action = Some "Copy ID") then
                  emit (ClipboardWrite id) >>
                  emit (ShowInformationMessage "Inscription ID copied to clipboard!" [])
                else ret tt
            end
        end
    end.

End Inscribe.

(** ** Scripted environments

    Concrete environments and states on which the embedded functions are run:
    a Linux or Windows machine with the binaries installed and every file in
    place, whose processes, commands, indexer and node follow a script. *)
Module Demo.

Definition configWithPort (net : Network) (rpcPort : Z) : OrdConfig :=
  {| network := net; dataDirectory := EmptyString; autoStart := false;
     autoDownload := true; autoUpdate := true; updateCheckInterval := 24;
     bitcoindRpcPort := rpcPort; ordServerPort := 9001 |}.

Definition config (net : Network) : OrdConfig := configWithPort net 18443.

Definition done (stdout : string) : ExecOutcome :=
  {| exec_error := None; exec_stdout := stdout; exec_stderr := EmptyString |}.

Definition failed (stderr : string) : ExecOutcome :=
  {| exec_error := Some ("Command failed: " +:+ stderr); exec_stdout := EmptyString;
     exec_stderr := stderr |}.

(** What the node answers when it answers. *)
Definition rpcResult (T : RpcType) : rpcT T :=
  match T with
  | TObject => tt
  | TNumber => 101
  | TString => "bcrt1qminingwalletaddress"
  | TStringArray => ["mining"]
  end.

Definition env (platform : string) (cfg : OrdConfig)
    (events : nat -> list (nat * ProcEvent))
    (execs : nat -> string -> ExecOutcome)
    (https : nat -> HttpOutcome)
    (nodeAnswers : bool)
    (user : nat -> option string) : Env :=
  {| process_platform := platform;
     os_homedir := "/home/dev";
     process_env_APPDATA := EmptyString;
     path_join := String.concat "/";
     path_basename := fun path => path;
     regexp_test := fun _ _ => false;
     configuration := cfg;
     globalStorage_fsPath := "/storage";
     installedVersions := fun _ => ("28.0", "0.21.0");
     ui_answer := user;
     fs_existsSync := fun _ _ => true;
     elapsed := fun _ => 0%nat;
     proc_events := events;
     exec_answer := execs;
     http_answer := fun t _ _ => https t;
     rpc_answer := fun _ T _ _ _ =>
       if nodeAnswers then Ok (rpcResult T) else Err "connect ECONNREFUSED 127.0.0.1:18443";
     decode_inscription := fun stdout =>
       Ok {| inscriptionId := stdout; revealTxid := EmptyString; totalFees := 0 |};
     decode_address := fun stdout => Ok stdout;
     decode_balance := fun stdout =>
       let sats := default 0 (JS.parseInt stdout) in
       {| cardinal := sats; ordinal := 0; total := sats |} |}.

Definition idle : State :=
  {| clock := 0; now := 0; ordProcess := None; bitcoindProcess := None; spawned := [];
     requestId := 0; currentWallet := None; trace := [] |}.

Definition noEvents : nat -> list (nat * ProcEvent) := fun _ => [].
Definition noUser : nat -> option string := fun _ => None.
Definition refused : nat -> HttpOutcome := fun _ => HttpError "connect ECONNREFUSED".

(** An indexer that prints a version mismatch and exits with status 1, again
    and again, for the first two processes that are spawned. *)
Definition mismatchEvents : nat -> list (nat * ProcEvent) :=
  fun _ =>
    [ (0%nat, StderrData "error: failed to open index: Manual upgrade required");
      (0%nat, ProcExit (Some 1));
      (1%nat, StderrData "error: failed to open index: Manual upgrade required");
      (1%nat, ProcExit (Some 1)) ].

End Demo.

(** * Facts *)

(** ** Strings *)

#[local] Arguments String.append !_ _ : simpl nomatch.

(** [s] contains [search]: some text before it and some text after it. *)
Definition contains (s search : string) : Prop :=
  exists before after, s = before +:+ search +:+ after.

Lemma append_assoc (a b c : string) : (a +:+ b) +:+ c = a +:+ (b +:+ c).
Proof. induction a as [|x a IH]; simpl; [reflexivity | now rewrite IH]. Qed.

Lemma append_nil_r (a : string) : a +:+ EmptyString = a.
Proof. induction a as [|x a IH]; simpl; [reflexivity | now rewrite IH]. Qed.

Lemma prefix_app_iff (p s : string) :
  String.prefix p s = true <-> exists rest, s = p +:+ rest.
Proof.
  revert s. induction p as [|x p IH]; intros s; simpl.
  - destruct s; split; eauto.
  - destruct s as [|y s]; simpl.
    + split; [discriminate | intros [rest H]; discriminate].
    + destruct (ascii_dec x y) as [->|Hne].
      * rewrite IH. split; intros [rest H]; exists rest; congruence.
      * split; [discriminate | intros [rest H]; congruence].
Qed.

Lemma includes_nil (search : string) :
  JS.includes EmptyString search = String.prefix search EmptyString.
Proof. unfold JS.includes. now destruct (String.prefix search EmptyString). Qed.

Lemma includes_cons (c : ascii) (s search : string) :
  JS.includes (String c s) search = String.prefix search (String c s) || JS.includes s search.
Proof. reflexivity. Qed.

Lemma includes_contains (s search : string) :
  JS.includes s search = true <-> contains s search.
Proof.
  unfold contains. induction s as [|c s IH].
  - rewrite includes_nil, prefix_app_iff. split.
    + intros [rest Hr]. exists EmptyString, rest. exact Hr.
    + intros (before & after & H). destruct before; [|discriminate]. eauto.
  - rewrite includes_cons, orb_true_iff, prefix_app_iff, IH. split.
    + intros [[rest Hr]|(before & after & H)].
      * exists EmptyString, rest. exact Hr.
      * exists (String c before), after. simpl. now rewrite H.
    + intros (before & after & H). destruct before as [|b before]; simpl in H.
      * left. eauto.
      * right. injection H as _ H. eauto.
Qed.

Lemma includes_middle (before search after : string) :
  JS.includes (before +:+ search +:+ after) search = true.
Proof. apply includes_contains. exists before, after. reflexivity. Qed.

Lemma contains_append_l (prefix s search : string) :
  contains s search -> contains (prefix +:+ s) search.
Proof.
  intros (before & after & ->). exists (prefix +:+ before), after.
  now rewrite append_assoc.
Qed.

Lemma contains_append_r (s suffix search : string) :
  contains s search -> contains (s +:+ suffix) search.
Proof.
  intros (before & after & ->). exists before, (after +:+ suffix).
  now rewrite !append_assoc.
Qed.

Lemma contains_refl (s : string) : contains s s.
Proof. exists EmptyString, EmptyString. simpl. now rewrite append_nil_r. Qed.

(** ** The version-mismatch classifier *)

Definition mismatchSignatures : list string :=
  [ "Manual upgrade required";
    "Expected file format version";
    "failed to open index";
    "failed to open wallet database" ].

(** C2. [isVersionMismatchError] is true exactly for the texts that contain
    one of the four signatures, and so false for texts that contain none of
    them; it is false for the three unrelated messages. *)
Theorem isVersionMismatchError_classifies :
  (forall stderr : string,
      Ord.isVersionMismatchError stderr = true <->
      exists signature, In signature mismatchSignatures /\ contains stderr signature) /\
  (forall stderr : string,
      Ord.isVersionMismatchError stderr = false <->
      forall signature, In signature mismatchSignatures -> ~ contains stderr signature) /\
  Ord.isVersionMismatchError "Connection refused" = false /\
  Ord.isVersionMismatchError "Bitcoin RPC error" = false /\
  Ord.isVersionMismatchError "Network timeout" = false.
Proof.
  assert (Hiff : forall stderr : string,
      Ord.isVersionMismatchError stderr = true <->
      exists signature, In signature mismatchSignatures /\ contains stderr signature).
  { intros stderr. unfold Ord.isVersionMismatchError, mismatchSignatures.
    rewrite !orb_true_iff, !includes_contains. simpl. split.
    - intros [[[H|H]|H]|H]; eauto 10.
    - intros (sg & Hin & Hc).
      destruct Hin as [<-|[<-|[<-|[<-|[]]]]]; auto. }
  split; [exact Hiff|]. split; [| repeat split; reflexivity].
  intros stderr. split.
  - intros Hf sg Hin Hc.
    assert (Ord.isVersionMismatchError stderr = true) by (apply Hiff; eauto).
    congruence.
  - intros Hnone. destruct (Ord.isVersionMismatchError stderr) eqn:E; [|reflexivity].
    apply Hiff in E as (sg & Hin & Hc). exfalso. exact (Hnone sg Hin Hc).
Qed.

(** ** What [parseInt] accepts

    The reading of a text as an integer, stated without the parser: white
    space, an optional sign, then at least one decimal digit; whatever follows
    the digits is not looked at. *)

Definition isDigit (c : ascii) : Prop := (48 <= N_of_ascii c <= 57)%N.

Definition digitOf (c : ascii) : Z := Z.of_N (N_of_ascii c) - 48.

Fixpoint allChars (P : ascii -> Prop) (s : string) : Prop :=
  match s with
  | EmptyString => True
  | String c rest => P c /\ allChars P rest
  end.

Definition headIs (P : ascii -> Prop) (s : string) : Prop :=
  match s with
  | EmptyString => False
  | String c _ => P c
  end.

(** The number that the digits [ds] denote when they follow digits of value
    [acc]. *)
Fixpoint decimalFrom (acc : Z) (ds : string) : Z :=
  match ds with
  | EmptyString => acc
  | String c rest => decimalFrom (10 * acc + digitOf c) rest
  end.

Definition isSpace (c : ascii) : Prop := JS.isWhiteSpace c = true.

Definition IntegerPrefix (text : string) (n : Z) : Prop :=
  exists space sign digits rest,
    text = space +:+ sign +:+ digits +:+ rest /\
    allChars isSpace space /\
    (sign = EmptyString \/ sign = "+" \/ sign = "-") /\
    digits <> EmptyString /\ allChars isDigit digits /\
    ~ headIs isDigit rest /\
    n = if (sign =? "-")%string then - decimalFrom 0 digits else decimalFrom 0 digits.

Lemma digitValue_Some (c : ascii) (d : Z) :
  JS.digitValue c = Some d <-> isDigit c /\ d = digitOf c.
Proof.
  unfold JS.digitValue, isDigit, digitOf.
  destruct ((48 <=? N_of_ascii c)%N && (N_of_ascii c <=? 57)%N) eqn:E.
  - apply andb_true_iff in E as [E1 E2].
    apply N.leb_le in E1, E2. split.
    + intros [= <-]. auto.
    + intros [_ ->]. reflexivity.
  - split; [discriminate|]. intros [[H1 H2] _].
    apply N.leb_le in H1, H2. rewrite H1, H2 in E. discriminate.
Qed.

Lemma digitValue_None (c : ascii) : JS.digitValue c = None <-> ~ isDigit c.
Proof.
  split.
  - intros E H. assert (JS.digitValue c = Some (digitOf c)) by (apply digitValue_Some; auto).
    congruence.
  - intros H. destruct (JS.digitValue c) as [d|] eqn:E; [|reflexivity].
    apply digitValue_Some in E as [E _]. contradiction.
Qed.

Lemma digit_not_space (c : ascii) : isDigit c -> JS.isWhiteSpace c = false.
Proof.
  unfold isDigit, JS.isWhiteSpace. intros [H1 H2].
  rewrite !orb_false_iff, andb_false_iff, !N.leb_gt, !N.eqb_neq. lia.
Qed.

Lemma parseDigits_spec (s : string) (seen : bool) (acc v : Z) :
  JS.parseDigits s seen acc = Some v <->
  exists digits rest,
    s = digits +:+ rest /\ allChars isDigit digits /\ ~ headIs isDigit rest /\
    (seen = false -> digits <> EmptyString) /\ v = decimalFrom acc digits.
Proof.
  split.
  - revert seen acc. induction s as [|c s IH]; intros seen acc; simpl.
    + destruct seen; [|discriminate]. intros [= <-].
      exists EmptyString, EmptyString. simpl. intuition discriminate.
    + destruct (JS.digitValue c) as [d|] eqn:E.
      * intros H. apply IH in H as (ds & rest & -> & Hall & Hrest & _ & ->).
        apply digitValue_Some in E as [Hc ->].
        exists (String c ds), rest. simpl. intuition discriminate.
      * destruct seen; [|discriminate]. intros [= <-].
        apply digitValue_None in E.
        exists EmptyString, (String c s). simpl. intuition discriminate.
  - intros (ds & rest & -> & Hall & Hrest & Hseen & ->).
    revert seen acc Hseen. induction ds as [|c ds IH]; intros seen acc Hseen; simpl.
    + destruct seen; [|exfalso; now apply Hseen].
      destruct rest as [|c rest]; simpl; [reflexivity|].
      simpl in Hrest. apply digitValue_None in Hrest. now rewrite Hrest.
    + destruct Hall as [Hc Hall].
      assert (E : JS.digitValue c = Some (digitOf c)) by (apply digitValue_Some; auto).
      rewrite E. apply IH; [exact Hall | discriminate].
Qed.

Lemma trimStart_split (s : string) :
  exists space, s = space +:+ JS.trimStart s /\ allChars isSpace space /\
                ~ headIs isSpace (JS.trimStart s).
Proof.
  induction s as [|c s (space & Hs & Hall & Hhead)]; simpl.
  - exists EmptyString. simpl. auto.
  - destruct (JS.isWhiteSpace c) eqn:E.
    + exists (String c space). simpl. rewrite <- Hs. auto.
    + exists EmptyString. simpl. unfold isSpace. rewrite E. auto.
Qed.

Lemma trimStart_skip (space t : string) :
  allChars isSpace space -> ~ headIs isSpace t -> JS.trimStart (space +:+ t) = t.
Proof.
  intros Hall Hhead. induction space as [|c space IH]; simpl.
  - destruct t as [|c t]; simpl in *; [reflexivity|].
    unfold isSpace in Hhead. now destruct (JS.isWhiteSpace c).
  - destruct Hall as [Hc Hall]. unfold isSpace in Hc. rewrite Hc. auto.
Qed.

Lemma parseInt_spec (text : string) (n : Z) :
  JS.parseInt text = Some n <-> IntegerPrefix text n.
Proof.
  unfold JS.parseInt, IntegerPrefix. split.
  - destruct (trimStart_split text) as (space & Htext & Hspace & Hhead).
    destruct (JS.trimStart text) as [|c t]; [discriminate|].
    destruct (Ascii.eqb_spec c "-") as [->|Hminus];
      [|destruct (Ascii.eqb_spec c "+") as [->|Hplus]].
    + destruct (JS.parseDigits t false 0) as [m|] eqn:E; [|discriminate].
      intros [= <-]. apply parseDigits_spec in E as (ds & rest & -> & Hall & Hrest & Hne & ->).
      exists space, "-", ds, rest. simpl. rewrite Htext. intuition.
    + intros E. apply parseDigits_spec in E as (ds & rest & -> & Hall & Hrest & Hne & ->).
      exists space, "+", ds, rest. simpl. rewrite Htext. intuition.
    + intros E. apply parseDigits_spec in E as (ds & rest & Ht & Hall & Hrest & Hne & ->).
      exists space, EmptyString, ds, rest. simpl. rewrite Htext, Ht. intuition.
  - intros (space & sign & ds & rest & -> & Hspace & Hsign & Hne & Hall & Hrest & ->).
    assert (Hparse : forall acc, JS.parseDigits (ds +:+ rest) false acc = Some (decimalFrom acc ds)).
    { intros acc. apply parseDigits_spec. exists ds, rest. intuition. }
    destruct Hsign as [->|[->| ->]].
    + destruct ds as [|c ds]; [contradiction|]. simpl in Hall. destruct Hall as [Hc Hall].
      rewrite trimStart_skip;
        [| exact Hspace | simpl; unfold isSpace; now rewrite (digit_not_space c Hc)].
      simpl String.append. cbv beta iota.
      destruct (Ascii.eqb_spec c "-") as [->|_]; [exfalso; revert Hc; unfold isDigit; simpl; lia|].
      destruct (Ascii.eqb_spec c "+") as [->|_]; [exfalso; revert Hc; unfold isDigit; simpl; lia|].
      apply (Hparse 0).
    + rewrite trimStart_skip; [| exact Hspace | simpl; unfold isSpace; simpl; discriminate].
      simpl. apply (Hparse 0).
    + rewrite trimStart_skip; [| exact Hspace | simpl; unfold isSpace; simpl; discriminate].
      simpl. now rewrite (Hparse 0).
Qed.

Lemma trimEnd_cons (c : ascii) (r : string) :
  JS.isWhiteSpace c = false -> JS.trimEnd (String c r) = String c (JS.trimEnd r).
Proof. intros H. simpl. destruct (JS.trimEnd r); [now rewrite H | reflexivity]. Qed.

Lemma parseDigits_trimEnd (r : string) (seen : bool) (acc : Z) :
  JS.parseDigits (JS.trimEnd r) seen acc = JS.parseDigits r seen acc.
Proof.
  revert seen acc. induction r as [|c r IH]; intros seen acc; [reflexivity|].
  destruct (JS.digitValue c) as [d|] eqn:E.
  - rewrite trimEnd_cons.
    + simpl. rewrite E. apply IH.
    + apply digit_not_space. now apply digitValue_Some in E.
  - simpl. rewrite E. destruct (JS.trimEnd r); [destruct (JS.isWhiteSpace c)|]; simpl;
      rewrite ?E; reflexivity.
Qed.

(** Trimming the body first changes nothing for [parseInt]. *)
Lemma parseInt_trim (s : string) : JS.parseInt (JS.trim s) = JS.parseInt s.
Proof.
  unfold JS.trim, JS.parseInt.
  destruct (trimStart_split s) as (space & _ & _ & Hhead).
  destruct (JS.trimStart s) as [|c t]; [reflexivity|].
  simpl in Hhead. unfold isSpace in Hhead.
  destruct (JS.isWhiteSpace c) eqn:E; [contradiction|].
  rewrite trimEnd_cons by exact E. simpl JS.trimStart. rewrite E.
  rewrite <- (trimEnd_cons c t E). now rewrite !parseDigits_trimEnd.
Qed.

(** A body parses as the non-negative integer [n]. *)
Definition parsesAsBlockCount (body : string) (n : Z) : Prop :=
  IntegerPrefix body n /\ 0 <= n.

Lemma parsesAsBlockCount_iff (body : string) (n : Z) :
  parsesAsBlockCount body n <-> JS.parseInt (JS.trim body) = Some n /\ 0 <= n.
Proof. unfold parsesAsBlockCount. now rewrite parseInt_trim, parseInt_spec. Qed.

(** ** Running a promise *)

Lemma run_bind {A B} (m : M A) (k : A -> M B) (env : Env) (s : State) :
  bind m k env s =
  match m env s with
  | (Fulfilled a, s') => k a env s'
  | (Rejected e, s') => (Rejected e, s')
  | (Pending, s') => (Pending, s')
  end.
Proof. reflexivity. Qed.

(** [m] always comes back with a value. *)
Definition succeeds {A} (m : M A) : Prop :=
  forall env s, exists a, (m env s).1 = Fulfilled a.

Lemma succeeds_ret {A} (a : A) : succeeds (ret a).
Proof. intros env s. now exists a. Qed.

Lemma succeeds_modify (f : State -> State) : succeeds (modify f).
Proof. intros env s. now exists tt. Qed.

Lemma succeeds_emit (e : Effect) : succeeds (emit e).
Proof. apply succeeds_modify. Qed.

Lemma succeeds_bind {A B} (m : M A) (k : A -> M B) :
  succeeds m -> (forall a, succeeds (k a)) -> succeeds (bind m k).
Proof.
  intros Hm Hk env s. rewrite run_bind. destruct (Hm env s) as [a Ha].
  destruct (m env s) as [r s']. simpl in Ha. subst r. apply Hk.
Qed.

Lemma succeeds_when (b : bool) (m : M unit) : succeeds m -> succeeds (when b m).
Proof. destruct b; [auto | intros _; apply succeeds_ret]. Qed.

Lemma succeeds_forEach {A} (l : list A) (f : A -> M unit) :
  (forall x, succeeds (f x)) -> succeeds (forEach l f).
Proof.
  intros Hf. induction l as [|x l IH]; simpl.
  - apply succeeds_ret.
  - apply succeeds_bind; auto.
Qed.

Lemma succeeds_get : succeeds get.
Proof. intros env s. now exists s. Qed.

Lemma succeeds_ask : succeeds ask.
Proof. intros env s. now exists env. Qed.

Create HintDb succeeds.
#[local] Hint Resolve succeeds_ret succeeds_modify succeeds_emit succeeds_bind succeeds_when
  succeeds_forEach succeeds_get succeeds_ask : succeeds.

Ltac succeeds_tac :=
  repeat first
    [ progress intros
    | apply succeeds_bind
    | apply succeeds_forEach
    | apply succeeds_when
    | apply succeeds_ret
    | apply succeeds_emit
    | apply succeeds_modify
    | apply succeeds_get
    | apply succeeds_ask
    | solve [auto with succeeds]
    | match goal with
      | |- succeeds (match ?x with _ => _ end) => destruct x
      end ].

Lemma succeeds_deliver (ev : nat * ProcEvent) : succeeds (deliver ev).
Proof.
  unfold deliver. apply succeeds_bind; [apply succeeds_get|]. intros s.
  destruct (spawned s !! ev.1) as [p|]; [|apply succeeds_ret].
  destruct (service p), ev.2;
    unfold OrdListeners.onStdoutData, OrdListeners.onStderrData, OrdListeners.onError,
      OrdListeners.onExit, BitcoindListeners.onStdoutData, BitcoindListeners.onStderrData,
      BitcoindListeners.onError, BitcoindListeners.onExit, OrdListeners.log,
      BitcoindListeners.log, OutputChannel.log, OutputChannel.logWarn,
      OutputChannel.logError, OutputChannel.logProcessOutput;
    succeeds_tac.
Qed.
#[local] Hint Resolve succeeds_deliver : succeeds.

(** Suspension always resumes, with the index of the environment it read. *)
Lemma suspend_result (env : Env) (s : State) : (suspend env s).1 = Fulfilled (clock s).
Proof.
  unfold suspend, bind, ask, get, modify, ret. simpl.
  destruct (succeeds_forEach (proc_events env (clock s)) deliver succeeds_deliver env
              (set_time (S (clock s)) (now s + Z.of_nat (elapsed env (clock s))) s)) as [[] H].
  destruct (forEach _ _ _ _) as [r s']. simpl in H. subst r. reflexivity.
Qed.

Lemma httpGet_result (env : Env) (s : State) (port : Z) (path : string) :
  (httpGet port path env s).1 = Fulfilled (http_answer env (clock s) port path).
Proof.
  unfold httpGet, bind, emit, modify, ask, ret. simpl.
  pose proof (suspend_result env (set_trace (fun t => t ++ [HttpGet port path]) s)) as H.
  destruct (suspend env _) as [r s']. simpl in H. subst r. reflexivity.
Qed.

(** ** The readiness predicate and the health check *)



(** ** The RPC port *)

(** C10. [getRpcPort] returns the configured port unchanged, whatever the
    network, as soon as it differs from 18443; only when the configured port
    is 18443 does the network choose among 8332, 18332, 38332 and 18443. *)
Theorem getRpcPort_custom_port_wins (env : Env) (s : State) :
  let configured := bitcoindRpcPort (configuration env) in
  (configured <> 18443 ->
   forall net, Config.getRpcPort net env s = (Fulfilled configured, s)) /\
  (configured = 18443 ->
   Config.getRpcPort mainnet env s = (Fulfilled 8332, s) /\
   Config.getRpcPort testnet env s = (Fulfilled 18332, s) /\
   Config.getRpcPort signet env s = (Fulfilled 38332, s) /\
   Config.getRpcPort regtest env s = (Fulfilled 18443, s)).
Proof.
  intros configured. subst configured. split.
  - intros Hne net. apply Z.eqb_neq in Hne.
    unfold Config.getRpcPort, Config.getConfig, bind, ask, ret. simpl. now rewrite Hne.
  - intros Heq. unfold Config.getRpcPort, Config.getConfig, bind, ask, ret. simpl.
    rewrite Heq. simpl. auto.
Qed.

(** ** Computations that only read *)

(** [m] returns a value and leaves the state as it is. *)
Definition reads {A} (m : M A) : Prop :=
  forall env s, exists a, m env s = (Fulfilled a, s).

Lemma reads_ret {A} (a : A) : reads (ret a).
Proof. intros env s. now exists a. Qed.

Lemma reads_ask : reads ask.
Proof. intros env s. now exists env. Qed.

Lemma reads_get : reads get.
Proof. intros env s. now exists s. Qed.

Lemma reads_bind {A B} (m : M A) (k : A -> M B) :
  reads m -> (forall a, reads (k a)) -> reads (bind m k).
Proof.
  intros Hm Hk env s. rewrite run_bind. destruct (Hm env s) as [a ->]. apply Hk.
Qed.

Ltac reads_tac :=
  repeat first
    [ progress intros
    | progress cbv beta zeta
    | apply reads_bind
    | apply reads_ret
    | apply reads_ask
    | apply reads_get
    | assumption
    | match goal with
      | |- reads (match ?x with _ => _ end) => destruct x
      end ].

Lemma reads_getPlatform : reads PlatformUtils.getPlatform.
Proof. unfold PlatformUtils.getPlatform. reads_tac. Qed.

Lemma reads_pathJoin (parts : list string) : reads (PlatformUtils.pathJoin parts).
Proof. unfold PlatformUtils.pathJoin. reads_tac. Qed.

Lemma reads_getBinariesDirectory : reads PlatformUtils.getBinariesDirectory.
Proof. unfold PlatformUtils.getBinariesDirectory. reads_tac. Qed.

Lemma reads_getOrdPath : reads PlatformUtils.getOrdPath.
Proof.
  unfold PlatformUtils.getOrdPath. reads_tac.
Qed.

Lemma reads_getBitcoindPath : reads PlatformUtils.getBitcoindPath.
Proof.
  unfold PlatformUtils.getBitcoindPath. reads_tac.
Qed.

Lemma reads_getDefaultDataDirectory : reads PlatformUtils.getDefaultDataDirectory.
Proof.
  unfold PlatformUtils.getDefaultDataDirectory. reads_tac.
Qed.

Lemma reads_getOrdDataDirectory : reads PlatformUtils.getOrdDataDirectory.
Proof.
  unfold PlatformUtils.getOrdDataDirectory. reads_tac.
Qed.

Lemma reads_getConfig : reads Config.getConfig.
Proof. unfold Config.getConfig. reads_tac. Qed.

Lemma reads_getRpcPort (net : Network) : reads (Config.getRpcPort net).
Proof. unfold Config.getRpcPort. reads_tac. Qed.

Lemma reads_getCurrentWallet : reads WalletState.getCurrentWallet.
Proof. unfold WalletState.getCurrentWallet. reads_tac. Qed.

Lemma reads_getCookieFilePath (net : Network) : reads (Ord.getCookieFilePath net).
Proof.
  unfold Ord.getCookieFilePath. reads_tac.
Qed.

Lemma reads_rpc_getCookieFilePath (net : Network) : reads (Rpc.getCookieFilePath net).
Proof.
  unfold Rpc.getCookieFilePath. reads_tac.
Qed.

Lemma reads_getNetworkDir (dataDir : string) (net : Network) :
  reads (Ord.getNetworkDir dataDir net).
Proof. unfold Ord.getNetworkDir. reads_tac. Qed.

Lemma reads_existsSync (path : string) : reads (existsSync path).
Proof. unfold existsSync. reads_tac. Qed.

Lemma reads_walletCommand (walletName : option string) (rest : list string) :
  reads (Ord.walletCommand walletName rest).
Proof.
  unfold Ord.walletCommand. reads_tac.
Qed.

Lemma reads_isOrdRunning : reads Ord.isOrdRunning.
Proof. unfold Ord.isOrdRunning. reads_tac. Qed.

Lemma reads_isBitcoindRunning : reads BitcoindService.isBitcoindRunning.
Proof. unfold BitcoindService.isBitcoindRunning. reads_tac. Qed.

Lemma reads_Date_now : reads Date_now.
Proof. unfold Date_now. reads_tac. Qed.

Lemma reads_ensureBinariesInstalled : reads Download.ensureBinariesInstalled.
Proof. unfold Download.ensureBinariesInstalled. reads_tac. Qed.

Lemma reads_findSuggestion (errorMessage : string) : reads (ErrorHelper.findSuggestion errorMessage).
Proof. unfold ErrorHelper.findSuggestion. reads_tac. Qed.

Lemma reads_run {A} (m : M A) (env : Env) (s : State) :
  reads m -> m env s = ((m env s).1, s) /\ exists a, (m env s).1 = Fulfilled a.
Proof. intros H. destruct (H env s) as [a ->]. eauto. Qed.

Lemma exec_result (env : Env) (s : State) (command : string) :
  (exec command env s).1 = Fulfilled (exec_answer env (clock s) command).
Proof.
  unfold exec, bind, emit, modify, ask, ret. simpl.
  pose proof (suspend_result env (set_trace (fun t => t ++ [Exec command]) s)) as H.
  destruct (suspend env _) as [r s']. simpl in H. subst r. reflexivity.
Qed.

(** ** Mining is for regtest only *)

(** C7. On every network other than regtest [mineBlocks] resolves after one
    effect, the warning that names the network: it looks up no address and
    issues no RPC request.  So a run of [mineBlocks] that issues an RPC
    request or runs the ord binary is a run on regtest. *)
Theorem mineBlocks_regtest_only (env : Env) (s : State) (depth : nat) :
  (network (configuration env) <> regtest ->
   Wallet.mineBlocks depth env s =
     (Fulfilled tt,
      set_trace (fun t => t ++
        [ShowWarningMessage
           ("Mining is only available in regtest mode (current: "
            +:+ networkName (network (configuration env)) +:+ ").") []]) s)) /\
  (forall e, In e (trace (Wallet.mineBlocks depth env s).2) -> ~ In e (trace s) ->
     (exists port method params wallet, e = RpcRequest port method params wallet) \/
     (exists command, e = Exec command) ->
     network (configuration env) = regtest).
Proof.
  assert (Hoff : network (configuration env) <> regtest ->
   Wallet.mineBlocks depth env s =
     (Fulfilled tt,
      set_trace (fun t => t ++
        [ShowWarningMessage
           ("Mining is only available in regtest mode (current: "
            +:+ networkName (network (configuration env)) +:+ ").") []]) s)).
  { intros Hnet. unfold Wallet.mineBlocks, Config.getConfig, bind, ask, ret. simpl.
    destruct (network (configuration env)); [contradiction | reflexivity ..]. }
  split; [exact Hoff|].
  intros e Hin Hnew Hkind.
  destruct (network (configuration env)) eqn:Hnet; [reflexivity | exfalso ..].
  all: rewrite Hoff in Hin by discriminate; simpl in Hin;
    apply in_app_or in Hin as [Hin|[<-|[]]]; [contradiction|];
    destruct Hkind as [(? & ? & ? & ? & ?)|(? & ?)]; discriminate.
Qed.

(** ** Creating a wallet twice *)

Lemma run_bind_reads {A B} (m : M A) (k : A -> M B) (env : Env) (s : State) (a : A) :
  reads m -> (m env s).1 = Fulfilled a -> bind m k env s = k a env s.
Proof.
  intros Hm Ha. rewrite run_bind. destruct (Hm env s) as [a' Ha'].
  rewrite Ha' in Ha |- *. simpl in Ha. now injection Ha as ->.
Qed.

Lemma log_run (message : string) (env : Env) (s : State) :
  Ord.log message env s =
  (Fulfilled tt, set_trace (fun t => t ++ [AppendLine INFO ("[ord] " +:+ message)]) s).
Proof. reflexivity. Qed.

(** C9. When the run of [ord wallet create] comes back with an error and its
    stderr or its stdout contains "already exists", [createOrdWallet]
    resolves.  When it comes back with an error, neither output contains
    "already exists" and no recovery applies (the stderr is no version
    mismatch, or the retry is spent), [createOrdWallet] rejects with an error
    whose message ends in the raw stderr. *)
Theorem createOrdWallet_idempotent (env : Env) (s : State) (depth : nat)
    (walletName : option string) (retryAfterClear : bool)
    (command : string) (args : list string) (wallet : string) (config : OrdConfig)
    (message : string) :
  (Ord.walletCommand walletName ["create"] env s).1 = Fulfilled (command, args, wallet, config) ->
  let o := exec_answer env (clock s) command in
  exec_error o = Some message ->
  let settled := (Ord.createOrdWallet (S depth) walletName retryAfterClear env s).1 in
  (contains (exec_stderr o) "already exists" \/ contains (exec_stdout o) "already exists" ->
   settled = Fulfilled tt) /\
  (~ contains (exec_stderr o) "already exists" ->
   ~ contains (exec_stdout o) "already exists" ->
   Ord.isVersionMismatchError (exec_stderr o) && retryAfterClear = false ->
   settled = Rejected ("Failed to create wallet: " +:+ JS.orElse (exec_stderr o) message) /\
   exists before,
     "Failed to create wallet: " +:+ JS.orElse (exec_stderr o) message
     = before +:+ exec_stderr o).
Proof.
  intros Hcmd o Herr settled. subst settled.
  simpl Ord.createOrdWallet. unfold Ord.createOrdWallet_body.
  rewrite (run_bind_reads _ _ env s _ (reads_walletCommand _ _) Hcmd).
  cbv beta iota. rewrite run_bind, log_run.
  rewrite run_bind.
  pose proof (exec_result env
    (set_trace (fun t => t ++ [AppendLine INFO ("[ord] " +:+ ("Creating ord wallet " +:+ Ord.quoted wallet +:+ "..."))]) s) command) as Hexec.
  destruct (exec command env _) as [r s1]. simpl in Hexec. subst r.
  change (exec_answer env (clock s) command) with o. rewrite Herr.
  split.
  - intros Hex.
    assert (E : JS.includes (exec_stderr o) "already exists"
                || JS.includes (exec_stdout o) "already exists" = true).
    { apply orb_true_iff. rewrite !includes_contains. exact Hex. }
    rewrite E. reflexivity.
  - intros H1 H2 Hno.
    assert (E : JS.includes (exec_stderr o) "already exists"
                || JS.includes (exec_stdout o) "already exists" = false).
    { apply orb_false_iff. split; apply not_true_is_false; rewrite includes_contains; assumption. }
    rewrite E, Hno. split; [reflexivity|].
    destruct (exec_stderr o) as [|c rest] eqn:Hs.
    + exists ("Failed to create wallet: " +:+ message). simpl. now rewrite append_nil_r.
    + exists "Failed to create wallet: ". reflexivity.
Qed.

(** ** What a computation adds to the effects

    Effects are sorted into kinds; [quiet allowed m] says that [m] only ever
    appends effects of the allowed kinds, however it ends. *)

Inductive Kind :=
| KOrdinary
| KSpawn
| KRpc (method : string)
| KStart
| KClear
| KInscribe.

Definition kind (e : Effect) : Kind :=
  match e with
  | Spawn _ _ _ => KSpawn
  | RpcRequest _ method _ _ => KRpc method
  | RpcAnswered method _ => KRpc method
  | EnterStartOrdServer _ => KStart
  | EnterClearAllOrdData _ => KClear
  | EnterInscribeFile _ => KInscribe
  | _ => KOrdinary
  end.

Definition extends (allowed : Kind -> Prop) (s s' : State) : Prop :=
  exists added, trace s' = trace s ++ added /\ Forall (fun e => allowed (kind e)) added.

Definition quiet {A} (allowed : Kind -> Prop) (m : M A) : Prop :=
  forall env s, extends allowed s (m env s).2.

Lemma extends_refl (allowed : Kind -> Prop) (s : State) : extends allowed s s.
Proof. exists []. split; [now rewrite app_nil_r | constructor]. Qed.

Lemma extends_trans (allowed : Kind -> Prop) (s1 s2 s3 : State) :
  extends allowed s1 s2 -> extends allowed s2 s3 -> extends allowed s1 s3.
Proof.
  intros (d1 & H1 & F1) (d2 & H2 & F2). exists (d1 ++ d2). split.
  - now rewrite H2, H1, app_assoc.
  - apply Forall_app; auto.
Qed.

Lemma extends_same_trace (allowed : Kind -> Prop) (s s' : State) :
  trace s' = trace s -> extends allowed s s'.
Proof. intros H. exists []. split; [now rewrite app_nil_r | constructor]. Qed.

Lemma extends_weaken (allowed allowed' : Kind -> Prop) (s s' : State) :
  (forall k, allowed k -> allowed' k) -> extends allowed s s' -> extends allowed' s s'.
Proof.
  intros Hsub (d & H & F). exists d. split; [exact H|].
  eapply Forall_impl; [exact F|]. intros e. apply Hsub.
Qed.

Section Quiet.

Variable allowed : Kind -> Prop.

Lemma quiet_ret {A} (a : A) : quiet allowed (ret a).
Proof. intros env s. apply extends_refl. Qed.

Lemma quiet_throw {A} (message : string) : quiet allowed (@throw A message).
Proof. intros env s. apply extends_refl. Qed.

Lemma quiet_pending {A} : quiet allowed (@pending A).
Proof. intros env s. apply extends_refl. Qed.

Lemma quiet_liftAnswer {A} (a : Answer A) : quiet allowed (liftAnswer a).
Proof. intros env s. apply extends_refl. Qed.

Lemma quiet_reads {A} (m : M A) : reads m -> quiet allowed m.
Proof. intros H env s. destruct (H env s) as [a ->]. apply extends_refl. Qed.

Lemma quiet_modify (f : State -> State) :
  (forall s, trace (f s) = trace s) -> quiet allowed (modify f).
Proof. intros H env s. apply extends_same_trace, H. Qed.

Lemma quiet_emit (e : Effect) : allowed (kind e) -> quiet allowed (emit e).
Proof.
  intros H env s. exists [e]. split; [reflexivity|]. constructor; [exact H | constructor].
Qed.

Lemma quiet_bind {A B} (m : M A) (k : A -> M B) :
  quiet allowed m -> (forall a, quiet allowed (k a)) -> quiet allowed (bind m k).
Proof.
  intros Hm Hk env s. rewrite run_bind. specialize (Hm env s).
  destruct (m env s) as [[a| |] s1]; simpl in *; [|exact Hm ..].
  eapply extends_trans; [exact Hm | apply Hk].
Qed.

Lemma quiet_tryCatch {A} (m : M A) (handler : string -> M A) :
  quiet allowed m -> (forall e, quiet allowed (handler e)) -> quiet allowed (tryCatch m handler).
Proof.
  intros Hm Hh env s. unfold tryCatch. specialize (Hm env s).
  destruct (m env s) as [[a|e|] s1]; simpl in *; [exact Hm | | exact Hm].
  eapply extends_trans; [exact Hm | apply Hh].
Qed.

Lemma quiet_when (b : bool) (m : M unit) : quiet allowed m -> quiet allowed (when b m).
Proof. destruct b; [auto | intros _; apply quiet_ret]. Qed.

Lemma quiet_forEach {A} (l : list A) (f : A -> M unit) :
  (forall x, quiet allowed (f x)) -> quiet allowed (forEach l f).
Proof.
  intros Hf. induction l as [|x l IH]; simpl.
  - apply quiet_ret.
  - apply quiet_bind; auto.
Qed.

End Quiet.

Create HintDb quiet.

(** The setters other than [set_trace] leave the effects alone. *)
Ltac same_trace := intros; try match goal with s : State |- _ => destruct s end; reflexivity.

Ltac quiet_tac :=
  repeat first
    [ progress intros
    | progress cbv beta zeta
    | solve [eauto 2 with quiet nocore]
    | apply quiet_ret
    | apply quiet_throw
    | apply quiet_pending
    | apply quiet_liftAnswer
    | apply quiet_emit; simpl; solve [auto with quiet]
    | apply quiet_modify; solve [same_trace]
    | apply quiet_bind
    | apply quiet_tryCatch
    | apply quiet_when
    | apply quiet_forEach
    | match goal with
      | |- quiet _ (match ?x with _ => _ end) => destruct x
      end ].

Section QuietSources.

Variable allowed : Kind -> Prop.
Hypothesis ordinary : allowed KOrdinary.

#[local] Hint Resolve ordinary : quiet.
#[local] Hint Resolve reads_getPlatform reads_pathJoin reads_getOrdPath reads_getBitcoindPath
  reads_getDefaultDataDirectory reads_getOrdDataDirectory reads_getConfig reads_getRpcPort
  reads_getCurrentWallet reads_getCookieFilePath reads_rpc_getCookieFilePath
  reads_getNetworkDir reads_existsSync reads_walletCommand reads_isOrdRunning
  reads_isBitcoindRunning reads_Date_now reads_ensureBinariesInstalled reads_findSuggestion
  reads_get reads_ask : quiet.
#[local] Hint Extern 1 (quiet _ _) => apply quiet_reads : quiet.

Lemma quiet_deliver (ev : nat * ProcEvent) : quiet allowed (deliver ev).
Proof.
  unfold deliver. apply quiet_bind; [quiet_tac|]. intros s.
  destruct (spawned s !! ev.1) as [p|]; [|apply quiet_ret].
  destruct (service p), ev.2;
    unfold OrdListeners.onStdoutData, OrdListeners.onStderrData, OrdListeners.onError,
      OrdListeners.onExit, BitcoindListeners.onStdoutData, BitcoindListeners.onStderrData,
      BitcoindListeners.onError, BitcoindListeners.onExit, OrdListeners.log,
      BitcoindListeners.log, OutputChannel.log, OutputChannel.logWarn,
      OutputChannel.logError, OutputChannel.logProcessOutput;
    quiet_tac.
Qed.

Lemma quiet_suspend : quiet allowed suspend.
Proof.
  unfold suspend. apply quiet_bind; [quiet_tac|]. intros env.
  apply quiet_bind; [quiet_tac|]. intros s.
  apply quiet_bind; [apply quiet_modify; same_trace|]. intros _.
  apply quiet_bind; [|quiet_tac].
  apply quiet_forEach. apply quiet_deliver.
Qed.

#[local] Hint Resolve quiet_suspend : quiet.

Lemma quiet_sleep (ms : Z) : quiet allowed (sleep ms).
Proof. unfold sleep. quiet_tac. Qed.

Lemma quiet_exec (command : string) : quiet allowed (exec command).
Proof. unfold exec. quiet_tac. Qed.

Lemma quiet_httpGet (port : Z) (path : string) : quiet allowed (httpGet port path).
Proof. unfold httpGet. quiet_tac. Qed.

Lemma quiet_uiAnswer : quiet allowed uiAnswer.
Proof. unfold uiAnswer. quiet_tac. Qed.

#[local] Hint Resolve quiet_sleep quiet_exec quiet_httpGet quiet_uiAnswer : quiet.

Lemma quiet_showInformationMessage (message : string) (items : list string) :
  quiet allowed (showInformationMessage message items).
Proof. unfold showInformationMessage. quiet_tac. Qed.

Lemma quiet_showWarningMessage (message : string) (items : list string) :
  quiet allowed (showWarningMessage message items).
Proof. unfold showWarningMessage. quiet_tac. Qed.

Lemma quiet_showErrorMessage (message : string) (items : list string) :
  quiet allowed (showErrorMessage message items).
Proof. unfold showErrorMessage. quiet_tac. Qed.

Lemma quiet_showInputBox (prompt : string) (validateInput : string -> option string) :
  quiet allowed (showInputBox prompt validateInput).
Proof. unfold showInputBox. quiet_tac. Qed.

#[local] Hint Resolve quiet_showInformationMessage quiet_showWarningMessage
  quiet_showErrorMessage quiet_showInputBox : quiet.

Lemma quiet_log (message : string) : quiet allowed (OutputChannel.log message).
Proof. unfold OutputChannel.log. quiet_tac. Qed.

Lemma quiet_ord_log (message : string) : quiet allowed (Ord.log message).
Proof. unfold Ord.log, OrdListeners.log. apply quiet_log. Qed.

Lemma quiet_bitcoind_log (message : string) : quiet allowed (BitcoindService.log message).
Proof. unfold BitcoindService.log, BitcoindListeners.log. apply quiet_log. Qed.

Lemma quiet_logSection (title : string) : quiet allowed (OutputChannel.logSection title).
Proof. unfold OutputChannel.logSection. quiet_tac. Qed.

#[local] Hint Resolve quiet_log quiet_ord_log quiet_bitcoind_log quiet_logSection : quiet.

Lemma quiet_showErrorWithSuggestion (context errorMessage : string) :
  quiet allowed (ErrorHelper.showErrorWithSuggestion context errorMessage).
Proof.
  unfold ErrorHelper.showErrorWithSuggestion, ErrorHelper.executeCommand,
    OutputChannel.showOutput.
  quiet_tac.
Qed.

Lemma quiet_showWarningWithAction (message actionLabel command : string) :
  quiet allowed (ErrorHelper.showWarningWithAction message actionLabel command).
Proof.
  unfold ErrorHelper.showWarningWithAction, ErrorHelper.executeCommand. quiet_tac.
Qed.

#[local] Hint Resolve quiet_showErrorWithSuggestion quiet_showWarningWithAction : quiet.

Lemma quiet_clearOrdIndex (net : Network) : quiet allowed (Ord.clearOrdIndex net).
Proof. unfold Ord.clearOrdIndex, rmSync. quiet_tac. Qed.

Lemma quiet_clearOrdWallet (net : Network) : quiet allowed (Ord.clearOrdWallet net).
Proof. unfold Ord.clearOrdWallet, rmSync. quiet_tac. Qed.

Lemma quiet_isOrdServerReady (port : Z) : quiet allowed (Ord.isOrdServerReady port).
Proof. unfold Ord.isOrdServerReady. quiet_tac. Qed.

Lemma quiet_getOrdBlockCount (port : Z) : quiet allowed (Ord.getOrdBlockCount port).
Proof. unfold Ord.getOrdBlockCount. quiet_tac. Qed.

#[local] Hint Resolve quiet_clearOrdIndex quiet_clearOrdWallet quiet_isOrdServerReady
  quiet_getOrdBlockCount : quiet.

Lemma quiet_waitForOrdSync_from (budget : nat) (startTime port expectedBlocks maxWaitMs : Z) :
  quiet allowed (Ord.waitForOrdSync_from budget startTime port expectedBlocks maxWaitMs).
Proof. induction budget as [|budget IH]; simpl; quiet_tac. Qed.

#[local] Hint Resolve quiet_waitForOrdSync_from : quiet.

Lemma quiet_waitForOrdSync (budget : nat) (port expectedBlocks maxWaitMs : Z) :
  quiet allowed (Ord.waitForOrdSync budget port expectedBlocks maxWaitMs).
Proof. unfold Ord.waitForOrdSync. quiet_tac. Qed.

Lemma quiet_verifyOrdBitcoindConnection (port : Z) :
  quiet allowed (Ord.verifyOrdBitcoindConnection port).
Proof. unfold Ord.verifyOrdBitcoindConnection. quiet_tac. Qed.

Lemma quiet_killProcessOnPort (port : Z) : quiet allowed (Ord.killProcessOnPort port).
Proof. unfold Ord.killProcessOnPort. quiet_tac. Qed.

#[local] Hint Resolve quiet_waitForOrdSync quiet_verifyOrdBitcoindConnection
  quiet_killProcessOnPort : quiet.

(** *** Remote procedure calls *)

Lemma quiet_rpcCall (T : RpcType) (method : string) (params : list RpcParam)
    (wallet : option string) :
  allowed (KRpc method) -> quiet allowed (Rpc.rpcCall T method params wallet).
Proof. intros H. unfold Rpc.rpcCall, Rpc.getCookieAuth. quiet_tac. Qed.

Hypothesis plainRpc :
  forall method, method <> "generatetoaddress" -> method <> "getblockcount" ->
                 allowed (KRpc method).

Lemma quiet_getBlockchainInfo : quiet allowed Rpc.getBlockchainInfo.
Proof. unfold Rpc.getBlockchainInfo. apply (quiet_rpcCall TObject), plainRpc; discriminate. Qed.

Lemma quiet_rpc_createWallet (name : string) : quiet allowed (Rpc.createWallet name).
Proof. unfold Rpc.createWallet. apply (quiet_rpcCall TObject), plainRpc; discriminate. Qed.

Lemma quiet_loadWallet (name : string) : quiet allowed (Rpc.loadWallet name).
Proof. unfold Rpc.loadWallet. apply (quiet_rpcCall TObject), plainRpc; discriminate. Qed.

Lemma quiet_listWallets : quiet allowed Rpc.listWallets.
Proof. unfold Rpc.listWallets. apply (quiet_rpcCall TStringArray), plainRpc; discriminate. Qed.

Lemma quiet_getNewAddress (wallet : string) : quiet allowed (Rpc.getNewAddress wallet).
Proof. unfold Rpc.getNewAddress. apply (quiet_rpcCall TString), plainRpc; discriminate. Qed.

#[local] Hint Resolve quiet_getBlockchainInfo quiet_rpc_createWallet quiet_loadWallet
  quiet_listWallets quiet_getNewAddress : quiet.

Lemma quiet_isBitcoindReady : quiet allowed Rpc.isBitcoindReady.
Proof. unfold Rpc.isBitcoindReady. quiet_tac. Qed.

#[local] Hint Resolve quiet_isBitcoindReady : quiet.

Lemma quiet_checkPortInUse (port : Z) : quiet allowed (BitcoindService.checkPortInUse port).
Proof. unfold BitcoindService.checkPortInUse. quiet_tac. Qed.

Lemma quiet_awaitBitcoindReady (attempts : nat) :
  quiet allowed (BitcoindService.awaitBitcoindReady attempts).
Proof. induction attempts as [|attempts IH]; simpl; quiet_tac. Qed.

#[local] Hint Resolve quiet_checkPortInUse quiet_awaitBitcoindReady : quiet.

(** *** The wipe and the wallet commands *)

Hypothesis clears : allowed KClear.
#[local] Hint Resolve clears : quiet.

Lemma quiet_clearAllOrdData (net : Network) : quiet allowed (Ord.clearAllOrdData net).
Proof. unfold Ord.clearAllOrdData. quiet_tac. Qed.

#[local] Hint Resolve quiet_clearAllOrdData : quiet.

Lemma quiet_createOrdWallet (depth : nat) (walletName : option string) (retryAfterClear : bool) :
  quiet allowed (Ord.createOrdWallet depth walletName retryAfterClear).
Proof.
  revert walletName retryAfterClear.
  induction depth as [|depth IH]; intros walletName retryAfterClear; simpl; [quiet_tac|].
  unfold Ord.createOrdWallet_body. quiet_tac.
Qed.

#[local] Hint Resolve quiet_createOrdWallet : quiet.

Lemma quiet_getOrdReceiveAddress (depth : nat) (walletName : option string)
    (retryAfterClear : bool) :
  quiet allowed (Ord.getOrdReceiveAddress depth walletName retryAfterClear).
Proof.
  revert walletName retryAfterClear.
  induction depth as [|depth IH]; intros walletName retryAfterClear; simpl; [quiet_tac|].
  unfold Ord.getOrdReceiveAddress_body. quiet_tac.
Qed.

Lemma quiet_getOrdBalance (depth : nat) (walletName : option string) (retryAfterClear : bool) :
  quiet allowed (Ord.getOrdBalance depth walletName retryAfterClear).
Proof.
  revert walletName retryAfterClear.
  induction depth as [|depth IH]; intros walletName retryAfterClear; simpl; [quiet_tac|].
  unfold Ord.getOrdBalance_body. quiet_tac.
Qed.

#[local] Hint Resolve quiet_getOrdReceiveAddress quiet_getOrdBalance : quiet.

(** *** Starting the two services *)

Hypothesis spawns : allowed KSpawn.
#[local] Hint Resolve spawns : quiet.

Lemma quiet_spawn (svc : Service) (command : string) (args : list string) :
  quiet allowed (spawn svc command args).
Proof. unfold spawn. quiet_tac. Qed.

#[local] Hint Resolve quiet_spawn : quiet.

Lemma quiet_launchOrdServer : quiet allowed Ord.launchOrdServer.
Proof. unfold Ord.launchOrdServer, mkdirSync. quiet_tac. Qed.

Lemma quiet_awaitOrdReady (self : bool -> M unit) (retryAfterIndexClear : bool)
    (config : OrdConfig) (pid attempts : nat) :
  (forall retry, quiet allowed (self retry)) ->
  quiet allowed (Ord.awaitOrdReady self retryAfterIndexClear config pid attempts).
Proof. intros Hself. induction attempts as [|attempts IH]; simpl; quiet_tac. Qed.

Lemma quiet_startBitcoind : quiet allowed BitcoindService.startBitcoind.
Proof. unfold BitcoindService.startBitcoind, mkdirSync. quiet_tac. Qed.

#[local] Hint Resolve quiet_launchOrdServer quiet_awaitOrdReady quiet_startBitcoind : quiet.

Hypothesis starts : allowed KStart.
#[local] Hint Resolve starts : quiet.

Lemma quiet_startOrdServer (depth : nat) (retryAfterIndexClear : bool) :
  quiet allowed (Ord.startOrdServer depth retryAfterIndexClear).
Proof.
  revert retryAfterIndexClear.
  induction depth as [|depth IH]; intros retryAfterIndexClear; simpl; [quiet_tac|].
  unfold Ord.startOrdServer_body. quiet_tac.
Qed.

#[local] Hint Resolve quiet_startOrdServer : quiet.

Lemma quiet_ensureServicesRunning (depth : nat) :
  quiet allowed (Inscribe.ensureServicesRunning depth).
Proof.
  induction depth as [|depth IH]; simpl; [quiet_tac|].
  unfold Inscribe.updateStatusBar. quiet_tac.
Qed.

(** *** Funding *)

Hypothesis mining : allowed (KRpc "generatetoaddress").

Lemma quiet_generateToAddress (numBlocks : option Z) (address : string) :
  quiet allowed (Rpc.generateToAddress numBlocks address).
Proof. unfold Rpc.generateToAddress. apply (quiet_rpcCall TStringArray), mining. Qed.

#[local] Hint Resolve quiet_generateToAddress : quiet.

Lemma quiet_fundingStep (depth : nat) (config : OrdConfig) (currentWallet : string)
    (balance : Balance) :
  quiet allowed (Wallet.fundingStep depth config currentWallet balance).
Proof. unfold Wallet.fundingStep. quiet_tac. Qed.

#[local] Hint Resolve quiet_fundingStep : quiet.

Lemma quiet_ensureWalletFunded (depth : nat) : quiet allowed (Wallet.ensureWalletFunded depth).
Proof. unfold Wallet.ensureWalletFunded. quiet_tac. Qed.

End QuietSources.

(** ** Stepping through a computation

    [wp m env s Q]: the run of [m] from [s] ends in a settlement and a state
    that satisfy [Q]. *)
Definition wp {A} (m : M A) (env : Env) (s : State) (Q : Settled A -> State -> Prop) : Prop :=
  Q (m env s).1 (m env s).2.

Lemma wp_bind {A B} (m : M A) (k : A -> M B) (env : Env) (s : State)
    (Q : Settled B -> State -> Prop) :
  wp m env s (fun r s1 =>
    match r with
    | Fulfilled a => wp (k a) env s1 Q
    | Rejected e => Q (Rejected e) s1
    | Pending => Q Pending s1
    end) ->
  wp (bind m k) env s Q.
Proof. unfold wp. rewrite run_bind. now destruct (m env s) as [[a|e|] s1]. Qed.

Lemma wp_tryCatch {A} (m : M A) (handler : string -> M A) (env : Env) (s : State)
    (Q : Settled A -> State -> Prop) :
  wp m env s (fun r s1 =>
    match r with
    | Rejected e => wp (handler e) env s1 Q
    | _ => Q r s1
    end) ->
  wp (tryCatch m handler) env s Q.
Proof. unfold wp, tryCatch. now destruct (m env s) as [[a|e|] s1]. Qed.

Lemma wp_ret {A} (a : A) (env : Env) (s : State) (Q : Settled A -> State -> Prop) :
  Q (Fulfilled a) s -> wp (ret a) env s Q.
Proof. auto. Qed.

Lemma wp_throw {A} (message : string) (env : Env) (s : State) (Q : Settled A -> State -> Prop) :
  Q (Rejected message) s -> wp (throw message) env s Q.
Proof. auto. Qed.

Lemma wp_modify (f : State -> State) (env : Env) (s : State) (Q : Settled unit -> State -> Prop) :
  Q (Fulfilled tt) (f s) -> wp (modify f) env s Q.
Proof. auto. Qed.

Lemma wp_emit (e : Effect) (env : Env) (s : State) (Q : Settled unit -> State -> Prop) :
  Q (Fulfilled tt) (set_trace (fun t => t ++ [e]) s) -> wp (emit e) env s Q.
Proof. auto. Qed.

Lemma wp_get (env : Env) (s : State) (Q : Settled State -> State -> Prop) :
  Q (Fulfilled s) s -> wp get env s Q.
Proof. auto. Qed.

Lemma wp_ask (env : Env) (s : State) (Q : Settled Env -> State -> Prop) :
  Q (Fulfilled env) s -> wp ask env s Q.
Proof. auto. Qed.

Lemma wp_reads {A} (m : M A) (env : Env) (s : State) (Q : Settled A -> State -> Prop) :
  reads m -> (forall a, (m env s).1 = Fulfilled a -> Q (Fulfilled a) s) -> wp m env s Q.
Proof. intros Hm HQ. unfold wp. destruct (Hm env s) as [a E]. rewrite E in *. now apply HQ. Qed.

Lemma wp_wand {A} (m : M A) (env : Env) (s : State) (Q Q' : Settled A -> State -> Prop) :
  wp m env s Q -> (forall r s1, Q r s1 -> Q' r s1) -> wp m env s Q'.
Proof. unfold wp. auto. Qed.

(** What is known about the run of [m] is handed to the continuation. *)
Lemma wp_run {A} (m : M A) (env : Env) (s : State) (Q : Settled A -> State -> Prop) :
  (forall r s1, m env s = (r, s1) -> Q r s1) -> wp m env s Q.
Proof. intros H. unfold wp. apply H. now destruct (m env s). Qed.

Lemma wp_log (message : string) (env : Env) (s : State) (Q : Settled unit -> State -> Prop) :
  Q (Fulfilled tt) (set_trace (fun t => t ++ [AppendLine INFO message]) s) ->
  wp (OutputChannel.log message) env s Q.
Proof. auto. Qed.

(** ** Computations that settle

    [settles m]: the promise of [m] is fulfilled or rejected, whatever the
    environment; no recursion budget runs out. *)
Definition settles {A} (m : M A) : Prop :=
  forall env s, (m env s).1 <> Pending.

Lemma settles_ret {A} (a : A) : settles (ret a).
Proof. intros env s. discriminate. Qed.

Lemma settles_throw {A} (message : string) : settles (@throw A message).
Proof. intros env s. discriminate. Qed.

Lemma settles_liftAnswer {A} (a : Answer A) : settles (liftAnswer a).
Proof. intros env s. now destruct a. Qed.

Lemma settles_reads {A} (m : M A) : reads m -> settles m.
Proof. intros H env s. destruct (H env s) as [a ->]. discriminate. Qed.

Lemma settles_modify (f : State -> State) : settles (modify f).
Proof. intros env s. discriminate. Qed.

Lemma settles_emit (e : Effect) : settles (emit e).
Proof. intros env s. discriminate. Qed.

Lemma settles_bind {A B} (m : M A) (k : A -> M B) :
  settles m -> (forall a, settles (k a)) -> settles (bind m k).
Proof.
  intros Hm Hk env s. rewrite run_bind. specialize (Hm env s).
  destruct (m env s) as [[a|e|] s1]; simpl in *; [apply Hk | discriminate | contradiction].
Qed.

Lemma settles_tryCatch {A} (m : M A) (handler : string -> M A) :
  settles m -> (forall e, settles (handler e)) -> settles (tryCatch m handler).
Proof.
  intros Hm Hh env s. unfold tryCatch. specialize (Hm env s).
  destruct (m env s) as [[a|e|] s1]; simpl in *; [discriminate | apply Hh | contradiction].
Qed.

Lemma settles_when (b : bool) (m : M unit) : settles m -> settles (when b m).
Proof. destruct b; [auto | intros _; apply settles_ret]. Qed.

Lemma settles_forEach {A} (l : list A) (f : A -> M unit) :
  (forall x, settles (f x)) -> settles (forEach l f).
Proof.
  intros Hf. induction l as [|x l IH]; simpl.
  - apply settles_ret.
  - apply settles_bind; auto.
Qed.

Create HintDb settles.

#[local] Hint Resolve reads_getPlatform reads_pathJoin reads_getOrdPath reads_getBitcoindPath
  reads_getDefaultDataDirectory reads_getOrdDataDirectory reads_getConfig reads_getRpcPort
  reads_getCurrentWallet reads_getCookieFilePath reads_rpc_getCookieFilePath
  reads_getNetworkDir reads_existsSync reads_walletCommand reads_isOrdRunning
  reads_isBitcoindRunning reads_Date_now reads_ensureBinariesInstalled reads_findSuggestion
  reads_get reads_ask : settles.
#[local] Hint Extern 1 (settles _) => apply settles_reads : settles.

Ltac settles_tac :=
  repeat first
    [ progress intros
    | progress cbv beta zeta
    | solve [eauto 2 with settles nocore]
    | apply settles_ret
    | apply settles_throw
    | apply settles_liftAnswer
    | apply settles_emit
    | apply settles_modify
    | apply settles_bind
    | apply settles_tryCatch
    | apply settles_when
    | apply settles_forEach
    | match goal with
      | |- settles (match ?x with _ => _ end) => destruct x
      end ].

Lemma settles_deliver (ev : nat * ProcEvent) : settles (deliver ev).
Proof.
  intros env s. destruct (succeeds_deliver ev env s) as [a H]. rewrite H. discriminate.
Qed.

Lemma settles_suspend : settles suspend.
Proof. intros env s. rewrite suspend_result. discriminate. Qed.

#[local] Hint Resolve settles_deliver settles_suspend : settles.

Lemma settles_sleep (ms : Z) : settles (sleep ms).
Proof. unfold sleep. settles_tac. Qed.

Lemma settles_exec (command : string) : settles (exec command).
Proof. unfold exec. settles_tac. Qed.

Lemma settles_httpGet (port : Z) (path : string) : settles (httpGet port path).
Proof. unfold httpGet. settles_tac. Qed.

Lemma settles_uiAnswer : settles uiAnswer.
Proof. unfold uiAnswer. settles_tac. Qed.

#[local] Hint Resolve settles_sleep settles_exec settles_httpGet settles_uiAnswer : settles.

Lemma settles_showErrorMessage (message : string) (items : list string) :
  settles (showErrorMessage message items).
Proof. unfold showErrorMessage. settles_tac. Qed.

Lemma settles_showWarningMessage (message : string) (items : list string) :
  settles (showWarningMessage message items).
Proof. unfold showWarningMessage. settles_tac. Qed.

Lemma settles_log (message : string) : settles (OutputChannel.log message).
Proof. unfold OutputChannel.log. settles_tac. Qed.

Lemma settles_ord_log (message : string) : settles (Ord.log message).
Proof. unfold Ord.log, OrdListeners.log. apply settles_log. Qed.

Lemma settles_bitcoind_log (message : string) : settles (BitcoindService.log message).
Proof. unfold BitcoindService.log, BitcoindListeners.log. apply settles_log. Qed.

#[local] Hint Resolve settles_showErrorMessage settles_showWarningMessage settles_log
  settles_ord_log settles_bitcoind_log : settles.

Lemma settles_showErrorWithSuggestion (context errorMessage : string) :
  settles (ErrorHelper.showErrorWithSuggestion context errorMessage).
Proof.
  unfold ErrorHelper.showErrorWithSuggestion, ErrorHelper.executeCommand,
    OutputChannel.showOutput.
  settles_tac.
Qed.

Lemma settles_rpcCall (T : RpcType) (method : string) (params : list RpcParam)
    (wallet : option string) :
  settles (Rpc.rpcCall T method params wallet).
Proof. unfold Rpc.rpcCall, Rpc.getCookieAuth. settles_tac. Qed.

#[local] Hint Resolve settles_showErrorWithSuggestion settles_rpcCall : settles.

Lemma settles_isBitcoindReady : settles Rpc.isBitcoindReady.
Proof. unfold Rpc.isBitcoindReady, Rpc.getBlockchainInfo. settles_tac. Qed.

Lemma settles_clearAllOrdData (net : Network) : settles (Ord.clearAllOrdData net).
Proof.
  unfold Ord.clearAllOrdData, Ord.clearOrdIndex, Ord.clearOrdWallet, rmSync. settles_tac.
Qed.

Lemma settles_isOrdServerReady (port : Z) : settles (Ord.isOrdServerReady port).
Proof. unfold Ord.isOrdServerReady. settles_tac. Qed.

Lemma settles_getOrdBlockCount (port : Z) : settles (Ord.getOrdBlockCount port).
Proof. unfold Ord.getOrdBlockCount. settles_tac. Qed.

Lemma settles_killProcessOnPort (port : Z) : settles (Ord.killProcessOnPort port).
Proof. unfold Ord.killProcessOnPort. settles_tac. Qed.

Lemma settles_spawn (svc : Service) (command : string) (args : list string) :
  settles (spawn svc command args).
Proof. unfold spawn. settles_tac. Qed.

#[local] Hint Resolve settles_isBitcoindReady settles_clearAllOrdData settles_isOrdServerReady
  settles_getOrdBlockCount settles_killProcessOnPort settles_spawn : settles.

Lemma settles_launchOrdServer : settles Ord.launchOrdServer.
Proof. unfold Ord.launchOrdServer, mkdirSync, OutputChannel.logSection. settles_tac. Qed.

Lemma settles_awaitOrdReady (self : bool -> M unit) (retryAfterIndexClear : bool)
    (config : OrdConfig) (pid attempts : nat) :
  settles (self false) ->
  settles (Ord.awaitOrdReady self retryAfterIndexClear config pid attempts).
Proof. intros Hself. induction attempts as [|attempts IH]; simpl; settles_tac. Qed.

#[local] Hint Resolve settles_launchOrdServer settles_awaitOrdReady : settles.

(** ** The port pre-check of the node service *)

(** Every kind of effect but a spawn. *)
Definition noSpawn (k : Kind) : Prop := k <> KSpawn.

Definition netstatQuery (port : Z) : string :=
  "netstat -ano | findstr :" +:+ JS.toString port +:+ " | findstr LISTENING".

(** The listing of [netstat] shows a listener. *)
Definition showsListener (listing : ExecOutcome) : Prop :=
  exec_error listing = None /\ JS.trim (exec_stdout listing) <> EmptyString.

Lemma getPlatform_windows (env : Env) (s : State) :
  process_platform env = "win32" -> (PlatformUtils.getPlatform env s).1 = Fulfilled windows.
Proof. intros H. unfold PlatformUtils.getPlatform, bind, ask, ret. simpl. now rewrite H. Qed.

Lemma getPlatform_elsewhere (env : Env) (s : State) :
  process_platform env <> "win32" ->
  exists platform, (PlatformUtils.getPlatform env s).1 = Fulfilled platform /\
                   Platform_eqb platform windows = false.
Proof.
  intros H. unfold PlatformUtils.getPlatform, bind, ask, ret. simpl.
  destruct (String.eqb_spec (process_platform env) "win32") as [E|_]; [contradiction|].
  destruct (process_platform env =? "darwin")%string; eauto.
Qed.

Lemma wp_fst {A} (m : M A) (env : Env) (s : State) (v : Settled A) :
  wp m env s (fun r _ => r = v) -> (m env s).1 = v.
Proof. auto. Qed.

Lemma exec_run (env : Env) (s s1 : State) (command : string) (r : Settled ExecOutcome) :
  exec command env s = (r, s1) -> r = Fulfilled (exec_answer env (clock s) command).
Proof. intros H. rewrite <- exec_result, H. reflexivity. Qed.

Lemma checkPortInUse_windows (env : Env) (s : State) (port : Z) :
  process_platform env = "win32" ->
  showsListener (exec_answer env (clock s) (netstatQuery port)) ->
  (BitcoindService.checkPortInUse port env s).1 = Fulfilled true.
Proof.
  intros Hwin [Herr Hout]. unfold BitcoindService.checkPortInUse.
  apply wp_fst, wp_bind, wp_reads; [apply reads_getPlatform|]. intros platform Hp.
  rewrite getPlatform_windows in Hp by exact Hwin. injection Hp as <-. cbv beta iota delta [negb].
  apply wp_bind, wp_run. intros r s1 Hrun.
  apply exec_run in Hrun. subst r. fold (netstatQuery port).
  rewrite Herr. simpl. apply String.eqb_neq in Hout. now rewrite Hout.
Qed.

Lemma checkPortInUse_elsewhere (env : Env) (s : State) (port : Z) :
  process_platform env <> "win32" ->
  BitcoindService.checkPortInUse port env s = (Fulfilled false, s).
Proof.
  intros Hother. unfold BitcoindService.checkPortInUse.
  destruct (getPlatform_elsewhere env s Hother) as (platform & Hp & Hne).
  rewrite (run_bind_reads _ _ env s platform reads_getPlatform Hp). now rewrite Hne.
Qed.

Lemma isBitcoindReady_result (env : Env) (s : State) :
  exists ready, (Rpc.isBitcoindReady env s).1 = Fulfilled ready.
Proof.
  pose proof (settles_isBitcoindReady env s) as Hs.
  unfold Rpc.isBitcoindReady, tryCatch in *.
  destruct ((Rpc.getBlockchainInfo >> ret true) env s) as [[b|e|] s1]; simpl in *; eauto.
  contradiction.
Qed.


(** ** The claims at work on scripted environments *)

Lemma isVersionMismatchError_classifies_witness :
  Ord.isVersionMismatchError "error: Manual upgrade required" = true.
Proof.
  apply (proj1 isVersionMismatchError_classifies).
  exists "Manual upgrade required". split; [simpl; auto|].
  exists "error: ", EmptyString. reflexivity.
Defined.

Definition indexerAt150 : Env :=
  Demo.env "linux" (Demo.config regtest) Demo.noEvents (fun _ _ => Demo.done EmptyString)
    (fun _ => HttpResponse 200 "150") true Demo.noUser.



Definition customPort : Env :=
  Demo.env "linux" (Demo.configWithPort mainnet 9999) Demo.noEvents
    (fun _ _ => Demo.done EmptyString) Demo.refused true Demo.noUser.

Lemma getRpcPort_custom_port_wins_witness :
  Config.getRpcPort mainnet customPort Demo.idle = (Fulfilled 9999, Demo.idle) /\
  Config.getRpcPort mainnet indexerAt150 Demo.idle = (Fulfilled 8332, Demo.idle).
Proof.
  split.
  - apply (proj1 (getRpcPort_custom_port_wins customPort Demo.idle)). discriminate.
  - apply (proj2 (getRpcPort_custom_port_wins indexerAt150 Demo.idle)). reflexivity.
Defined.

Definition onMainnet : Env :=
  Demo.env "linux" (Demo.config mainnet) Demo.noEvents
    (fun _ _ => Demo.done EmptyString) Demo.refused true Demo.noUser.

Lemma mineBlocks_regtest_only_witness :
  Wallet.mineBlocks 3 onMainnet Demo.idle =
  (Fulfilled tt,
   set_trace (fun t => t ++
     [ShowWarningMessage "Mining is only available in regtest mode (current: mainnet)." []])
     Demo.idle).
Proof.
  apply (proj1 (mineBlocks_regtest_only onMainnet Demo.idle 3)). discriminate.
Defined.

Definition walletExists : Env :=
  Demo.env "linux" (Demo.config regtest) Demo.noEvents
    (fun _ _ => Demo.failed "error: wallet `ord` already exists")
    Demo.refused true Demo.noUser.

Definition createCommand : string :=
  Ord.quoted "/storage/binaries/ord/ord" +:+ " " +:+
  String.concat " " (map Ord.quoted
    ["--regtest"; "--cookie-file=/home/dev/.bitcoin/regtest/.cookie";
     "--data-dir=/home/dev/.ord"; "wallet"; "--name=ord";
     "--server-url=http://127.0.0.1:9001"; "create"]).

Lemma createOrdWallet_idempotent_witness :
  (Ord.createOrdWallet 1 None true walletExists Demo.idle).1 = Fulfilled tt.
Proof.
  refine (proj1 (createOrdWallet_idempotent walletExists Demo.idle 0 None true
                   createCommand
                   ["--regtest"; "--cookie-file=/home/dev/.bitcoin/regtest/.cookie";
                    "--data-dir=/home/dev/.ord"; "wallet"; "--name=ord";
                    "--server-url=http://127.0.0.1:9001"; "create"]
                   "ord" (Demo.config regtest)
                   "Command failed: error: wallet `ord` already exists" _ _) _).
  - reflexivity.
  - reflexivity.
  - left. exists "error: wallet `ord` ", EmptyString. reflexivity.
Defined.

(** A node that someone else started listens on port 18443 and answers. *)
Definition listing : string :=
  "  TCP    127.0.0.1:18443        0.0.0.0:0              LISTENING       4242".

Definition externalNode (platform : string) : Env :=
  Demo.env platform (Demo.config regtest) Demo.noEvents (fun _ _ => Demo.done listing)
    Demo.refused true Demo.noUser.



(** ** Recovery of the indexer: at most once *)

(** The steps of the recovery among the effects: the entries of
    [startOrdServer] and the wipes. *)
Definition isRecoveryStep (e : Effect) : bool :=
  match e with
  | EnterStartOrdServer _ | EnterClearAllOrdData _ => true
  | _ => false
  end.

Definition recoverySteps (t : list Effect) : list Effect := List.filter isRecoveryStep t.

(** Every kind of effect but the steps of the recovery. *)
Definition calm (k : Kind) : Prop := k <> KStart /\ k <> KClear.

Lemma recoverySteps_app (t1 t2 : list Effect) :
  recoverySteps (t1 ++ t2) = recoverySteps t1 ++ recoverySteps t2.
Proof. apply List.filter_app. Qed.

Lemma recoverySteps_calm (t : list Effect) :
  Forall (fun e => calm (kind e)) t -> recoverySteps t = [].
Proof.
  induction 1 as [|e t [H1 H2] _ IH]; [reflexivity|]. simpl.
  destruct e; simpl in *; try exact IH; congruence.
Qed.

(** [m] settles, and the steps of the recovery it adds satisfy [P]. *)
Definition recovering (m : M unit) (P : list Effect -> Prop) : Prop :=
  forall env s,
    (m env s).1 <> Pending /\
    exists added, trace (m env s).2 = trace s ++ added /\ P (recoverySteps added).

Lemma recovering_calm (m : M unit) :
  quiet calm m -> settles m -> recovering m (fun steps => steps = []).
Proof.
  intros Hq Hs env s. split; [apply Hs|].
  destruct (Hq env s) as (added & H & F). exists added. split; [exact H|].
  now apply recoverySteps_calm.
Qed.

Lemma recovering_weaken (m : M unit) (P P' : list Effect -> Prop) :
  recovering m P -> (forall steps, P steps -> P' steps) -> recovering m P'.
Proof.
  intros H HP env s. destruct (H env s) as (Hs & added & Ht & Hp). split; [exact Hs|].
  exists added. auto.
Qed.

(** A calm computation that settles, followed by a recovering one. *)
Lemma recovering_bind {A} (m : M A) (k : A -> M unit) (P : list Effect -> Prop) :
  quiet calm m -> settles m -> P [] -> (forall a, recovering (k a) P) ->
  recovering (bind m k) P.
Proof.
  intros Hq Hs Hnil Hk env s. rewrite run_bind.
  specialize (Hq env s). specialize (Hs env s).
  destruct (m env s) as [[a|e|] s1]; cbn [fst snd] in *.
  - destruct (Hk a env s1) as (Hs' & added' & Ht' & Hp). split; [exact Hs'|].
    destruct Hq as (added & Ht & F). exists (added ++ added'). split.
    + now rewrite Ht', Ht, app_assoc.
    + rewrite recoverySteps_app, (recoverySteps_calm _ F). exact Hp.
  - split; [discriminate|]. destruct Hq as (added & Ht & F). exists added.
    split; [exact Ht|]. now rewrite (recoverySteps_calm _ F).
  - contradiction.
Qed.

(** A step of the recovery, followed by a recovering computation. *)
Lemma recovering_step (e : Effect) (k : M unit) (P : list Effect -> Prop) :
  isRecoveryStep e = true -> recovering k P ->
  recovering (emit e >> k) (fun steps => exists rest, steps = e :: rest /\ P rest).
Proof.
  intros He Hk env s. rewrite run_bind. cbn [emit modify fst snd].
  destruct (Hk env (set_trace (fun t => t ++ [e]) s)) as (Hs & added & Ht & Hp).
  split; [exact Hs|]. exists (e :: added). split.
  - rewrite Ht. simpl. now rewrite <- app_assoc.
  - simpl. rewrite He. eauto.
Qed.

Lemma calm_ordinary : calm KOrdinary.
Proof. split; discriminate. Qed.

Lemma calm_spawn : calm KSpawn.
Proof. split; discriminate. Qed.

Lemma calm_rpc (method : string) : calm (KRpc method).
Proof. split; discriminate. Qed.

#[local] Hint Resolve calm_ordinary calm_spawn calm_rpc : quiet.
#[local] Hint Resolve quiet_sleep quiet_isOrdServerReady quiet_ord_log quiet_launchOrdServer
  quiet_clearOrdIndex quiet_clearOrdWallet : quiet.

(** With the retry spent the loop never calls [startOrdServer] again. *)
Lemma awaitOrdReady_spent (self : bool -> M unit) (config : OrdConfig) (pid attempts : nat) :
  quiet calm (Ord.awaitOrdReady self false config pid attempts) /\
  settles (Ord.awaitOrdReady self false config pid attempts).
Proof.
  induction attempts as [|attempts [IHq IHs]]; simpl.
  - split; [quiet_tac | settles_tac].
  - split.
    + apply quiet_bind; [quiet_tac|]. intros _.
      apply quiet_bind; [quiet_tac|]. intros [|]; [quiet_tac|].
      apply quiet_bind; [quiet_tac|]. intros [|]; [exact IHq|]. cbv beta iota delta [negb].
      apply quiet_bind; [quiet_tac|]. intros s. rewrite andb_false_r. quiet_tac.
    + apply settles_bind; [settles_tac|]. intros _.
      apply settles_bind; [settles_tac|]. intros [|]; [settles_tac|].
      apply settles_bind; [settles_tac|]. intros [|]; [exact IHs|]. cbv beta iota delta [negb].
      apply settles_bind; [settles_tac|]. intros s. rewrite andb_false_r. settles_tac.
Qed.

Lemma startOrdServer_spent (depth : nat) :
  recovering (Ord.startOrdServer (S depth) false)
    (fun steps => steps = [EnterStartOrdServer false]).
Proof.
  simpl. unfold Ord.startOrdServer_body.
  eapply recovering_weaken.
  - apply recovering_step; [reflexivity|].
    apply recovering_bind with (P := fun steps => steps = []);
      [quiet_tac | settles_tac | reflexivity |].
    intros [[pid config]|].
    + apply recovering_calm; apply awaitOrdReady_spent.
    + apply recovering_calm; [quiet_tac | settles_tac].
  - intros steps (rest & -> & ->). reflexivity.
Qed.

(** What the first attempt may add after its entry: nothing, or one wipe
    followed by one entry with the retry spent. *)
Definition oneRecovery (steps : list Effect) : Prop :=
  steps = [] \/ exists net, steps = [EnterClearAllOrdData net; EnterStartOrdServer false].

Lemma bind_assoc {A B C} (m : M A) (f : A -> M B) (g : B -> M C) (env : Env) (s : State) :
  bind (bind m f) g env s = bind m (fun a => bind (f a) g) env s.
Proof. rewrite !run_bind. now destruct (m env s) as [[a|e|] s1]. Qed.

Lemma recovering_ext (m m' : M unit) (P : list Effect -> Prop) :
  (forall env s, m' env s = m env s) -> recovering m P -> recovering m' P.
Proof. intros E H env s. rewrite E. apply H. Qed.

Lemma succeeds_reads {A} (m : M A) : reads m -> succeeds m.
Proof. intros H env s. destruct (H env s) as [a ->]. now exists a. Qed.

Create HintDb reads.
#[local] Hint Resolve reads_getPlatform reads_pathJoin reads_getOrdPath reads_getBitcoindPath
  reads_getDefaultDataDirectory reads_getOrdDataDirectory reads_getConfig reads_getRpcPort
  reads_getCurrentWallet reads_getCookieFilePath reads_rpc_getCookieFilePath
  reads_getNetworkDir reads_existsSync reads_walletCommand reads_isOrdRunning
  reads_isBitcoindRunning reads_Date_now reads_ensureBinariesInstalled reads_findSuggestion
  reads_get reads_ask reads_ret : reads.

Ltac succeeds_run :=
  repeat first
    [ progress intros
    | apply succeeds_reads; solve [auto with reads]
    | apply succeeds_bind
    | apply succeeds_when
    | apply succeeds_forEach
    | apply succeeds_emit
    | apply succeeds_modify ].

Lemma succeeds_clearOrdIndex (net : Network) : succeeds (Ord.clearOrdIndex net).
Proof.
  unfold Ord.clearOrdIndex, rmSync, Ord.log, OrdListeners.log, OutputChannel.log.
  succeeds_run.
Qed.

Lemma succeeds_clearOrdWallet (net : Network) : succeeds (Ord.clearOrdWallet net).
Proof.
  unfold Ord.clearOrdWallet, rmSync, Ord.log, OrdListeners.log, OutputChannel.log.
  succeeds_run.
Qed.

(** A calm computation that always returns, followed by a recovering one. *)
Lemma recovering_after {A} (m : M A) (k : A -> M unit) (P : list Effect -> Prop) :
  quiet calm m -> succeeds m -> (forall a, recovering (k a) P) -> recovering (bind m k) P.
Proof.
  intros Hq Hs Hk env s. rewrite run_bind.
  specialize (Hq env s). destruct (Hs env s) as [a Ha].
  destruct (m env s) as [r s1]; cbn [fst snd] in *. subst r.
  destruct (Hk a env s1) as (Hs' & added' & Ht' & Hp). split; [exact Hs'|].
  destruct Hq as (added & Ht & F). exists (added ++ added'). split.
  - now rewrite Ht', Ht, app_assoc.
  - rewrite recoverySteps_app, (recoverySteps_calm _ F). exact Hp.
Qed.

Lemma clearAllOrdData_then (net : Network) (k : M unit) (P : list Effect -> Prop) :
  recovering k P ->
  recovering (Ord.clearAllOrdData net >> k)
    (fun steps => exists rest, steps = EnterClearAllOrdData net :: rest /\ P rest).
Proof.
  intros Hk. unfold Ord.clearAllOrdData.
  eapply recovering_ext; [intros env s; apply bind_assoc|].
  apply recovering_step; [reflexivity|].
  eapply recovering_ext; [intros env s; apply bind_assoc|].
  apply recovering_after; [quiet_tac | apply succeeds_emit |]. intros _.
  eapply recovering_ext; [intros env s; apply bind_assoc|].
  apply recovering_after; [quiet_tac | apply succeeds_clearOrdIndex |]. intros _.
  apply recovering_after; [quiet_tac | apply succeeds_clearOrdWallet |]. intros _.
  exact Hk.
Qed.

Lemma awaitOrdReady_recovers (self : bool -> M unit) (config : OrdConfig) (pid attempts : nat) :
  recovering (self false) (fun steps => steps = [EnterStartOrdServer false]) ->
  recovering (Ord.awaitOrdReady self true config pid attempts) oneRecovery.
Proof.
  intros Hself. induction attempts as [|attempts IH]; simpl.
  - eapply recovering_weaken; [apply recovering_calm; [quiet_tac | settles_tac]|].
    intros steps ->. now left.
  - apply recovering_bind; [quiet_tac | settles_tac | now left |]. intros _.
    apply recovering_bind; [quiet_tac | settles_tac | now left |]. intros [|].
    { eapply recovering_weaken; [apply recovering_calm; [quiet_tac | settles_tac]|].
      intros steps ->. now left. }
    apply recovering_bind; [quiet_tac | settles_tac | now left |]. intros [|]; [exact IH|].
    cbv beta iota delta [negb].
    apply recovering_bind; [quiet_tac | settles_tac | now left |]. intros s.
    rewrite andb_true_r. destruct (Ord.indexVersionErrorOf s pid).
    + apply recovering_after; [quiet_tac | apply succeeds_emit |]. intros _.
      apply recovering_after; [quiet_tac | apply succeeds_emit |]. intros _.
      eapply recovering_weaken; [apply clearAllOrdData_then, Hself|].
      intros steps (rest & -> & ->). right. eauto.
    + eapply recovering_weaken; [apply recovering_calm; [quiet_tac | settles_tac]|].
      intros steps ->. now left.
Qed.

Lemma startOrdServer_fresh (depth : nat) :
  recovering (Ord.startOrdServer (S (S depth)) true)
    (fun steps => exists rest, steps = EnterStartOrdServer true :: rest /\ oneRecovery rest).
Proof.
  change (Ord.startOrdServer (S (S depth)) true)
    with (Ord.startOrdServer_body (Ord.startOrdServer (S depth)) true).
  unfold Ord.startOrdServer_body.
  apply recovering_step; [reflexivity|].
  apply recovering_bind; [quiet_tac | settles_tac | now left |].
  intros [[pid config]|].
  - apply awaitOrdReady_recovers, startOrdServer_spent.
  - eapply recovering_weaken; [apply recovering_calm; [quiet_tac | settles_tac]|].
    intros steps ->. now left.
Qed.

(** One round of the readiness loop: the pause and the probe. *)
Definition poll (port : Z) : M bool := sleep 1000 >> Ord.isOrdServerReady port.

(** The rounds from [s] find the indexer not ready and its process alive,
    until a round, among the first [polls], finds it not ready and the process
    gone; the result is the state at that moment. *)
Fixpoint diesBeforeReady (env : Env) (port : Z) (polls : nat) (s : State) : option State :=
  match polls with
  | O => None
  | S polls' =>
      match poll port env s with
      | (Fulfilled false, s1) =>
          if Ord.running (ordProcess s1) s1 then diesBeforeReady env port polls' s1
          else Some s1
      | _ => None
      end
  end.

(** The state in which [startOrdServer] has just been entered. *)
Definition entered (retryAfterIndexClear : bool) (s : State) : State :=
  set_trace (fun t => t ++ [EnterStartOrdServer retryAfterIndexClear]) s.

(** The recovery: the notice, the wipe, the second call. *)
Definition wipeAndRetry (self : bool -> M unit) (net : Network) : M unit :=
  Ord.log "Detected database version mismatch. Clearing old data and retrying..." >>
  emit (ShowInformationMessage
          "Ord database is outdated. Clearing and rebuilding (this may take a moment)..." []) >>
  Ord.clearAllOrdData net >>
  self false.

(** The rejection of a start whose process died. *)
Definition failedToStart (s : State) (pid : nat) : string :=
  "ord server failed to start" +:+
  match Ord.stderrOutputOf s pid with
  | EmptyString => EmptyString
  | out => ": " +:+ JS.substring0 200 out
  end.

Lemma awaitOrdReady_dies (self : bool -> M unit) (retry : bool) (config : OrdConfig)
    (pid attempts : nat) (env : Env) (s s2 : State) :
  diesBeforeReady env (ordServerPort config) attempts s = Some s2 ->
  Ord.awaitOrdReady self retry config pid attempts env s =
  (if Ord.indexVersionErrorOf s2 pid && retry
   then wipeAndRetry self (network config)
   else throw (failedToStart s2 pid)) env s2.
Proof.
  revert s. induction attempts as [|attempts IH]; intros s Hdies; [discriminate|].
  simpl in Hdies. cbn [Ord.awaitOrdReady].
  rewrite <- bind_assoc. fold (poll (ordServerPort config)). rewrite run_bind.
  destruct (poll (ordServerPort config) env s) as [[[|]|e|] s1]; try discriminate.
  cbv beta iota. rewrite run_bind. unfold Ord.isOrdRunning at 1.
  cbn [bind get ret]. 
  destruct (Ord.running (ordProcess s1) s1).
  - cbv beta iota delta [negb]. apply IH, Hdies.
  - injection Hdies as ->. cbv beta iota delta [negb].
    rewrite run_bind. cbn [get]. cbv beta iota. unfold wipeAndRetry, failedToStart.
    reflexivity.
Qed.

Lemma poll_calm (port : Z) : quiet calm (poll port).
Proof. unfold poll. quiet_tac. Qed.

Lemma diesBeforeReady_calm (env : Env) (port : Z) (polls : nat) (s s2 : State) :
  diesBeforeReady env port polls s = Some s2 -> extends calm s s2.
Proof.
  revert s. induction polls as [|polls IH]; intros s H; [discriminate|].
  simpl in H. pose proof (poll_calm port env s) as Hq.
  destruct (poll port env s) as [[[|]|e|] s1]; try discriminate. cbn [snd] in Hq.
  destruct (Ord.running (ordProcess s1) s1).
  - eapply extends_trans; [exact Hq | apply IH, H].
  - now injection H as <-.
Qed.

(** *** What listeners and suspensions do to the processes *)

(** From [s] to [s'] no process was added or changed service, no version
    mismatch was forgotten, and a handle that was null is still null. *)
Record evolves (s s' : State) : Prop := {
  evolves_length : length (spawned s') = length (spawned s);
  evolves_process : forall pid p, spawned s !! pid = Some p ->
    exists p', spawned s' !! pid = Some p' /\ service p' = service p /\
               (indexVersionError p = true -> indexVersionError p' = true);
  evolves_handle : ordProcess s = None -> ordProcess s' = None
}.

Lemma evolves_refl (s : State) : evolves s s.
Proof. split; eauto. Qed.

Lemma evolves_trans (s1 s2 s3 : State) : evolves s1 s2 -> evolves s2 s3 -> evolves s1 s3.
Proof.
  intros [L1 P1 H1] [L2 P2 H2]. split.
  - congruence.
  - intros pid p Hp. destruct (P1 pid p Hp) as (p' & Hp' & S1 & F1).
    destruct (P2 pid p' Hp') as (p'' & Hp'' & S2 & F2).
    exists p''. repeat split; [exact Hp'' | congruence | auto].
  - auto.
Qed.

Lemma evolves_same (s s' : State) :
  spawned s' = spawned s -> ordProcess s' = ordProcess s -> evolves s s'.
Proof. intros Hs Ho. split; rewrite ?Hs, ?Ho; eauto. Qed.

Lemma evolves_alter (f : Spawned -> Spawned) (pid : nat) (s : State) :
  (forall p, service (f p) = service p) ->
  (forall p, indexVersionError p = true -> indexVersionError (f p) = true) ->
  evolves s (set_spawned (alter f pid) s).
Proof.
  intros Hsvc Hflag. split; simpl.
  - apply length_alter.
  - intros q p Hp. destruct (decide (pid = q)) as [->|Hne].
    + exists (f p). rewrite list_lookup_alter_eq, Hp. simpl. auto.
    + exists p. rewrite list_lookup_alter_ne by exact Hne. auto.
  - auto.
Qed.

Lemma evolves_null (s : State) : evolves s (set_ordProcess None s).
Proof. split; simpl; eauto. Qed.

(** [m] lets the processes evolve. *)
Definition steady {A} (m : M A) : Prop := forall env s, evolves s (m env s).2.

Lemma steady_ret {A} (a : A) : steady (ret a).
Proof. intros env s. apply evolves_refl. Qed.

Lemma steady_throw {A} (message : string) : steady (@throw A message).
Proof. intros env s. apply evolves_refl. Qed.

Lemma steady_reads {A} (m : M A) : reads m -> steady m.
Proof. intros H env s. destruct (H env s) as [a ->]. apply evolves_refl. Qed.

Lemma steady_modify (f : State -> State) : (forall s, evolves s (f s)) -> steady (modify f).
Proof. intros H env s. apply H. Qed.

Lemma steady_emit (e : Effect) : steady (emit e).
Proof. intros env s. now apply evolves_same. Qed.

Lemma steady_bind {A B} (m : M A) (k : A -> M B) :
  steady m -> (forall a, steady (k a)) -> steady (bind m k).
Proof.
  intros Hm Hk env s. rewrite run_bind. specialize (Hm env s).
  destruct (m env s) as [[a|e|] s1]; cbn [snd] in *; [|exact Hm ..].
  eapply evolves_trans; [exact Hm | apply Hk].
Qed.

Lemma steady_when (b : bool) (m : M unit) : steady m -> steady (when b m).
Proof. destruct b; [auto | intros _; apply steady_ret]. Qed.

Lemma steady_forEach {A} (l : list A) (f : A -> M unit) :
  (forall x, steady (f x)) -> steady (forEach l f).
Proof.
  intros Hf. induction l as [|x l IH]; simpl.
  - apply steady_ret.
  - apply steady_bind; auto.
Qed.

Create HintDb steady.
#[local] Hint Extern 1 (steady _) => apply steady_reads; solve [auto with reads] : steady.

Ltac steady_tac :=
  repeat first
    [ progress intros
    | progress cbv beta zeta
    | solve [eauto 2 with steady nocore]
    | apply steady_ret
    | apply steady_throw
    | apply steady_emit
    | apply steady_modify; intros; first
        [ apply evolves_null
        | apply evolves_alter; intros; simpl; auto
        | apply evolves_same; reflexivity ]
    | apply steady_bind
    | apply steady_when
    | apply steady_forEach
    | match goal with
      | |- steady (match ?x with _ => _ end) => destruct x
      end ].

Lemma steady_deliver (ev : nat * ProcEvent) : steady (deliver ev).
Proof.
  unfold deliver. apply steady_bind; [steady_tac|]. intros s.
  destruct (spawned s !! ev.1) as [p|]; [|apply steady_ret].
  destruct (service p), ev.2;
    unfold OrdListeners.onStdoutData, OrdListeners.onStderrData, OrdListeners.onError,
      OrdListeners.onExit, BitcoindListeners.onStdoutData, BitcoindListeners.onStderrData,
      BitcoindListeners.onError, BitcoindListeners.onExit, OrdListeners.log,
      BitcoindListeners.log, OutputChannel.log, OutputChannel.logWarn,
      OutputChannel.logError, OutputChannel.logProcessOutput;
    steady_tac.
Qed.

Lemma steady_suspend : steady suspend.
Proof.
  unfold suspend. apply steady_bind; [steady_tac|]. intros env.
  apply steady_bind; [steady_tac|]. intros s.
  apply steady_bind; [apply steady_modify; intros; now apply evolves_same|]. intros _.
  apply steady_bind; [|steady_tac].
  apply steady_forEach, steady_deliver.
Qed.

#[local] Hint Resolve steady_suspend : steady.

Lemma steady_sleep (ms : Z) : steady (sleep ms).
Proof.
  unfold sleep. apply steady_bind; [steady_tac|]. intros _.
  apply steady_bind; [steady_tac|]. intros _.
  apply steady_modify. intros s. now apply evolves_same.
Qed.

Lemma steady_exec (command : string) : steady (exec command).
Proof. unfold exec. steady_tac. Qed.

Lemma steady_httpGet (port : Z) (path : string) : steady (httpGet port path).
Proof. unfold httpGet. steady_tac. Qed.

#[local] Hint Resolve steady_sleep steady_exec steady_httpGet : steady.

Lemma steady_killProcessOnPort (port : Z) : steady (Ord.killProcessOnPort port).
Proof.
  unfold Ord.killProcessOnPort, Ord.log, OrdListeners.log, OutputChannel.log. steady_tac.
Qed.

Lemma succeeds_suspend : succeeds suspend.
Proof. intros env s. exists (clock s). apply suspend_result. Qed.

Lemma succeeds_sleep (ms : Z) : succeeds (sleep ms).
Proof.
  unfold sleep. apply succeeds_bind; [apply succeeds_emit|]. intros _.
  apply succeeds_bind; [apply succeeds_suspend|]. intros _. apply succeeds_modify.
Qed.

Lemma succeeds_exec (command : string) : succeeds (exec command).
Proof. intros env s. eexists. apply exec_result. Qed.

Lemma succeeds_killProcessOnPort (port : Z) : succeeds (Ord.killProcessOnPort port).
Proof.
  unfold Ord.killProcessOnPort, Ord.log, OrdListeners.log, OutputChannel.log.
  apply succeeds_bind; [apply succeeds_reads, reads_getPlatform|]. intros platform.
  destruct (negb _); [apply succeeds_ret|].
  apply succeeds_bind; [apply succeeds_exec|]. intros o.
  destruct (_ || _); [apply succeeds_ret|].
  destruct (Netstat.pidsOf _ _); [apply succeeds_ret|].
  apply succeeds_bind; [apply succeeds_emit|]. intros _.
  apply succeeds_bind; [|intros _; apply succeeds_sleep].
  apply succeeds_forEach. intros pid.
  apply succeeds_bind; [apply succeeds_exec|]. intros k.
  apply succeeds_when, succeeds_emit.
Qed.

(** *** A process that reports a version mismatch and exits *)

(** [pid] is an indexer that was spawned. *)
Definition isIndexer (s : State) (pid : nat) : Prop :=
  exists p, spawned s !! pid = Some p /\ service p = OrdServer.

Lemma evolves_isIndexer (s s' : State) (pid : nat) :
  evolves s s' -> isIndexer s pid -> isIndexer s' pid.
Proof.
  intros He (p & Hp & Hs). destruct (evolves_process _ _ He pid p Hp) as (p' & Hp' & Hs' & _).
  exists p'. split; [exact Hp' | congruence].
Qed.

Lemma evolves_flag (s s' : State) (pid : nat) :
  evolves s s' -> Ord.indexVersionErrorOf s pid = true -> Ord.indexVersionErrorOf s' pid = true.
Proof.
  unfold Ord.indexVersionErrorOf. intros He Hf.
  destruct (spawned s !! pid) as [p|] eqn:Hp; [|discriminate].
  destruct (evolves_process _ _ He pid p Hp) as (p' & -> & _ & Hk). auto.
Qed.

Lemma deliver_mismatch (env : Env) (s : State) (pid : nat) (text : string) :
  isIndexer s pid -> Ord.isVersionMismatchError text = true ->
  Ord.indexVersionErrorOf (deliver (pid, StderrData text) env s).2 pid = true.
Proof.
  intros (p & Hp & Hsvc) Hm. unfold deliver. rewrite run_bind. cbn [get fst snd].
  rewrite Hp, Hsvc. unfold OrdListeners.onStderrData.
  unfold Ord.isVersionMismatchError in Hm. rewrite Hm.
  unfold bind, modify, OutputChannel.logProcessOutput, emit, modify, when.
  cbn [fst snd]. unfold Ord.indexVersionErrorOf. simpl.
  rewrite list_lookup_alter_eq, list_lookup_alter_eq, Hp. reflexivity.
Qed.

Lemma deliver_exit (env : Env) (s : State) (pid : nat) (code : option Z) :
  isIndexer s pid -> ordProcess (deliver (pid, ProcExit code) env s).2 = None.
Proof.
  intros (p & Hp & Hsvc). unfold deliver. rewrite run_bind. cbn [get fst snd].
  rewrite Hp, Hsvc. unfold OrdListeners.onExit.
  destruct code as [c|]; [destruct (negb (c =? 0))|]; reflexivity.
Qed.

Lemma deliver_run (ev : nat * ProcEvent) (env : Env) (s : State) :
  deliver ev env s = (Fulfilled tt, (deliver ev env s).2).
Proof.
  destruct (succeeds_deliver ev env s) as [[] H].
  destruct (deliver ev env s) as [r s1]. cbn [fst snd] in *. now subst r.
Qed.

Lemma forEach_deliver_cons (ev : nat * ProcEvent) (l : list (nat * ProcEvent))
    (env : Env) (s : State) :
  forEach (ev :: l) deliver env s = forEach l deliver env (deliver ev env s).2.
Proof. cbn [forEach]. rewrite run_bind, deliver_run. reflexivity. Qed.

Lemma forEach_deliver_mismatch (l : list (nat * ProcEvent)) (env : Env) (s : State)
    (pid : nat) (text : string) :
  In (pid, StderrData text) l -> isIndexer s pid -> Ord.isVersionMismatchError text = true ->
  Ord.indexVersionErrorOf (forEach l deliver env s).2 pid = true.
Proof.
  intros Hin Hidx Hm. revert s Hidx. induction l as [|ev l IH]; intros s Hidx; [destruct Hin|].
  rewrite forEach_deliver_cons. destruct Hin as [->|Hin].
  - eapply evolves_flag; [apply steady_forEach, steady_deliver|].
    now apply deliver_mismatch.
  - apply IH; [exact Hin|]. eapply evolves_isIndexer; [apply steady_deliver | exact Hidx].
Qed.

Lemma forEach_deliver_exit (l : list (nat * ProcEvent)) (env : Env) (s : State)
    (pid : nat) (code : option Z) :
  In (pid, ProcExit code) l -> isIndexer s pid ->
  ordProcess (forEach l deliver env s).2 = None.
Proof.
  intros Hin Hidx. revert s Hidx. induction l as [|ev l IH]; intros s Hidx; [destruct Hin|].
  rewrite forEach_deliver_cons. destruct Hin as [->|Hin].
  - eapply evolves_handle; [apply steady_forEach, steady_deliver|].
    now apply deliver_exit.
  - apply IH; [exact Hin|]. eapply evolves_isIndexer; [apply steady_deliver | exact Hidx].
Qed.

(** The synthetic indexer: whenever the extension waits, the process [pid]
    has printed a version mismatch and has exited with a status other than
    zero. *)
Definition mismatchAndExit (env : Env) (pid : nat) : Prop :=
  forall t, exists text code,
    In (pid, StderrData text) (proc_events env t) /\
    Ord.isVersionMismatchError text = true /\
    In (pid, ProcExit (Some code)) (proc_events env t) /\ code <> 0.

Definition neverReady (env : Env) : Prop :=
  forall t port path, Ord.readyOn (http_answer env t port path) = false.

Definition filesInPlace (env : Env) : Prop :=
  forall t path, fs_existsSync env t path = true.

(** The indexer [pid] is known dead and mismatched in [s]. *)
Definition deadWithMismatch (s : State) (pid : nat) : Prop :=
  Ord.indexVersionErrorOf s pid = true /\ ordProcess s = None.

Lemma suspend_state (env : Env) (s : State) :
  (suspend env s).2 =
  (forEach (proc_events env (clock s)) deliver env
     (set_time (S (clock s)) (now s + Z.of_nat (elapsed env (clock s))) s)).2.
Proof.
  unfold suspend, bind, ask, get, modify, ret. cbn [fst snd].
  now destruct (forEach _ _ _ _) as [[[]| |] s1].
Qed.

Lemma suspend_dead (env : Env) (s : State) (pid : nat) :
  isIndexer s pid -> mismatchAndExit env pid -> deadWithMismatch (suspend env s).2 pid.
Proof.
  intros Hidx Hsyn. destruct (Hsyn (clock s)) as (text & code & Hin1 & Hm & Hin2 & _).
  rewrite suspend_state. split.
  - eapply forEach_deliver_mismatch; eauto.
  - eapply forEach_deliver_exit; eauto.
Qed.

Lemma deadWithMismatch_evolves (s s' : State) (pid : nat) :
  evolves s s' -> deadWithMismatch s pid -> deadWithMismatch s' pid.
Proof.
  intros He [Hf Hn]. split; [eapply evolves_flag | eapply evolves_handle]; eauto.
Qed.

Lemma sleep_dead (env : Env) (s : State) (pid : nat) (ms : Z) :
  isIndexer s pid -> mismatchAndExit env pid ->
  exists s1, sleep ms env s = (Fulfilled tt, s1) /\ deadWithMismatch s1 pid /\ evolves s s1.
Proof.
  intros Hidx Hsyn.
  destruct (succeeds_sleep ms env s) as [[] Hr].
  pose proof (steady_sleep ms env s) as He.
  assert (Hd : deadWithMismatch (sleep ms env s).2 pid).
  { unfold sleep. rewrite run_bind. cbn [emit modify fst snd]. rewrite run_bind.
    pose proof (suspend_dead env (set_trace (fun t => t ++ [SetTimeout ms]) s) pid Hidx Hsyn)
      as [Hf Hn].
    destruct (suspend env _) as [[t| |] s1]; cbn [fst snd] in *; split; assumption. }
  destruct (sleep ms env s) as [r s1]. cbn [fst snd] in *. subst r. eauto.
Qed.

Lemma isOrdServerReady_never (env : Env) (s : State) (port : Z) :
  neverReady env ->
  exists s1, Ord.isOrdServerReady port env s = (Fulfilled false, s1) /\ evolves s s1.
Proof.
  intros Hnever. unfold Ord.isOrdServerReady.
  pose proof (httpGet_result env s port "/blockcount") as Hr.
  pose proof (steady_httpGet port "/blockcount" env s) as He.
  rewrite run_bind. destruct (httpGet port "/blockcount" env s) as [r s1].
  cbn [fst snd] in *. subst r. exists s1. split; [|exact He].
  unfold ret. now rewrite Hnever.
Qed.

Lemma poll_dead (env : Env) (s : State) (pid : nat) (port : Z) :
  isIndexer s pid -> mismatchAndExit env pid -> neverReady env ->
  exists s2, poll port env s = (Fulfilled false, s2) /\ deadWithMismatch s2 pid /\ evolves s s2.
Proof.
  intros Hidx Hsyn Hnever. unfold poll. rewrite run_bind.
  destruct (sleep_dead env s pid 1000 Hidx Hsyn) as (s1 & -> & Hd & He1).
  destruct (isOrdServerReady_never env s1 port Hnever) as (s2 & -> & He2).
  exists s2. split; [reflexivity|]. split.
  - eapply deadWithMismatch_evolves; eauto.
  - eapply evolves_trans; eauto.
Qed.

Lemma diesBeforeReady_dead (env : Env) (s : State) (pid : nat) (port : Z) (polls : nat) :
  isIndexer s pid -> mismatchAndExit env pid -> neverReady env ->
  exists s2, diesBeforeReady env port (S polls) s = Some s2 /\
             deadWithMismatch s2 pid /\ evolves s s2.
Proof.
  intros Hidx Hsyn Hnever.
  destruct (poll_dead env s pid port Hidx Hsyn Hnever) as (s2 & Hp & Hd & He).
  exists s2. cbn [diesBeforeReady]. rewrite Hp.
  destruct Hd as [Hf Hn]. rewrite Hn. cbn [Ord.running].
  split; [reflexivity|]. split; [split; assumption | exact He].
Qed.

(** With no indexer running and every file in place, [launchOrdServer]
    spawns: the new process is the next one, and the handle refers to it. *)
Lemma launchOrdServer_spawns (env : Env) (s : State) :
  ordProcess s = None -> filesInPlace env ->
  exists s1,
    Ord.launchOrdServer env s =
      (Fulfilled (Some (length (spawned s), configuration env)), s1) /\
    isIndexer s1 (length (spawned s)) /\
    length (spawned s1) = S (length (spawned s)).
Proof.
  intros Hnone Hfiles. unfold Ord.launchOrdServer.
  assert (Hexists : forall path s0, (existsSync path env s0).1 = Fulfilled true).
  { intros path s0. unfold existsSync, bind, ask, get, ret. cbn [fst snd]. now rewrite Hfiles. }
  rewrite (run_bind_reads _ _ env s false reads_isOrdRunning)
    by (unfold Ord.isOrdRunning, bind, get, ret; cbn [fst snd]; now rewrite Hnone).
  cbv beta iota.
  destruct (reads_getOrdPath env s) as [ordPath Hpath].
  rewrite (run_bind_reads _ _ env s ordPath reads_getOrdPath) by now rewrite Hpath.
  rewrite (run_bind_reads _ _ env s true (reads_existsSync _) (Hexists _ _)).
  cbv beta iota delta [negb].
  rewrite (run_bind_reads _ _ env s (configuration env) reads_getConfig eq_refl).
  cbv zeta.
  destruct (reads_getOrdDataDirectory env s) as [dataDir Hdir].
  rewrite (run_bind_reads _ _ env s dataDir reads_getOrdDataDirectory) by now rewrite Hdir.
  destruct (reads_getCookieFilePath (network (configuration env)) env s) as [cookie Hcookie].
  rewrite (run_bind_reads _ _ env s cookie (reads_getCookieFilePath _)) by now rewrite Hcookie.
  rewrite run_bind.
  destruct (succeeds_killProcessOnPort (ordServerPort (configuration env)) env s) as [[] Hk].
  pose proof (steady_killProcessOnPort (ordServerPort (configuration env)) env s) as He.
  destruct (Ord.killProcessOnPort _ env s) as [r s0]. cbn [fst snd] in *. subst r.
  rewrite run_bind. cbn [mkdirSync emit modify fst snd].
  rewrite (run_bind_reads _ _ env _ true (reads_existsSync _) (Hexists _ _)).
  cbv beta iota delta [negb].
  eexists. split; [|split].
  - unfold OutputChannel.logSection, Ord.log, OrdListeners.log, OutputChannel.log, spawn,
      bind, emit, modify, get, ret. cbn [fst snd spawned set_trace set_spawned].
    rewrite (evolves_length _ _ He). reflexivity.
  - eexists. cbn [spawned set_trace set_spawned set_ordProcess].
    rewrite <- (evolves_length _ _ He).
    split; [apply list_lookup_middle; reflexivity | reflexivity].
  - cbn [spawned set_trace set_spawned set_ordProcess].
    rewrite length_app, (evolves_length _ _ He). simpl. lia.
Qed.

Lemma wipeAndRetry_recovers (self : bool -> M unit) (net : Network) :
  recovering (self false) (fun steps => steps = [EnterStartOrdServer false]) ->
  recovering (wipeAndRetry self net)
    (fun steps => steps = [EnterClearAllOrdData net; EnterStartOrdServer false]).
Proof.
  intros Hself. unfold wipeAndRetry.
  apply recovering_after; [quiet_tac | apply succeeds_emit |]. intros _.
  apply recovering_after; [quiet_tac | apply succeeds_emit |]. intros _.
  eapply recovering_weaken; [apply clearAllOrdData_then, Hself|].
  intros steps (rest & -> & ->). reflexivity.
Qed.

Lemma steady_clearAllOrdData (net : Network) : steady (Ord.clearAllOrdData net).
Proof.
  unfold Ord.clearAllOrdData, Ord.clearOrdIndex, Ord.clearOrdWallet, rmSync, Ord.log,
    OrdListeners.log, OutputChannel.log.
  steady_tac.
Qed.

Lemma succeeds_clearAllOrdData (net : Network) : succeeds (Ord.clearAllOrdData net).
Proof.
  unfold Ord.clearAllOrdData.
  apply succeeds_bind; [apply succeeds_emit|]. intros _.
  apply succeeds_bind; [apply succeeds_emit|]. intros _.
  apply succeeds_bind; [apply succeeds_clearOrdIndex|]. intros _.
  apply succeeds_clearOrdWallet.
Qed.

(** The state in which the recovery makes the second call. *)
Lemma wipeAndRetry_run (self : bool -> M unit) (net : Network) (env : Env) (s : State) :
  exists s3, wipeAndRetry self net env s = self false env s3 /\ evolves s s3.
Proof.
  unfold wipeAndRetry. rewrite run_bind. cbn [Ord.log OrdListeners.log OutputChannel.log emit
    modify fst snd]. rewrite run_bind. cbn [emit modify fst snd]. rewrite run_bind.
  destruct (succeeds_clearAllOrdData net env
    (set_trace (fun t => t ++ [ShowInformationMessage
       "Ord database is outdated. Clearing and rebuilding (this may take a moment)..." []])
       (set_trace (fun t => t ++ [AppendLine INFO
          ("[ord] " +:+ "Detected database version mismatch. Clearing old data and retrying...")])
          s))) as [[] Hr].
  pose proof (steady_clearAllOrdData net env
    (set_trace (fun t => t ++ [ShowInformationMessage
       "Ord database is outdated. Clearing and rebuilding (this may take a moment)..." []])
       (set_trace (fun t => t ++ [AppendLine INFO
          ("[ord] " +:+ "Detected database version mismatch. Clearing old data and retrying...")])
          s))) as He.
  destruct (Ord.clearAllOrdData net env _) as [r s3]. cbn [fst snd] in *. subst r.
  exists s3. split; [reflexivity|].
  eapply evolves_trans; [|exact He]. now apply evolves_same.
Qed.

(** An attempt on the synthetic indexer with the retry spent fails. *)
Lemma startOrdServer_spent_fails (env : Env) (s : State) (depth : nat) :
  ordProcess s = None -> filesInPlace env -> neverReady env ->
  mismatchAndExit env (length (spawned s)) ->
  exists message, (Ord.startOrdServer (S depth) false env s).1 = Rejected message.
Proof.
  intros Hnone Hfiles Hnever Hsyn. cbn [Ord.startOrdServer]. unfold Ord.startOrdServer_body.
  rewrite run_bind. cbn [emit modify fst snd]. fold (entered false s). rewrite run_bind.
  destruct (launchOrdServer_spawns env (entered false s) Hnone Hfiles) as (s1 & -> & Hidx & _).
  cbn [entered set_trace spawned] in Hidx. cbv beta iota.
  destruct (diesBeforeReady_dead env s1 (length (spawned s))
              (ordServerPort (configuration env)) 59 Hidx Hsyn Hnever) as (s2 & Hd & _ & _).
  rewrite (awaitOrdReady_dies _ false _ _ _ env s1 s2 Hd), andb_false_r.
  eexists. reflexivity.
Qed.


(** A Linux machine whose indexer reports a version mismatch and exits, again
    and again. *)
Definition staleIndex : Env :=
  Demo.env "linux" (Demo.config regtest) Demo.mismatchEvents
    (fun _ _ => Demo.done EmptyString) Demo.refused true Demo.noUser.

Lemma staleIndex_mismatchAndExit (pid : nat) :
  pid = 0%nat \/ pid = 1%nat -> mismatchAndExit staleIndex pid.
Proof.
  intros Hpid t. exists "error: failed to open index: Manual upgrade required", 1.
  destruct Hpid as [-> | ->]; simpl; intuition discriminate.
Defined.


Example startOrdServer_staleIndex_run :
  (Ord.startOrdServer 2 true staleIndex Demo.idle).1 =
    Rejected ("ord server failed to start: "
              +:+ "error: failed to open index: Manual upgrade required"
              +:+ "error: failed to open index: Manual upgrade required") /\
  recoverySteps (trace (Ord.startOrdServer 2 true staleIndex Demo.idle).2) =
    [EnterStartOrdServer true; EnterClearAllOrdData regtest; EnterStartOrdServer false].
Proof. split; vm_compute; reflexivity. Qed.

(** ** What a run adds to the effects, and how it ends *)

(** [adds m env s Q]: the run of [m] from [s] appends effects and settles in
    a way that together satisfy [Q]. *)
Definition adds {A} (m : M A) (env : Env) (s : State)
    (Q : Settled A -> list Effect -> Prop) : Prop :=
  exists added, trace (m env s).2 = trace s ++ added /\ Q (m env s).1 added.

Lemma adds_wand {A} (m : M A) (env : Env) (s : State) (Q Q' : Settled A -> list Effect -> Prop) :
  adds m env s Q -> (forall r added, Q r added -> Q' r added) -> adds m env s Q'.
Proof. intros (added & H & HQ) Himp. exists added. auto. Qed.

Lemma adds_bind {A B} (m : M A) (k : A -> M B) (env : Env) (s : State)
    (Q : Settled B -> list Effect -> Prop) :
  adds m env s (fun r d1 =>
    match r with
    | Fulfilled a => adds (k a) env (m env s).2 (fun r2 d2 => Q r2 (d1 ++ d2))
    | Rejected e => Q (Rejected e) d1
    | Pending => Q Pending d1
    end) ->
  adds (bind m k) env s Q.
Proof.
  intros (d1 & H1 & HQ). unfold adds. rewrite run_bind.
  destruct (m env s) as [[a|e|] s1]; cbn [fst snd] in *; [|exists d1; auto ..].
  destruct HQ as (d2 & H2 & HQ). exists (d1 ++ d2). split; [|exact HQ].
  now rewrite H2, H1, app_assoc.
Qed.

Lemma adds_tryCatch {A} (m : M A) (handler : string -> M A) (env : Env) (s : State)
    (Q : Settled A -> list Effect -> Prop) :
  adds m env s (fun r d1 =>
    match r with
    | Rejected e => adds (handler e) env (m env s).2 (fun r2 d2 => Q r2 (d1 ++ d2))
    | _ => Q r d1
    end) ->
  adds (tryCatch m handler) env s Q.
Proof.
  intros (d1 & H1 & HQ). unfold adds, tryCatch.
  destruct (m env s) as [[a|e|] s1]; cbn [fst snd] in *; [exists d1; auto | | exists d1; auto].
  destruct HQ as (d2 & H2 & HQ). exists (d1 ++ d2). split; [|exact HQ].
  now rewrite H2, H1, app_assoc.
Qed.

Lemma adds_quiet {A} (allowed : Kind -> Prop) (m : M A) (env : Env) (s : State)
    (Q : Settled A -> list Effect -> Prop) :
  quiet allowed m ->
  (forall r added, Forall (fun e => allowed (kind e)) added -> Q r added) ->
  adds m env s Q.
Proof. intros Hq HQ. destruct (Hq env s) as (added & H & F). exists added. auto. Qed.

Lemma adds_reads {A} (m : M A) (env : Env) (s : State) (Q : Settled A -> list Effect -> Prop) :
  reads m -> (forall a, m env s = (Fulfilled a, s) -> Q (Fulfilled a) []) -> adds m env s Q.
Proof.
  intros Hm HQ. destruct (Hm env s) as [a E]. exists []. rewrite E. cbn [fst snd].
  split; [now rewrite app_nil_r | now apply HQ].
Qed.

Lemma adds_ret {A} (a : A) (env : Env) (s : State) (Q : Settled A -> list Effect -> Prop) :
  Q (Fulfilled a) [] -> adds (ret a) env s Q.
Proof. intros H. exists []. split; [now rewrite app_nil_r | exact H]. Qed.

Lemma adds_throw {A} (message : string) (env : Env) (s : State)
    (Q : Settled A -> list Effect -> Prop) :
  Q (Rejected message) [] -> adds (throw message) env s Q.
Proof. intros H. exists []. split; [now rewrite app_nil_r | exact H]. Qed.

Lemma adds_emit (e : Effect) (env : Env) (s : State) (Q : Settled unit -> list Effect -> Prop) :
  Q (Fulfilled tt) [e] -> adds (emit e) env s Q.
Proof. intros H. exists [e]. split; [reflexivity | exact H]. Qed.

Lemma adds_log (message : string) (env : Env) (s : State)
    (Q : Settled unit -> list Effect -> Prop) :
  Q (Fulfilled tt) [AppendLine INFO message] -> adds (OutputChannel.log message) env s Q.
Proof. apply adds_emit. Qed.

Lemma adds_run {A} (m : M A) (env : Env) (s : State) (Q : Settled A -> list Effect -> Prop) :
  adds m env s Q <-> exists added, trace (m env s).2 = trace s ++ added /\ Q (m env s).1 added.
Proof. reflexivity. Qed.

(** ** Funding by mining *)

(** The parameters of the requests to mine among the effects. *)
Definition miningRequests (t : list Effect) : list (list RpcParam) :=
  flat_map (fun e =>
    match e with
    | RpcRequest _ method params _ =>
        if (method =? "generatetoaddress")%string then [params] else []
    | _ => []
    end) t.

(** Every kind of effect but the RPC call that mines. *)
Definition noMining (k : Kind) : Prop := k <> KRpc "generatetoaddress".

Lemma miningRequests_app (t1 t2 : list Effect) :
  miningRequests (t1 ++ t2) = miningRequests t1 ++ miningRequests t2.
Proof. apply flat_map_app. Qed.

Lemma miningRequests_noMining (t : list Effect) :
  Forall (fun e => noMining (kind e)) t -> miningRequests t = [].
Proof.
  induction 1 as [|e t H _ IH]; [reflexivity|]. cbn [miningRequests flat_map].
  fold (miningRequests t). rewrite IH, app_nil_r.
  destruct e; try reflexivity. cbn [kind] in H.
  destruct (String.eqb_spec method "generatetoaddress") as [->|]; [|reflexivity].
  now contradiction H.
Qed.

Lemma noMining_ordinary : noMining KOrdinary.
Proof. discriminate. Qed.

Lemma noMining_clear : noMining KClear.
Proof. discriminate. Qed.

Lemma noMining_rpc (method : string) :
  method <> "generatetoaddress" -> method <> "getblockcount" -> noMining (KRpc method).
Proof. intros H _ E. injection E as E. contradiction. Qed.

(** [m] only reads the environment: its value is the same in every state. *)
Definition fixed {A} (m : M A) : Prop :=
  forall env, exists a, forall s, m env s = (Fulfilled a, s).

Lemma fixed_ret {A} (a : A) : fixed (ret a).
Proof. intros env. now exists a. Qed.

Lemma fixed_ask : fixed ask.
Proof. intros env. now exists env. Qed.

Lemma fixed_bind {A B} (m : M A) (k : A -> M B) :
  fixed m -> (forall a, fixed (k a)) -> fixed (bind m k).
Proof.
  intros Hm Hk env. destruct (Hm env) as [a Ha]. destruct (Hk a env) as [b Hb].
  exists b. intros s. now rewrite run_bind, Ha.
Qed.

Ltac fixed_tac :=
  repeat first
    [ progress intros
    | progress cbv beta zeta
    | apply fixed_bind
    | apply fixed_ret
    | apply fixed_ask
    | match goal with
      | |- fixed (match ?x with _ => _ end) => destruct x
      end ].

Lemma fixed_rpc_getCookieFilePath (net : Network) : fixed (Rpc.getCookieFilePath net).
Proof.
  unfold Rpc.getCookieFilePath, Config.getConfig, PlatformUtils.getDefaultDataDirectory,
    PlatformUtils.getPlatform, PlatformUtils.pathJoin.
  fixed_tac.
Qed.

(** Whether the cookie is found depends on the time of the look-up only. *)
Lemma getCookieAuth_clock (net : Network) (env : Env) (s s' : State) :
  clock s = clock s' ->
  (Rpc.getCookieAuth net env s).1 = Fulfilled tt ->
  Rpc.getCookieAuth net env s' = (Fulfilled tt, s').
Proof.
  intros Hc. destruct (fixed_rpc_getCookieFilePath net env) as [path Hp].
  unfold Rpc.getCookieAuth. rewrite !run_bind, !Hp. cbn [fst snd].
  unfold existsSync. rewrite !run_bind. cbn [ask get fst snd]. rewrite !run_bind.
  cbn [get ret fst snd]. rewrite Hc.
  now destruct (fs_existsSync env (clock s') path).
Qed.

(** [m] asks for blocks to be mined as [P] allows. *)
Definition mines {A} (m : M A) (P : list (list RpcParam) -> Prop) : Prop :=
  forall env s, adds m env s (fun _ added => P (miningRequests added)).

Lemma mines_quiet {A} (m : M A) : quiet noMining m -> mines m (fun l => l = []).
Proof.
  intros H env s. apply (adds_quiet noMining); [exact H|].
  intros _ added F. now apply miningRequests_noMining.
Qed.

Lemma mines_weaken {A} (m : M A) (P P' : list (list RpcParam) -> Prop) :
  mines m P -> (forall l, P l -> P' l) -> mines m P'.
Proof. intros H Himp env s. eapply adds_wand; [apply H|]. cbv beta. auto. Qed.

Lemma mines_bind {A B} (m : M A) (k : A -> M B) (P : list (list RpcParam) -> Prop) :
  quiet noMining m -> P [] -> (forall a, mines (k a) P) -> mines (bind m k) P.
Proof.
  intros Hm H0 Hk env s. apply adds_bind, (adds_quiet noMining); [exact Hm|].
  intros r d1 F. apply miningRequests_noMining in F.
  destruct r as [a| |]; [|now rewrite F ..].
  eapply adds_wand; [apply Hk|]. cbv beta. intros _ d2.
  now rewrite miningRequests_app, F.
Qed.

Lemma mines_then {A B} (m : M A) (k : A -> M B) (P : list (list RpcParam) -> Prop) :
  mines m P -> (forall a, mines (k a) (fun l => l = [])) -> mines (bind m k) P.
Proof.
  intros Hm Hk env s. apply adds_bind. eapply adds_wand; [apply Hm|]. cbv beta.
  intros r d1 H. destruct r as [a| |]; [|exact H ..].
  eapply adds_wand; [apply Hk|]. cbv beta. intros _ d2 E.
  now rewrite miningRequests_app, E, app_nil_r.
Qed.

Lemma mines_tryCatch {A} (m : M A) (handler : string -> M A)
    (P : list (list RpcParam) -> Prop) :
  mines m P -> (forall e, quiet noMining (handler e)) -> mines (tryCatch m handler) P.
Proof.
  intros Hm Hh env s. apply adds_tryCatch. eapply adds_wand; [apply Hm|]. cbv beta.
  intros r d1 H. destruct r as [a|e|]; [exact H | | exact H].
  apply (adds_quiet noMining); [apply Hh|]. intros _ d2 F.
  now rewrite miningRequests_app, (miningRequests_noMining d2 F), app_nil_r.
Qed.

(** The answer to a request is awaited and recorded without a new request. *)
Lemma mines_answer (T : RpcType) (method : string) (params : list RpcParam)
    (wallet : option string) :
  mines (let* t := suspend in
         let* env := ask in
         match rpc_answer env t T method params wallet with
         | Ok result => emit (RpcAnswered method (Ok (rpcValue T result))) >> ret result
         | Err message => emit (RpcAnswered method (Err message)) >> throw message
         end)
        (fun l => l = []).
Proof.
  intros env s. apply adds_bind, (adds_quiet noMining).
  { apply quiet_suspend, noMining_ordinary. }
  intros r d1 F. apply miningRequests_noMining in F.
  destruct r as [t| |]; [|exact F ..].
  apply adds_bind, adds_reads; [apply reads_ask|]. intros env' _.
  destruct (rpc_answer env' t T method params wallet) as [result|message];
    apply adds_bind, adds_emit; [apply adds_ret | apply adds_throw];
    now rewrite !miningRequests_app, F.
Qed.

Lemma quiet_getCookieAuth (allowed : Kind -> Prop) (net : Network) :
  quiet allowed (Rpc.getCookieAuth net).
Proof.
  unfold Rpc.getCookieAuth.
  apply quiet_bind; [apply quiet_reads, reads_rpc_getCookieFilePath|]. intros path.
  apply quiet_bind; [apply quiet_reads, reads_existsSync|]. intros found.
  destruct (negb found); [apply quiet_throw | apply quiet_ret].
Qed.

(** A call of [generateToAddress] asks at most once, for the number of
    blocks and the address it was given. *)
Lemma mines_generateToAddress (numBlocks : option Z) (address : string) :
  mines (Rpc.generateToAddress numBlocks address)
        (fun l => l = [] \/ l = [[numParam numBlocks; PStr address]]).
Proof.
  unfold Rpc.generateToAddress, Rpc.rpcCall.
  apply mines_bind; [apply quiet_reads, reads_getConfig | now left |]. intros config.
  apply mines_bind; [apply quiet_reads, reads_getRpcPort | now left |]. intros port.
  apply mines_bind; [apply quiet_reads, reads_get | now left |]. intros s0.
  apply mines_bind; [apply quiet_modify; same_trace | now left |]. intros _.
  apply mines_bind; [apply quiet_getCookieAuth | now left |]. intros _.
  apply mines_then; [|intros _; apply (mines_answer TStringArray)].
  intros env s. apply adds_emit. now right.
Qed.

(** What [ensureWalletFunded] may ask to be mined when it runs under [config]. *)
Definition fundingRequests (config : OrdConfig) (l : list (list RpcParam)) : Prop :=
  l = [] \/
  network config = regtest /\
  exists address, l = [[PNum (Wallet.COINBASE_MATURITY + 1); PStr address]].

Lemma Network_eqb_eq (a b : Network) : Network_eqb a b = true <-> a = b.
Proof. destruct a, b; simpl; split; congruence. Qed.

Lemma quiet_noMining_log (message : string) : quiet noMining (OutputChannel.log message).
Proof. apply quiet_emit, noMining_ordinary. Qed.

Lemma mines_fundingStep (depth : nat) (config : OrdConfig) (currentWallet : string)
    (balance : Balance) :
  mines (Wallet.fundingStep depth config currentWallet balance) (fundingRequests config).
Proof.
  unfold Wallet.fundingStep.
  destruct (cardinal balance <? 10000); cbn [andb];
    [destruct (Network_eqb (network config) regtest) eqn:Hnet|];
    [apply Network_eqb_eq in Hnet | |];
    try (intros env s; apply adds_ret; now left).
  apply mines_bind; [apply quiet_noMining_log | now left |]. intros _.
  apply mines_bind;
    [apply quiet_getOrdReceiveAddress; [apply noMining_ordinary | apply noMining_clear]
    | now left |].
  intros address.
  apply mines_bind; [apply quiet_noMining_log | now left |]. intros _.
  cbv zeta.
  apply mines_bind; [apply quiet_noMining_log | now left |]. intros _.
  apply mines_then.
  - eapply mines_weaken; [apply mines_generateToAddress|]. cbv beta.
    intros l [->| ->]; [now left | right]. split; [exact Hnet|]. now exists address.
  - intros _. apply mines_quiet.
    apply quiet_bind; [apply quiet_noMining_log | intros _; apply quiet_ret].
Qed.

Lemma quiet_noMining_rpcCall (T : RpcType) (method : string) (params : list RpcParam)
    (wallet : option string) :
  method <> "generatetoaddress" -> quiet noMining (Rpc.rpcCall T method params wallet).
Proof.
  intros H. apply quiet_rpcCall; [apply noMining_ordinary|].
  intros E. injection E as E. contradiction.
Qed.

Lemma adds_getConfig {A} (k : OrdConfig -> M A) (env : Env) (s : State)
    (Q : Settled A -> list Effect -> Prop) :
  adds (k (configuration env)) env s Q -> adds (bind Config.getConfig k) env s Q.
Proof. intros H. exact H. Qed.

Lemma mines_ensureWalletFunded (depth : nat) (env : Env) (s : State) :
  adds (Wallet.ensureWalletFunded depth) env s
       (fun _ added => fundingRequests (configuration env) (miningRequests added)).
Proof.
  unfold Wallet.ensureWalletFunded.
  apply adds_getConfig.
  generalize (configuration env). intros config. revert env s.
  apply (mines_bind _ _ (fundingRequests config));
    [apply quiet_reads, reads_getCurrentWallet | now left |].
  intros currentWallet.
  apply mines_tryCatch;
    [|intros e; apply quiet_bind; [apply quiet_noMining_log | intros _; apply quiet_ret]].
  apply mines_bind; [apply quiet_noMining_log | now left |]. intros _.
  apply mines_bind; [|now left|].
  { apply quiet_tryCatch.
    - apply quiet_bind; [|intros _; apply quiet_noMining_log].
      apply quiet_createOrdWallet; [apply noMining_ordinary | apply noMining_clear].
    - intros msg. destruct (negb (JS.includes msg "already exists"));
        [|apply quiet_noMining_log].
      apply quiet_bind; [apply quiet_noMining_log | intros _; apply quiet_throw]. }
  intros _.
  apply mines_bind; [now apply (quiet_noMining_rpcCall TStringArray) | now left |].
  intros wallets.
  apply mines_bind; [|now left|].
  { apply quiet_when, quiet_bind; [apply quiet_noMining_log|]. intros _.
    apply quiet_tryCatch; [now apply (quiet_noMining_rpcCall TObject)|]. intros _.
    apply quiet_tryCatch; [now apply (quiet_noMining_rpcCall TObject)|]. intros _.
    apply quiet_ret. }
  intros _.
  apply mines_bind;
    [apply quiet_getOrdBalance; [apply noMining_ordinary | apply noMining_clear]
    | now left |].
  intros balance.
  apply mines_bind; [apply quiet_noMining_log | now left |]. intros _.
  apply mines_fundingStep.
Qed.

Lemma adds_wp {A} (m : M A) (env : Env) (s : State) (Q : Settled A -> list Effect -> Prop) :
  adds m env s Q ->
  wp m env s (fun r s' => exists added, trace s' = trace s ++ added /\ Q r added).
Proof. intros H. exact H. Qed.

Lemma wp_adds {A} (m : M A) (env : Env) (s : State) (Q : Settled A -> list Effect -> Prop) :
  wp m env s (fun r s' => exists added, trace s' = trace s ++ added /\ Q r added) ->
  adds m env s Q.
Proof. intros H. exact H. Qed.

(** With the cookie in place the request to mine goes out, once. *)
Lemma generateToAddress_asks (numBlocks : option Z) (address : string) (env : Env) (s : State) :
  (Rpc.getCookieAuth (network (configuration env)) env s).1 = Fulfilled tt ->
  wp (Rpc.generateToAddress numBlocks address) env s (fun _ s' =>
    exists port rest,
      trace s' = trace s
                 ++ RpcRequest port "generatetoaddress" [numParam numBlocks; PStr address] None
                 :: rest /\
      miningRequests rest = []).
Proof.
  intros Hcookie. unfold Rpc.generateToAddress, Rpc.rpcCall.
  apply wp_bind, wp_reads; [apply reads_getConfig|]. intros config Hconfig.
  injection Hconfig as <-.
  apply wp_bind, wp_reads; [apply reads_getRpcPort|]. intros port _.
  apply wp_bind, wp_get. apply wp_bind, wp_modify.
  apply wp_bind, wp_run. intros r s1 Hrun.
  rewrite (getCookieAuth_clock _ env s (set_requestId (requestId s + 1) s) eq_refl Hcookie)
    in Hrun.
  injection Hrun as <- <-.
  apply wp_bind, wp_emit.
  eapply wp_wand; [apply adds_wp, (mines_answer TStringArray)|]. cbv beta.
  intros _ s2 (rest & Htrace & Hrest). exists port, rest. rewrite Htrace.
  cbn [trace set_trace set_requestId]. split; [now rewrite <- app_assoc | exact Hrest].
Qed.


(** A wallet without funds on regtest; [ord wallet receive] prints the
    address and the node answers. *)
Definition emptyWallet : Env :=
  Demo.env "linux" (Demo.config regtest) Demo.noEvents
    (fun _ _ => Demo.done "bcrt1qreceive") Demo.refused true Demo.noUser.


(** The whole of [ensureWalletFunded] on that wallet: one request, for 101
    blocks, and the wallet counts as funded. *)
Example ensureWalletFunded_emptyWallet_run :
  let run := Wallet.ensureWalletFunded 1 emptyWallet Demo.idle in
  run.1 = Fulfilled true /\
  miningRequests (trace run.2) = [[PNum 101; PStr "bcrt1qreceive"]].
Proof. vm_compute. split; reflexivity. Qed.

(** ** The barrier before an inscription *)

(** Among [d], a GET of the height of the indexer on [port] and, later,
    an answer with status 200 and [body]. *)
Definition polled (port : Z) (body : string) (d : list Effect) : Prop :=
  exists d1 d2 d3,
    d = d1 ++ HttpGet port "/blockcount" :: d2 ++ HttpGot (HttpResponse 200 body) :: d3.

(** Among [d], the indexer has reported a height of [n] or more. *)
Definition caughtUp (port n : Z) (d : list Effect) : Prop :=
  exists body height,
    polled port body d /\ JS.parseInt (JS.trim body) = Some height /\ n <= height.

(** In [pre] the node has answered [getblockcount] and the indexer has then
    reported that height or more. *)
Definition synced (port : Z) (pre : list Effect) : Prop :=
  exists n before between,
    pre = before ++ RpcAnswered "getblockcount" (Ok (VNumber n)) :: between /\
    caughtUp port n between.

(** Whatever comes before an entry into [inscribeFile] satisfies [P]. *)
Definition guardedBy (P : list Effect -> Prop) (added : list Effect) : Prop :=
  forall pre f post, added = pre ++ EnterInscribeFile f :: post -> P pre.

Definition noInscribe (k : Kind) : Prop := k <> KInscribe.

Definition anyKind (k : Kind) : Prop := True.

Lemma polled_app_l (port : Z) (body : string) (d0 d : list Effect) :
  polled port body d -> polled port body (d0 ++ d).
Proof. intros (d1 & d2 & d3 & ->). exists (d0 ++ d1), d2, d3. now rewrite <- app_assoc. Qed.

Lemma polled_app_r (port : Z) (body : string) (d d' : list Effect) :
  polled port body d -> polled port body (d ++ d').
Proof.
  intros (d1 & d2 & d3 & ->). exists d1, d2, (d3 ++ d').
  now rewrite <- app_assoc, <- app_comm_cons, <- app_assoc, <- app_comm_cons.
Qed.

Lemma caughtUp_app_l (port n : Z) (d0 d : list Effect) :
  caughtUp port n d -> caughtUp port n (d0 ++ d).
Proof. intros (body & height & H & Hp & Hn). exists body, height. auto using polled_app_l. Qed.

Lemma caughtUp_app_r (port n : Z) (d d' : list Effect) :
  caughtUp port n d -> caughtUp port n (d ++ d').
Proof. intros (body & height & H & Hp & Hn). exists body, height. auto using polled_app_r. Qed.

Lemma synced_app_l (port : Z) (d0 d : list Effect) : synced port d -> synced port (d0 ++ d).
Proof.
  intros (n & before & between & -> & H). exists n, (d0 ++ before), between.
  split; [now rewrite <- app_assoc | exact H].
Qed.

(** Where an element of an append lies. *)
Lemma app_eq_middle {X} (d1 d2 pre post : list X) (x : X) :
  d1 ++ d2 = pre ++ x :: post ->
  (exists post1, d1 = pre ++ x :: post1 /\ post = post1 ++ d2) \/
  (exists pre2, pre = d1 ++ pre2 /\ d2 = pre2 ++ x :: post).
Proof.
  revert pre. induction d1 as [|y d1 IH]; intros pre H.
  - right. now exists pre.
  - destruct pre as [|z pre]; simpl in H; injection H as -> H.
    + left. now exists d1.
    + destruct (IH pre H) as [(post1 & -> & ->)|(pre2 & -> & ->)].
      * left. now exists post1.
      * right. now exists pre2.
Qed.

Lemma noInscribe_not_entered (d pre post : list Effect) (f : string) :
  Forall (fun e => noInscribe (kind e)) d -> d <> pre ++ EnterInscribeFile f :: post.
Proof.
  intros F ->. apply Forall_app in F as [_ F]. apply Forall_cons_iff in F as [F _].
  now apply F.
Qed.

Lemma guardedBy_quiet (P : list Effect -> Prop) (d : list Effect) :
  Forall (fun e => noInscribe (kind e)) d -> guardedBy P d.
Proof. intros F pre f post H. now apply noInscribe_not_entered in H. Qed.

Lemma guardedBy_app (P : list Effect -> Prop) (d1 d2 : list Effect) :
  Forall (fun e => noInscribe (kind e)) d1 ->
  guardedBy (fun pre => P (d1 ++ pre)) d2 ->
  guardedBy P (d1 ++ d2).
Proof.
  intros F H pre f post E. apply app_eq_middle in E as [(post1 & E & _)|(pre2 & -> & E)].
  - now apply noInscribe_not_entered in E.
  - eapply H, E.
Qed.

Lemma guardedBy_then (P : list Effect -> Prop) (d1 d2 : list Effect) :
  guardedBy P d1 -> Forall (fun e => noInscribe (kind e)) d2 -> guardedBy P (d1 ++ d2).
Proof.
  intros H F pre f post E. apply app_eq_middle in E as [(post1 & E & _)|(pre2 & _ & E)].
  - eapply H, E.
  - now apply noInscribe_not_entered in E.
Qed.

Lemma guardedBy_weaken (P P' : list Effect -> Prop) (d : list Effect) :
  guardedBy P d -> (forall pre, P pre -> P' pre) -> guardedBy P' d.
Proof. intros H Himp pre f post E. eapply Himp, H, E. Qed.

Lemma guardedBy_always (P : list Effect -> Prop) (d : list Effect) :
  (forall pre, P pre) -> guardedBy P d.
Proof. intros H pre f post _. apply H. Qed.

(** [m] enters [inscribeFile] only behind the barrier. *)
Definition gated {A} (port : Z) (m : M A) : Prop :=
  forall env s, adds m env s (fun _ added => guardedBy (synced port) added).

Lemma gated_quiet {A} (port : Z) (m : M A) : quiet noInscribe m -> gated port m.
Proof.
  intros H env s. apply (adds_quiet noInscribe); [exact H|].
  intros _ added F. now apply guardedBy_quiet.
Qed.

Lemma gated_bind {A B} (port : Z) (m : M A) (k : A -> M B) :
  quiet noInscribe m -> (forall a, gated port (k a)) -> gated port (bind m k).
Proof.
  intros Hm Hk env s. apply adds_bind, (adds_quiet noInscribe); [exact Hm|].
  intros r d1 F. destruct r as [a| |]; [|now apply guardedBy_quiet ..].
  eapply adds_wand; [apply Hk|]. cbv beta. intros _ d2 H.
  apply guardedBy_app; [exact F|]. eapply guardedBy_weaken; [exact H|].
  intros pre. apply synced_app_l.
Qed.

Lemma gated_then {A B} (port : Z) (m : M A) (k : A -> M B) :
  gated port m -> (forall a, quiet noInscribe (k a)) -> gated port (bind m k).
Proof.
  intros Hm Hk env s. apply adds_bind. eapply adds_wand; [apply Hm|]. cbv beta.
  intros r d1 H. destruct r as [a| |]; [|exact H ..].
  apply (adds_quiet noInscribe); [apply Hk|]. intros _ d2 F. now apply guardedBy_then.
Qed.

Lemma gated_tryCatch {A} (port : Z) (m : M A) (handler : string -> M A) :
  gated port m -> (forall e, quiet noInscribe (handler e)) -> gated port (tryCatch m handler).
Proof.
  intros Hm Hh env s. apply adds_tryCatch. eapply adds_wand; [apply Hm|]. cbv beta.
  intros r d1 H. destruct r as [a|e|]; [exact H | | exact H].
  apply (adds_quiet noInscribe); [apply Hh|]. intros _ d2 F. now apply guardedBy_then.
Qed.

(** The effects that a run adds are determined by the run. *)
Lemma adds_and {A} (m : M A) (env : Env) (s : State) (Q1 Q2 : Settled A -> list Effect -> Prop) :
  adds m env s Q1 -> adds m env s Q2 -> adds m env s (fun r d => Q1 r d /\ Q2 r d).
Proof.
  intros (d1 & H1 & HQ1) (d2 & H2 & HQ2). exists d1. split; [exact H1|]. split; [exact HQ1|].
  rewrite H1 in H2. apply app_inv_head in H2. now subst d2.
Qed.

(** A property of the result and of the end of the effects passes over a
    beginning that only adds effects. *)
Lemma adds_skip {A B} (m : M A) (k : A -> M B) (env : Env) (s : State)
    (Q : Settled B -> list Effect -> Prop) :
  quiet anyKind m ->
  (forall r d0 d, Q r d -> Q r (d0 ++ d)) ->
  (forall e d, Q (Rejected e) d) ->
  (forall d, Q Pending d) ->
  (forall a s', adds (k a) env s' Q) ->
  adds (bind m k) env s Q.
Proof.
  intros Hm Hpre Hrej Hpend Hk. apply adds_bind, (adds_quiet anyKind); [exact Hm|].
  intros r d1 _. destruct r as [a| |]; [|auto ..].
  eapply adds_wand; [apply Hk|]. cbv beta. auto.
Qed.

Lemma anyKind_all (k : Kind) : anyKind k.
Proof. exact I. Qed.

Lemma quiet_any_suspend : quiet anyKind suspend.
Proof. apply quiet_suspend, anyKind_all. Qed.

(** A fulfilled call ends with the answer of the node on record. *)
Lemma rpcCall_answered (T : RpcType) (method : string) (params : list RpcParam)
    (wallet : option string) (env : Env) (s : State) :
  adds (Rpc.rpcCall T method params wallet) env s (fun r d =>
    forall result, r = Fulfilled result ->
      exists d', d = d' ++ [RpcAnswered method (Ok (rpcValue T result))]).
Proof.
  assert (Hpre : forall (r : Settled (rpcT T)) (d0 d : list Effect),
    (forall result, r = Fulfilled result ->
       exists d', d = d' ++ [RpcAnswered method (Ok (rpcValue T result))]) ->
    forall result, r = Fulfilled result ->
      exists d', d0 ++ d = d' ++ [RpcAnswered method (Ok (rpcValue T result))]).
  { intros r d0 d H result E. destruct (H result E) as [d' ->]. exists (d0 ++ d').
    now rewrite app_assoc. }
  unfold Rpc.rpcCall. revert s.
  assert (Hanswer : forall t env' s,
    adds (match rpc_answer env' t T method params wallet with
          | Ok result => emit (RpcAnswered method (Ok (rpcValue T result))) >> ret result
          | Err message => emit (RpcAnswered method (Err message)) >> throw message
          end) env s
      (fun r d => forall result, r = Fulfilled result ->
         exists d', d = d' ++ [RpcAnswered method (Ok (rpcValue T result))])).
  { intros t env' s. destruct (rpc_answer env' t T method params wallet) as [result|message];
      apply adds_bind, adds_emit; [apply adds_ret | apply adds_throw].
    - intros result' E. injection E as <-. now exists [].
    - discriminate. }
  intros s.
  apply adds_skip; [apply quiet_reads, reads_getConfig | exact Hpre | discriminate ..|].
  intros config s1.
  apply adds_skip; [apply quiet_reads, reads_getRpcPort | exact Hpre | discriminate ..|].
  intros port s2.
  apply adds_skip; [apply quiet_reads, reads_get | exact Hpre | discriminate ..|].
  intros s0 s3.
  apply adds_skip; [apply quiet_modify; same_trace | exact Hpre | discriminate ..|].
  intros _ s4.
  apply adds_skip; [apply quiet_getCookieAuth | exact Hpre | discriminate ..|].
  intros _ s5.
  apply adds_skip; [apply quiet_emit, anyKind_all | exact Hpre | discriminate ..|].
  intros _ s6.
  apply adds_skip; [apply quiet_any_suspend | exact Hpre | discriminate ..|].
  intros t s7.
  apply adds_skip; [apply quiet_reads, reads_ask | exact Hpre | discriminate ..|].
  intros env' s8. apply Hanswer.
Qed.

(** The effects of a request for a page: the request, what the event loop
    delivers meanwhile, the answer. *)
Lemma httpGet_adds (port : Z) (path : string) (env : Env) (s : State) :
  adds (httpGet port path) env s (fun r d =>
    exists o d2, r = Fulfilled o /\ d = HttpGet port path :: d2 ++ [HttpGot o]).
Proof.
  unfold httpGet. apply wp_adds, wp_bind, wp_emit, wp_bind, wp_run. intros r s1 Hrun.
  pose proof (suspend_result env (set_trace (fun t => t ++ [HttpGet port path]) s)) as Hr.
  destruct (quiet_any_suspend env (set_trace (fun t => t ++ [HttpGet port path]) s))
    as (d2 & Ht & _).
  rewrite Hrun in Hr, Ht. cbn [fst snd] in Hr, Ht. subst r.
  apply wp_bind, wp_ask. cbv zeta. apply wp_bind, wp_emit, wp_ret.
  exists (HttpGet port path :: d2 ++ [HttpGot (http_answer env (clock s) port path)]).
  cbn [trace set_trace clock] in *. rewrite Ht. split.
  - now rewrite <- !app_assoc.
  - now exists (http_answer env (clock s) port path), d2.
Qed.

(** A height that [getOrdBlockCount] returns was read off a page with
    status 200. *)
Lemma getOrdBlockCount_adds (port : Z) (env : Env) (s : State) :
  adds (Ord.getOrdBlockCount port) env s (fun r d =>
    forall parsed, r = Fulfilled parsed ->
      exists body, polled port body d /\ JS.parseInt (JS.trim body) = Some parsed).
Proof.
  unfold Ord.getOrdBlockCount. apply adds_bind. eapply adds_wand; [apply httpGet_adds|].
  cbv beta. intros r d (o & d2 & -> & ->).
  destruct o as [statusCode body|message|]; [|apply adds_throw; discriminate ..].
  destruct (Z.eqb_spec statusCode 200) as [->|]; [|apply adds_throw; discriminate].
  destruct (JS.parseInt (JS.trim body)) as [parsed|] eqn:Hparse;
    [apply adds_ret | apply adds_throw; discriminate].
  intros parsed' E. injection E as <-. exists body. split; [|exact Hparse].
  exists [], d2, []. now rewrite app_nil_r.
Qed.

(** [waitForOrdSync] answers true only after the indexer has reported the
    expected height or more. *)
Lemma waitForOrdSync_from_adds (budget : nat) (startTime port expectedBlocks maxWaitMs : Z)
    (env : Env) (s : State) :
  adds (Ord.waitForOrdSync_from budget startTime port expectedBlocks maxWaitMs) env s
    (fun r d => r = Fulfilled true -> caughtUp port expectedBlocks d).
Proof.
  revert s. induction budget as [|budget IH]; intros s; cbn [Ord.waitForOrdSync_from].
  { exists []. split; [now rewrite app_nil_r | discriminate]. }
  apply adds_skip; [apply quiet_reads, reads_Date_now | | discriminate ..|].
  { intros r d0 d H E. now apply caughtUp_app_l, H. }
  intros t s1. destruct (t - startTime <? maxWaitMs); [|apply adds_ret; discriminate].
  apply adds_bind, adds_tryCatch, adds_bind.
  eapply adds_wand; [apply getOrdBlockCount_adds|]. cbv beta. intros r d1 Hcount.
  assert (Hretry : forall s',
    adds (sleep 500 >>
          Ord.waitForOrdSync_from budget startTime port expectedBlocks maxWaitMs) env s'
      (fun r2 d2 => r2 = Fulfilled true -> caughtUp port expectedBlocks d2)).
  { intros s'.
    apply adds_skip; [apply quiet_sleep, anyKind_all | | discriminate ..|].
    - intros r2 d0 d2 H E. now apply caughtUp_app_l, H.
    - intros _ s''. apply IH. }
  destruct r as [ordBlocks|e|].
  - destruct (Z.leb_spec expectedBlocks ordBlocks) as [Hle|Hlt].
    + apply adds_ret. rewrite app_nil_r. apply adds_ret. intros _. rewrite app_nil_r.
      destruct (Hcount ordBlocks eq_refl) as (body & Hp & Hparse).
      now exists body, ordBlocks.
    + unfold Ord.log, OrdListeners.log. apply adds_bind, adds_log, adds_ret.
      eapply adds_wand; [apply Hretry|]. cbv beta.
      intros r2 d2 H E. now apply caughtUp_app_l, H.
  - apply adds_ret. eapply adds_wand; [apply Hretry|]. cbv beta.
    intros r2 d2 H E. now apply caughtUp_app_l, H.
  - discriminate.
Qed.

Lemma waitForOrdSync_adds (budget : nat) (port expectedBlocks maxWaitMs : Z)
    (env : Env) (s : State) :
  adds (Ord.waitForOrdSync budget port expectedBlocks maxWaitMs) env s
    (fun r d => r = Fulfilled true -> caughtUp port expectedBlocks d).
Proof.
  unfold Ord.waitForOrdSync.
  apply adds_skip; [apply quiet_reads, reads_Date_now | | discriminate ..|].
  - intros r d0 d H E. now apply caughtUp_app_l, H.
  - intros startTime s'. apply waitForOrdSync_from_adds.
Qed.

Section QuietEverything.

Variable allowed : Kind -> Prop.
Hypothesis everything : forall k, allowed k.

#[local] Hint Resolve everything : quiet.
#[local] Hint Resolve reads_walletCommand reads_getConfig reads_ask reads_get : quiet.
#[local] Hint Extern 1 (quiet _ _) => apply quiet_reads : quiet.
#[local] Hint Resolve quiet_ord_log quiet_log quiet_exec quiet_clearAllOrdData
  quiet_createOrdWallet quiet_getOrdReceiveAddress quiet_generateToAddress : quiet.

Lemma quiet_inscribeFile (depth : nat) (filePath : string) (feeRate : Z)
    (walletName : option string) (retryAfterClear : bool) :
  quiet allowed (Ord.inscribeFile depth filePath feeRate walletName retryAfterClear).
Proof.
  revert walletName retryAfterClear.
  induction depth as [|depth IH]; intros walletName retryAfterClear; simpl; [quiet_tac|].
  unfold Ord.inscribeFile_body. quiet_tac.
Qed.

#[local] Hint Resolve quiet_inscribeFile : quiet.

(** What [inscribeTask] does once the indexer is in step. *)
Lemma quiet_inscribeAndConfirm (depth : nat) (config : OrdConfig) (filePath fileName : string) :
  quiet allowed
    (emit (ProgressReport "Creating inscription...") >>
     let* result := Ord.inscribeFile depth filePath 1 None true in
     OutputChannel.log ("Inscription created: " +:+ inscriptionId result) >>
     emit (AddInscription (inscriptionId result) fileName) >>
     when (Network_eqb (network config) regtest)
       (emit (ProgressReport "Mining confirmation block...") >>
        tryCatch
          (let* address := Ord.getOrdReceiveAddress depth None true in
           let* _ := Rpc.generateToAddress (Some 1) address in
           OutputChannel.log "Mined confirmation block")
          (fun e =>
             OutputChannel.log ("Warning: Could not mine confirmation block: Error: " +:+ e))) >>
     ret (Some {| Inscribe.resultId := inscriptionId result;
                  Inscribe.localUrl :=
                    "http://127.0.0.1:" +:+ JS.toString (ordServerPort config)
                    +:+ "/inscription/" +:+ inscriptionId result;
                  Inscribe.failure := None |})).
Proof. quiet_tac. Qed.

End QuietEverything.

(** * Further properties of the services

    ** The height of the indexer *)

(** What [getOrdBlockCount] settles to, read off the answer to its request. *)
Definition blockCountOn (o : HttpOutcome) : Settled Z :=
  match o with
  | HttpResponse statusCode body =>
      if statusCode =? 200 then
        match JS.parseInt (JS.trim body) with
        | Some parsed => Fulfilled parsed
        | None => Rejected ("Invalid blockcount: " +:+ body)
        end
      else Rejected ("HTTP " +:+ JS.toString statusCode +:+ ": " +:+ body)
  | HttpError message => Rejected message
  | HttpTimeout => Rejected "Timeout"
  end.

Lemma getOrdBlockCount_result (env : Env) (s : State) (port : Z) :
  (Ord.getOrdBlockCount port env s).1 = blockCountOn (http_answer env (clock s) port "/blockcount").
Proof.
  unfold Ord.getOrdBlockCount. rewrite run_bind.
  pose proof (httpGet_result env s port "/blockcount") as H.
  destruct (httpGet _ _ _ _) as [r s']. cbn [fst] in H. subst r.
  destruct (http_answer env (clock s) port "/blockcount") as [statusCode body|message|];
    cbn [blockCountOn]; try reflexivity.
  destruct (statusCode =? 200); [|reflexivity].
  now destruct (JS.parseInt (JS.trim body)).
Qed.

(** X1. [getOrdBlockCount] resolves to n exactly when the answer has status
    200 and its body, read as [parseInt] reads it, starts with the integer n,
    negative or not; a body with status 200 that does not parse is rejected
    as an invalid block count, any other status with its code and body, a
    failed request with its error, a request that timed out with "Timeout". *)
Theorem getOrdBlockCount_classifies (env : Env) (s : State) (port : Z) :
  let answer := http_answer env (clock s) port "/blockcount" in
  let result := (Ord.getOrdBlockCount port env s).1 in
  (forall n, result = Fulfilled n <->
             exists body, answer = HttpResponse 200 body /\ IntegerPrefix body n) /\
  (forall body, answer = HttpResponse 200 body -> (forall n, ~ IntegerPrefix body n) ->
                result = Rejected ("Invalid blockcount: " +:+ body)) /\
  (forall statusCode body, answer = HttpResponse statusCode body -> statusCode <> 200 ->
                result = Rejected ("HTTP " +:+ JS.toString statusCode +:+ ": " +:+ body)) /\
  (forall message, answer = HttpError message -> result = Rejected message) /\
  (answer = HttpTimeout -> result = Rejected "Timeout").
Proof.
  intros answer result. subst result. rewrite getOrdBlockCount_result. fold answer.
  split; [|split; [|split; [|split]]].
  - intros n. split.
    + destruct answer as [statusCode body|message|]; cbn [blockCountOn]; try discriminate.
      destruct (Z.eqb_spec statusCode 200) as [->|]; [|discriminate].
      destruct (JS.parseInt (JS.trim body)) as [parsed|] eqn:E; [|discriminate].
      intros [= <-]. exists body. split; [reflexivity|].
      now rewrite <- parseInt_spec, <- parseInt_trim.
    + intros (body & -> & H). apply parseInt_spec in H. rewrite <- parseInt_trim in H.
      cbn [blockCountOn]. now rewrite Z.eqb_refl, H.
  - intros body -> Hnone. cbn [blockCountOn]. rewrite Z.eqb_refl.
    destruct (JS.parseInt (JS.trim body)) as [parsed|] eqn:E; [|reflexivity].
    rewrite parseInt_trim in E. apply parseInt_spec in E. now apply Hnone in E.
  - intros statusCode body -> Hne. cbn [blockCountOn].
    now destruct (Z.eqb_spec statusCode 200).
  - now intros message ->.
  - now intros ->.
Qed.

(** An indexer that reports -3: the count is handed on as it is. *)
Definition indexerBelowZero : Env :=
  Demo.env "linux" (Demo.config regtest) Demo.noEvents (fun _ _ => Demo.done EmptyString)
    (fun _ => HttpResponse 200 " -3 blocks") true Demo.noUser.

Lemma getOrdBlockCount_classifies_witness :
  (Ord.getOrdBlockCount 9001 indexerBelowZero Demo.idle).1 = Fulfilled (-3).
Proof.
  apply (proj1 (getOrdBlockCount_classifies indexerBelowZero Demo.idle 9001)).
  exists " -3 blocks". split; [reflexivity|].
  apply parseInt_spec. reflexivity.
Defined.

(** ** Time only moves forward *)

(** [m] does not set the clock back. *)
Definition timely {A} (m : M A) : Prop := forall env s, now s <= now (m env s).2.

Lemma timely_ret {A} (a : A) : timely (ret a).
Proof. intros env s. reflexivity. Qed.

Lemma timely_throw {A} (message : string) : timely (@throw A message).
Proof. intros env s. reflexivity. Qed.

Lemma timely_reads {A} (m : M A) : reads m -> timely m.
Proof. intros H env s. destruct (H env s) as [a ->]. reflexivity. Qed.

Lemma timely_modify (f : State -> State) : (forall s, now s <= now (f s)) -> timely (modify f).
Proof. intros H env s. apply H. Qed.

Lemma timely_emit (e : Effect) : timely (emit e).
Proof. intros env s. reflexivity. Qed.

Lemma timely_bind {A B} (m : M A) (k : A -> M B) :
  timely m -> (forall a, timely (k a)) -> timely (bind m k).
Proof.
  intros Hm Hk env s. rewrite run_bind. specialize (Hm env s).
  destruct (m env s) as [[a|e|] s1]; cbn [snd] in *; [|exact Hm ..].
  etransitivity; [exact Hm | apply Hk].
Qed.

Lemma timely_tryCatch {A} (m : M A) (handler : string -> M A) :
  timely m -> (forall e, timely (handler e)) -> timely (tryCatch m handler).
Proof.
  intros Hm Hh env s. unfold tryCatch. specialize (Hm env s).
  destruct (m env s) as [[a|e|] s1]; cbn [snd] in *; [exact Hm | | exact Hm].
  etransitivity; [exact Hm | apply Hh].
Qed.

Lemma timely_when (b : bool) (m : M unit) : timely m -> timely (when b m).
Proof. destruct b; [auto | intros _; apply timely_ret]. Qed.

Lemma timely_forEach {A} (l : list A) (f : A -> M unit) :
  (forall x, timely (f x)) -> timely (forEach l f).
Proof.
  intros Hf. induction l as [|x l IH]; simpl.
  - apply timely_ret.
  - apply timely_bind; auto.
Qed.

Create HintDb timely.
#[local] Hint Extern 1 (timely _) => apply timely_reads; solve [auto with reads] : timely.

Ltac timely_tac :=
  repeat first
    [ progress intros
    | progress cbv beta zeta
    | solve [eauto 2 with timely nocore]
    | apply timely_ret
    | apply timely_throw
    | apply timely_emit
    | apply timely_modify; intros; reflexivity
    | apply timely_bind
    | apply timely_tryCatch
    | apply timely_when
    | apply timely_forEach
    | match goal with
      | |- timely (match ?x with _ => _ end) => destruct x
      end ].

Lemma timely_deliver (ev : nat * ProcEvent) : timely (deliver ev).
Proof.
  unfold deliver. apply timely_bind; [timely_tac|]. intros s.
  destruct (spawned s !! ev.1) as [p|]; [|apply timely_ret].
  destruct (service p), ev.2;
    unfold OrdListeners.onStdoutData, OrdListeners.onStderrData, OrdListeners.onError,
      OrdListeners.onExit, BitcoindListeners.onStdoutData, BitcoindListeners.onStderrData,
      BitcoindListeners.onError, BitcoindListeners.onExit, OrdListeners.log,
      BitcoindListeners.log, OutputChannel.log, OutputChannel.logWarn,
      OutputChannel.logError, OutputChannel.logProcessOutput;
    timely_tac.
Qed.

Lemma timely_suspend : timely suspend.
Proof.
  intros env s. rewrite suspend_state.
  etransitivity; [|apply (timely_forEach _ _ timely_deliver)].
  cbn [now set_time]. lia.
Qed.

#[local] Hint Resolve timely_suspend : timely.

(** A sleep of [ms] milliseconds ends at least [ms] milliseconds later. *)
Lemma sleep_passes (ms : Z) (env : Env) (s : State) : now s + ms <= now (sleep ms env s).2.
Proof.
  unfold sleep. rewrite run_bind. cbn [emit modify fst snd]. rewrite run_bind.
  pose proof (timely_suspend env (set_trace (fun t => t ++ [SetTimeout ms]) s)) as H.
  pose proof (suspend_result env (set_trace (fun t => t ++ [SetTimeout ms]) s)) as Hr.
  destruct (suspend env _) as [r s1]. cbn [fst snd] in *. subst r.
  cbn [modify snd now set_time set_trace] in *. lia.
Qed.

Lemma timely_sleep (ms : Z) : 0 <= ms -> timely (sleep ms).
Proof. intros H env s. pose proof (sleep_passes ms env s). lia. Qed.

Lemma timely_httpGet (port : Z) (path : string) : timely (httpGet port path).
Proof. unfold httpGet. timely_tac. Qed.

Lemma timely_exec (command : string) : timely (exec command).
Proof. unfold exec. timely_tac. Qed.

#[local] Hint Resolve timely_httpGet timely_exec : timely.

Lemma timely_getOrdBlockCount (port : Z) : timely (Ord.getOrdBlockCount port).
Proof. unfold Ord.getOrdBlockCount. timely_tac. Qed.

(** ** Waiting for the indexer *)

Lemma tryCatch_ret_resolves {A} (m : M A) (a : A) (env : Env) (s : State) (e : string) :
  (tryCatch m (fun _ => ret a) env s).1 <> Rejected e.
Proof. unfold tryCatch. now destruct (m env s) as [[a'|e'|] s1]. Qed.

Lemma waitForOrdSync_from_waits (budget : nat) (startTime port expectedBlocks maxWaitMs : Z)
    (env : Env) (s : State) :
  wp (Ord.waitForOrdSync_from budget startTime port expectedBlocks maxWaitMs) env s
     (fun r s' => (forall e, r <> Rejected e) /\
                  (r = Fulfilled false -> maxWaitMs <= now s' - startTime)).
Proof.
  revert s. induction budget as [|budget IH]; intros s; cbn [Ord.waitForOrdSync_from].
  { split; discriminate. }
  apply wp_bind, wp_reads; [apply reads_Date_now|]. intros t Ht. injection Ht as <-.
  destruct (Z.ltb_spec (now s - startTime) maxWaitMs) as [Hlt|Hge].
  - apply wp_bind, wp_run. intros r s1 Hrun.
    pose proof (tryCatch_ret_resolves
                  (let* ordBlocks := Ord.getOrdBlockCount port in
                   if expectedBlocks <=? ordBlocks then ret true
                   else
                     Ord.log ("Waiting for ord to sync... (" +:+ JS.toString ordBlocks +:+ "/"
                              +:+ JS.toString expectedBlocks +:+ " blocks)") >>
                     ret false) false env s) as Hres.
    rewrite Hrun in Hres. cbn [fst] in Hres.
    destruct r as [[|]|e|]; [| |now contradiction (Hres e) |split; discriminate].
    + apply wp_ret. split; discriminate.
    + apply wp_bind, wp_run. intros r2 s2 Hsleep.
      destruct (succeeds_sleep 500 env s1) as [[] Hok]. rewrite Hsleep in Hok.
      cbn [fst] in Hok. subst r2. apply IH.
  - apply wp_ret. split; [discriminate | intros _; lia].
Qed.

(** X2. [waitForOrdSync] never rejects: a failed poll is swallowed.  It
    answers true only after a GET of /blockcount on the port was answered
    with status 200 and a height of [expectedBlocks] or more, and false only
    once [maxWaitMs] milliseconds have passed since the call. *)
Theorem waitForOrdSync_answers (budget : nat) (port expectedBlocks maxWaitMs : Z)
    (env : Env) (s : State) :
  let run := Ord.waitForOrdSync budget port expectedBlocks maxWaitMs env s in
  (forall e, run.1 <> Rejected e) /\
  (exists added, trace run.2 = trace s ++ added /\
     (run.1 = Fulfilled true -> caughtUp port expectedBlocks added)) /\
  (run.1 = Fulfilled false -> now s + maxWaitMs <= now run.2).
Proof.
  intros run.
  assert (H : (forall e, run.1 <> Rejected e) /\
              (run.1 = Fulfilled false -> maxWaitMs <= now run.2 - now s)).
  { subst run. unfold Ord.waitForOrdSync.
    apply (wp_bind Date_now), wp_reads; [apply reads_Date_now|]. intros t Ht.
    injection Ht as <-. apply waitForOrdSync_from_waits. }
  destruct H as [Hres Hfalse]. split; [exact Hres|]. split.
  - apply (waitForOrdSync_adds budget port expectedBlocks maxWaitMs env s).
  - intros E. specialize (Hfalse E). lia.
Qed.

(** An indexer that has the 101 blocks at once. *)
Definition indexerAt101 : Env :=
  Demo.env "linux" (Demo.config regtest) Demo.noEvents (fun _ _ => Demo.done EmptyString)
    (fun _ => HttpResponse 200 "101") true Demo.noUser.

Lemma waitForOrdSync_answers_witness :
  exists added,
    trace (Ord.waitForOrdSync 1 9001 101 30000 indexerAt101 Demo.idle).2
    = trace Demo.idle ++ added /\
    caughtUp 9001 101 added.
Proof.
  destruct (proj1 (proj2 (waitForOrdSync_answers 1 9001 101 30000 indexerAt101 Demo.idle)))
    as (added & Htrace & Hcaught).
  exists added. split; [exact Htrace | apply Hcaught; reflexivity].
Defined.

(** The indexer stays below [expected] blocks for ever. *)
Definition neverCatchesUp (env : Env) (port expected : Z) : Prop :=
  forall t body height,
    http_answer env t port "/blockcount" = HttpResponse 200 body ->
    JS.parseInt (JS.trim body) = Some height ->
    height < expected.

Lemma blockCountOn_settled (o : HttpOutcome) : blockCountOn o <> Pending.
Proof.
  destruct o as [statusCode body|message|]; cbn [blockCountOn]; try discriminate.
  destruct (statusCode =? 200); [|discriminate].
  now destruct (JS.parseInt (JS.trim body)).
Qed.

(** One poll of the loop of [waitForOrdSync]. *)
Lemma syncPoll_run (port expectedBlocks : Z) (env : Env) (s : State) :
  let poll := tryCatch
                (let* ordBlocks := Ord.getOrdBlockCount port in
                 if expectedBlocks <=? ordBlocks then ret true
                 else
                   Ord.log ("Waiting for ord to sync... (" +:+ JS.toString ordBlocks +:+ "/"
                            +:+ JS.toString expectedBlocks +:+ " blocks)") >>
                   ret false)
                (fun _ => ret false) in
  now s <= now (poll env s).2 /\
  exists synced, (poll env s).1 = Fulfilled synced /\
    (synced = true ->
     exists ordBlocks, (Ord.getOrdBlockCount port env s).1 = Fulfilled ordBlocks /\
                       expectedBlocks <= ordBlocks).
Proof.
  intros poll. split.
  - apply timely_tryCatch; [|intros; apply timely_ret].
    apply timely_bind; [apply timely_getOrdBlockCount|]. intros ordBlocks.
    destruct (expectedBlocks <=? ordBlocks); [apply timely_ret|].
    apply timely_bind; [apply timely_emit | intros; apply timely_ret].
  - subst poll. unfold tryCatch. rewrite run_bind.
    pose proof (getOrdBlockCount_result env s port) as Hcount.
    destruct (Ord.getOrdBlockCount port env s) as [[ordBlocks|e|] s1]; cbn [fst snd] in *.
    + destruct (Z.leb_spec expectedBlocks ordBlocks) as [Hle|Hlt].
      * exists true. split; [reflexivity|]. intros _. now exists ordBlocks.
      * exists false. split; [reflexivity | discriminate].
    + exists false. split; [reflexivity | discriminate].
    + symmetry in Hcount. now apply blockCountOn_settled in Hcount.
Qed.

Lemma waitForOrdSync_from_gives_up (budget : nat) (startTime port expectedBlocks maxWaitMs : Z)
    (env : Env) (s : State) :
  (1 <= budget)%nat ->
  maxWaitMs <= now s - startTime + 500 * (Z.of_nat budget - 1) ->
  wp (Ord.waitForOrdSync_from budget startTime port expectedBlocks maxWaitMs) env s
     (fun r _ => exists synced : bool,
        r = Fulfilled synced /\ (neverCatchesUp env port expectedBlocks -> synced = false)).
Proof.
  revert s. induction budget as [|budget IH]; intros s Hbudget Htime; [lia|].
  cbn [Ord.waitForOrdSync_from].
  apply wp_bind, wp_reads; [apply reads_Date_now|]. intros t Ht. injection Ht as <-.
  destruct (Z.ltb_spec (now s - startTime) maxWaitMs) as [Hlt|Hge].
  - apply wp_bind, wp_run. intros r s1 Hrun.
    destruct (syncPoll_run port expectedBlocks env s) as (Hnow & synced & Hres & Hsynced).
    rewrite Hrun in Hnow, Hres. cbn [fst snd] in Hnow, Hres. subst r.
    destruct synced.
    + apply wp_ret. exists true. split; [reflexivity|]. intros Hnever.
      destruct (Hsynced eq_refl) as (ordBlocks & Hcount & Hle).
      rewrite getOrdBlockCount_result in Hcount.
      destruct (http_answer env (clock s) port "/blockcount") as [statusCode body|message|] eqn:Ho;
        cbn [blockCountOn] in Hcount; try discriminate.
      destruct (Z.eqb_spec statusCode 200) as [->|]; [|discriminate].
      destruct (JS.parseInt (JS.trim body)) as [parsed|] eqn:Hparse; [|discriminate].
      injection Hcount as ->. specialize (Hnever _ _ _ Ho Hparse). lia.
    + apply wp_bind, wp_run. intros r2 s2 Hsleep.
      destruct (succeeds_sleep 500 env s1) as [[] Hok]. rewrite Hsleep in Hok.
      cbn [fst] in Hok. subst r2.
      pose proof (sleep_passes 500 env s1) as Hlater. rewrite Hsleep in Hlater.
      cbn [snd] in Hlater. apply IH; lia.
  - apply wp_ret. exists false. split; reflexivity.
Qed.


(** An indexer that stays at height 0. *)
Definition indexerAtZero : Env :=
  Demo.env "linux" (Demo.config regtest) Demo.noEvents (fun _ _ => Demo.done EmptyString)
    (fun _ => HttpResponse 200 "0") true Demo.noUser.

